(** * LabelGenerator: frame sampling, detection filtering and clip bookkeeping

    A shallow embedding of the algorithmic core of the annotator
    ([src/components/ImageAnnotator.tsx]) and of the manual clip editor
    ([ManualClipEditor], the revision whose props the annotator passes),
    together with the properties the specification states about them.

    Conventions of the embedding.
    - JavaScript numbers that carry pixel coordinates, scores and times are
      rationals ([Q]); counters, indices and frame counts are [nat].  Where
      the source accumulates a number over a loop (the blur score, the
      sampling times of a marker) every operation is rounded as binary64
      rounds it ([Double.round]); elsewhere the arithmetic is exact.  NaN,
      infinities and the exponent range of binary64 are outside the model.
    - Strings are [string] (byte strings, read as UTF-8).  [trim] strips the
      ASCII white space characters and [toLowerCase]/[toUpperCase] fold the
      ASCII letters; other bytes are left alone.
    - A [Map] iterated in insertion order is an association list and a
      [Set<number>] of frame indices is a [gset nat].  The plain object of
      clip counters is the [gmap] of its own properties, read and written
      as JavaScript reads and writes a plain object: a name it does not own
      is looked up in [Object.prototype].
    - Browser capabilities (decoding an image, seeking a video, running the
      network, collation order, the source text of a native function) are
      parameters. *)

From Stdlib Require Import Ascii String QArith Qround Qminmax Qabs Qpower Lqa.
From stdpp Require Import gmap strings list pretty sorting.

Local Open Scope string_scope.

(** ** JavaScript string primitives *)

Module JsString.

(** [String.prototype.trim] white space, ASCII part: TAB, LF, VT, FF, CR
    and SPACE. *)
Definition is_white (c : ascii) : bool :=
  let n := nat_of_ascii c in
  ((9 <=? n)%nat && (n <=? 13)%nat) || (n =? 32)%nat.

Fixpoint trimStart (s : string) : string :=
  match s with
  | String c s' => if is_white c then trimStart s' else s
  | EmptyString => EmptyString
  end.

(** Right trim, written by structural recursion: a white character is
    dropped when everything after it trims to nothing. *)
Fixpoint trimEnd (s : string) : string :=
  match s with
  | EmptyString => EmptyString
  | String c s' =>
      match trimEnd s' with
      | EmptyString => if is_white c then EmptyString else String c EmptyString
      | r => String c r
      end
  end.

Definition trim (s : string) : string := trimEnd (trimStart s).

Definition lower_char (c : ascii) : ascii :=
  let n := nat_of_ascii c in
  if ((65 <=? n)%nat && (n <=? 90)%nat) then ascii_of_nat (n + 32) else c.

Definition upper_char (c : ascii) : ascii :=
  let n := nat_of_ascii c in
  if ((97 <=? n)%nat && (n <=? 122)%nat) then ascii_of_nat (n - 32) else c.

Fixpoint toLowerCase (s : string) : string :=
  match s with
  | EmptyString => EmptyString
  | String c s' => String (lower_char c) (toLowerCase s')
  end.

Fixpoint toUpperCase (s : string) : string :=
  match s with
  | EmptyString => EmptyString
  | String c s' => String (upper_char c) (toUpperCase s')
  end.

(** [s.charAt(0).toUpperCase() + s.slice(1)] *)
Definition capitalize (s : string) : string :=
  match s with
  | EmptyString => EmptyString
  | String c s' => String (upper_char c) s'
  end.

(** [s.replace(/c/g, r)] for a single literal character [c]. *)
Fixpoint replaceChar (c : ascii) (r : string) (s : string) : string :=
  match s with
  | EmptyString => EmptyString
  | String a s' =>
      if Ascii.eqb a c then r +:+ replaceChar c r s'
      else String a (replaceChar c r s')
  end.

(** [s.replace(/ext$/i, "")] for a literal, lower-case [ext]. *)
Fixpoint stripSuffixCI (ext : string) (s : string) : string :=
  if String.eqb (toLowerCase s) ext then EmptyString
  else match s with
       | EmptyString => EmptyString
       | String a s' => String a (stripSuffixCI ext s')
       end.

Fixpoint repeatChar (n : nat) (c : ascii) : string :=
  match n with
  | O => EmptyString
  | S n' => String c (repeatChar n' c)
  end.

(** [s.padStart(n, c)] for a one-character filler. *)
Definition padStart (n : nat) (c : ascii) (s : string) : string :=
  repeatChar (n - String.length s) c +:+ s.

(** [String(n)] for a non-negative integer. *)
Definition ofNat (n : nat) : string := pretty n.

End JsString.

Import JsString.

(** JavaScript truthiness of a string: only the empty string is falsy. *)
Definition truthy (s : string) : bool := negb (String.eqb s "").

(** ** Data model ([interface Detection], [interface ImageData]) *)

Module Detection.
Record t : Type := mk
  { x : Q; y : Q; width : Q; height : Q; label : string; confidence : Q }.

(** [{ ...d, label: l }] *)
Definition with_label (l : string) (d : t) : t :=
  mk (x d) (y d) (width d) (height d) l (confidence d).
End Detection.

(** A [File]: its name and an opaque handle on its bytes. *)
Module File.
Record t : Type := mk { name : string; blob : N }.
End File.

Module ImageData.
Record t : Type := mk
  { file : File.t;
    url : string;
    detections : list Detection.t;
    frameNumber : option nat;
    sourceVideo : option string;
    activityLabel : option string }.

(** [{ ...img, detections: ds }] *)
Definition with_detections (ds : list Detection.t) (img : t) : t :=
  mk (file img) (url img) ds (frameNumber img) (sourceVideo img)
     (activityLabel img).
End ImageData.

(** ** The detector classes the exporter refuses as activity labels *)

Definition cocoClasses : list string :=
  [ "person"; "bicycle"; "car"; "motorcycle"; "airplane"; "bus"; "train";
    "truck"; "boat"; "traffic light"; "fire hydrant"; "stop sign";
    "parking meter"; "bench"; "bird"; "cat"; "dog"; "horse"; "sheep"; "cow";
    "elephant"; "bear"; "zebra"; "giraffe"; "backpack"; "umbrella";
    "handbag"; "tie"; "suitcase"; "frisbee"; "skis"; "snowboard";
    "sports ball"; "kite"; "baseball bat"; "baseball glove"; "skateboard";
    "surfboard"; "tennis racket"; "bottle"; "wine glass"; "cup"; "fork";
    "knife"; "spoon"; "bowl"; "banana"; "apple"; "sandwich"; "orange";
    "broccoli"; "carrot"; "hot dog"; "pizza"; "donut"; "cake"; "chair";
    "couch"; "potted plant"; "bed"; "dining table"; "toilet"; "tv"; "laptop";
    "mouse"; "remote"; "keyboard"; "cell phone"; "microwave"; "oven";
    "toaster"; "sink"; "refrigerator"; "book"; "clock"; "vase"; "scissors";
    "teddy bear"; "hair drier"; "toothbrush" ].

(** [new Set([...].map((l) => l.toLowerCase()))] *)
Definition cocoLabels : gset string :=
  list_to_set (toLowerCase <$> cocoClasses).

(** [label && !cocoLabels.has(label.toLowerCase())] *)
Definition isCustomLabel (label : string) : bool :=
  truthy label && negb (bool_decide (toLowerCase label ∈ cocoLabels)).

(** The [for (const det of img.detections)] loop of [getCustomLabel]. *)
Fixpoint firstCustomDetectionLabel (dets : list Detection.t) : option string :=
  match dets with
  | [] => None
  | det :: rest =>
      let label := trim (Detection.label det) in
      if isCustomLabel label then Some label
      else firstCustomDetectionLabel rest
  end.

(** Priority: explicit [activityLabel]; fallback: the detections. *)
Definition getCustomLabel (img : ImageData.t) : option string :=
  let explicit := trim (default "" (ImageData.activityLabel img)) in
  if truthy explicit then Some explicit
  else firstCustomDetectionLabel (ImageData.detections img).

(** ** Path segments and numbering used by the exporter *)

Definition dquote : ascii := ascii_of_nat 34.

(** [toSafePathSegment]: trim, replace what Windows refuses in a path by
    its full-width twin, drop one trailing video extension of each kind. *)
Definition toSafePathSegment (name : string) : string :=
  let s := trim name in
  let s := replaceChar "\" "＼" s in
  let s := replaceChar "/" "／" s in
  let s := replaceChar ":" "：" s in
  let s := replaceChar "*" "＊" s in
  let s := replaceChar "?" "？" s in
  let s := replaceChar dquote "＂" s in
  let s := replaceChar "<" "＜" s in
  let s := replaceChar ">" "＞" s in
  let s := replaceChar "|" "｜" s in
  let s := stripSuffixCI ".mp4" s in
  let s := stripSuffixCI ".avi" s in
  let s := stripSuffixCI ".mov" s in
  let s := stripSuffixCI ".mkv" s in
  stripSuffixCI ".webm" s.

(** What a clip counter can be at run time: a number, or, once an export
    has read something that is not a number, a string. *)
Module Counter.
Inductive t : Type :=
  | number (n : nat)
  | text (s : string).

(** [String(v)] *)
Definition toString (v : t) : string :=
match v with
| number n => ofNat n
| text s => s
end.

(** [v + k] for a number [k]: the sum of two numbers, otherwise the two
    written one after the other. *)
Definition plus (v : t) (k : nat) : t :=
match v with
| number n => number (n + k)
| text s => text (s +:+ ofNat k)
end.
End Counter.

Coercion Counter.number : nat >-> Counter.t.

(** [String(n).padStart(2, "0")] *)
Definition pad2 (n : Counter.t) : string := padStart 2 "0" (Counter.toString n).

(** [`frames${String(n).padStart(5, "0")}`] *)
Definition framesBaseName (n : nat) : string :=
  "frames" +:+ padStart 5 "0" (ofNat n).

(** [Math.round] on an exact rational. *)
Definition mathRound (q : Q) : Z := Qfloor (q + (1 # 2)).

(** ** Arithmetic of JavaScript numbers (binary64) *)

Module Double.
(** Round to the nearest integer, a tie to the even one. *)
Definition nearestEven (q : Q) : Z :=
let f := Qfloor q in
match (q - inject_Z f ?= 1 # 2)%Q with
| Lt => f
| Gt => (f + 1)%Z
| Eq => if Z.even f then f else (f + 1)%Z
end.

(** The binary exponent of a positive number: [2^e <= q < 2^(e+1)]. *)
Definition exponent (q : Q) : Z :=
let e := (Z.log2 (Qnum q) - Z.log2 (Zpos (Qden q)))%Z in
if Qle_bool (2 ^ e) q then e else (e - 1)%Z.

(** A positive number cut to 53 significant bits. *)
Definition roundPos (q : Q) : Q :=
let e := exponent q in
(inject_Z (nearestEven (q * 2 ^ (52 - e))) * 2 ^ (e - 52))%Q.

(** The binary64 number nearest to [q], a tie to the even significand, in
    lowest terms. *)
Definition round (q : Q) : Q :=
Qred match Qnum q with
     | Z0 => 0
     | Zpos _ => roundPos q
     | Zneg _ => - roundPos (- q)
     end.

(** [x + y], [x - y], [x * y] and [x / y] on numbers. *)
Definition add (x y : Q) : Q := round (x + y).
Definition sub (x y : Q) : Q := round (x - y).
Definition mul (x y : Q) : Q := round (x * y).
Definition div (x y : Q) : Q := round (x / y).
End Double.

(** ** Insertion-ordered maps ([Map<string, V>]) *)

Module OMap.
Section ops.
Context {V : Type}.

Fixpoint get (k : string) (m : list (string * V)) : option V :=
  match m with
  | [] => None
  | (k', v) :: m' => if String.eqb k' k then Some v else get k m'
  end.

(** [if (!m.has(k)) m.set(k, init); m.set(k, f(m.get(k)))]: a present
    key keeps its position, a new key goes last. *)
Fixpoint upsert (k : string) (init : V) (f : V → V)
    (m : list (string * V)) : list (string * V) :=
  match m with
  | [] => [(k, f init)]
  | (k', v) :: m' =>
      if String.eqb k' k then (k', f v) :: m'
      else (k', v) :: upsert k init f m'
  end.

Definition keys (m : list (string * V)) : list string := fst <$> m.
End ops.
End OMap.

(** ** Stable sorting with a JavaScript comparator ([Array.prototype.sort]) *)

Section sorting.
Context {A : Type} (cmp : A → A → Z).

Fixpoint insertBy (a : A) (l : list A) : list A :=
  match l with
  | [] => [a]
  | b :: l' => if (cmp a b <=? 0)%Z then a :: l else b :: insertBy a l'
  end.

Definition sortBy (l : list A) : list A := foldr insertBy [] l.
End sorting.

(** ** Cutting a frame list into runs of at most [MAX_FRAMES_PER_CLIP] *)

Definition MAX_FRAMES_PER_CLIP : nat := 200.

(** [frames.slice(i, j)] *)
Definition slice {A : Type} (i j : nat) (l : list A) : list A :=
  take (j - i) (drop i l).

(** [for (let i = 0; i < frames.length; i += MAX) chunks.push(frames.slice(i, i + MAX))];
    [fuel] bounds the number of iterations. *)
Fixpoint sliceLoop {A : Type} (fuel i : nat) (frames : list A) : list (list A) :=
  match fuel with
  | O => []
  | S fuel' =>
      if (i <? length frames)%nat
      then slice i (i + MAX_FRAMES_PER_CLIP) frames
             :: sliceLoop fuel' (i + MAX_FRAMES_PER_CLIP) frames
      else []
  end.

Definition frameChunks {A : Type} (frames : list A) : list (list A) :=
  sliceLoop (length frames) 0 frames.

(** ** The detector capability and the annotator's state *)

(** One raw candidate of the pretrained detector: [bbox = [x, y, w, h]]. *)
Module Prediction.
Record t : Type := mk
  { bx : Q; by_ : Q; bw : Q; bh : Q; class : string; score : Q }.
End Prediction.

(** A loaded model: image in, candidates out. *)
Definition ObjectDetection : Type := File.t → list Prediction.t.

(** The [useState] cells of the component that the core reads or writes. *)
Module State.
Record t : Type := mk
  { images : list ImageData.t;
    currentIndex : nat;
    selectedDetection : option nat;
    selectedImages : gset nat;
    model : option ObjectDetection;
    confidenceThreshold : Q;
    boundingBoxPadding : Q;
    frameInterval : Q;
    chunkDuration : Q;
    filterMotionBlur : bool;
    blurThreshold : Q;
    enhanceVideo : bool;
    enhanceScale : Q;
    exportOnlyLabeled : bool;
    labelClipCounters : gmap string Counter.t }.

Definition setImages (v : list ImageData.t) (s : t) : t :=
mk v (currentIndex s) (selectedDetection s) (selectedImages s) (model s)
   (confidenceThreshold s) (boundingBoxPadding s) (frameInterval s)
   (chunkDuration s) (filterMotionBlur s) (blurThreshold s) (enhanceVideo s)
   (enhanceScale s) (exportOnlyLabeled s) (labelClipCounters s).

Definition setCurrentIndex (v : nat) (s : t) : t :=
mk (images s) v (selectedDetection s) (selectedImages s) (model s)
   (confidenceThreshold s) (boundingBoxPadding s) (frameInterval s)
   (chunkDuration s) (filterMotionBlur s) (blurThreshold s) (enhanceVideo s)
   (enhanceScale s) (exportOnlyLabeled s) (labelClipCounters s).

Definition setSelectedDetection (v : option nat) (s : t) : t :=
mk (images s) (currentIndex s) v (selectedImages s) (model s)
   (confidenceThreshold s) (boundingBoxPadding s) (frameInterval s)
   (chunkDuration s) (filterMotionBlur s) (blurThreshold s) (enhanceVideo s)
   (enhanceScale s) (exportOnlyLabeled s) (labelClipCounters s).

Definition setSelectedImages (v : gset nat) (s : t) : t :=
mk (images s) (currentIndex s) (selectedDetection s) v (model s)
   (confidenceThreshold s) (boundingBoxPadding s) (frameInterval s)
   (chunkDuration s) (filterMotionBlur s) (blurThreshold s) (enhanceVideo s)
   (enhanceScale s) (exportOnlyLabeled s) (labelClipCounters s).

Definition setFilterMotionBlur (v : bool) (s : t) : t :=
mk (images s) (currentIndex s) (selectedDetection s) (selectedImages s)
   (model s) (confidenceThreshold s) (boundingBoxPadding s)
   (frameInterval s) (chunkDuration s) v (blurThreshold s) (enhanceVideo s)
   (enhanceScale s) (exportOnlyLabeled s) (labelClipCounters s).

Definition setBlurThreshold (v : Q) (s : t) : t :=
mk (images s) (currentIndex s) (selectedDetection s) (selectedImages s)
   (model s) (confidenceThreshold s) (boundingBoxPadding s)
   (frameInterval s) (chunkDuration s) (filterMotionBlur s) v (enhanceVideo s)
   (enhanceScale s) (exportOnlyLabeled s) (labelClipCounters s).

Definition setLabelClipCounters (v : gmap string Counter.t) (s : t) : t :=
mk (images s) (currentIndex s) (selectedDetection s) (selectedImages s)
   (model s) (confidenceThreshold s) (boundingBoxPadding s)
   (frameInterval s) (chunkDuration s) (filterMotionBlur s)
   (blurThreshold s) (enhanceVideo s) (enhanceScale s) (exportOnlyLabeled s)
   v.
End State.

(** ** The exporter ([handleExportAnnotatedClips]) *)

(** One entry of [annotations] in a frame's JSON descriptor. *)
Module Annotation.
Record t : Type := mk
  { label : string; x : Z; y : Z; width : Z; height : Z; confidence : Q }.
End Annotation.

(** The object handed to [JSON.stringify] for one frame. *)
Module FrameData.
Record t : Type := mk
  { width : option Z;
    height : option Z;
    sourceClip : string;
    clipFolder : string;
    frameNumber : option nat;
    activityLabel : string;
    annotations : list Annotation.t }.
End FrameData.

(** What one frame contributes to a clip folder: [baseName.jpg] (absent
    when fetching the image failed) and [baseName.json]. *)
Module FrameOut.
Record t : Type := mk
  { baseName : string; jpg : option N; json : FrameData.t }.
End FrameOut.

(** One numbered clip folder of a label.  The pictures go to
    [jpgRoot/folder/], the descriptors to [jsonRoot/folder/]. *)
Module ClipFolder.
Record t : Type := mk
  { label : string;
    clipNumber : Counter.t;
    jpgRoot : string;
    jsonRoot : string;
    folder : string;
    frames : list FrameOut.t }.
End ClipFolder.

(** The archive: the labelled clip folders in the order they are written,
    and under [Unlabeled/] one folder per clip with its picture files. *)
Module Zip.
Record t : Type := mk
  { clipFolders : list ClipFolder.t;
    unlabeled : list (string * list (string * N)) }.
End Zip.

(** The two running totals the export reports at its end. *)
Module Tally.
Record t : Type := mk { totalExportedClips : nat; totalExportedFrames : nat }.
End Tally.

Inductive ExportOutcome : Type :=
  | NothingToExport (message : string)
  | Exported (zip : Zip.t) (totalExportedClips totalExportedFrames : nat).

(** The methods every plain object inherits from [Object.prototype]. *)
Definition inheritedMethods : list string :=
[ "constructor"; "hasOwnProperty"; "isPrototypeOf"; "propertyIsEnumerable";
  "toLocaleString"; "toString"; "valueOf";
  "__defineGetter__"; "__defineSetter__"; "__lookupGetter__"; "__lookupSetter__" ].

Section exporter.
(** [a.localeCompare(b)] of the host. *)
Variable localeCompare : string → string → Z.
(** [fetch(url)] then [blob()]; [None] when either throws. *)
Variable fetchBlob : string → option N.
(** Size of the picture behind a URL; [None] on [onerror]. *)
Variable imageSize : string → option (Z * Z).
(** [String(Object.prototype[name])]: the text the engine prints for the
    native method of that name. *)
Variable functionText : string → string.

Definition clipKeyOf (img : ImageData.t) : string :=
  let k := trim (default "ungrouped" (ImageData.sourceVideo img)) in
  if truthy k then k else "ungrouped".

(** The comparator of [sortFrames]. *)
Definition frameOrder (a b : ImageData.t) : Z :=
  let fa := Z.of_nat (default 0%nat (ImageData.frameNumber a)) in
  let fb := Z.of_nat (default 0%nat (ImageData.frameNumber b)) in
  if negb (fa =? fb)%Z then (fa - fb)%Z
  else localeCompare (File.name (ImageData.file a))
                     (File.name (ImageData.file b)).

Definition sortFrames (frames : list ImageData.t) : list ImageData.t :=
  sortBy frameOrder frames.

Definition ByClip : Type := list (string * list ImageData.t).
Definition ByLabel : Type := list (string * ByClip).

Definition pushFrame (clipKey : string) (img : ImageData.t)
    (byClip : ByClip) : ByClip :=
  OMap.upsert clipKey [] (λ frames, (frames ++ [img])%list) byClip.

(** One round of the grouping loop over [imagesToExport]. *)
Definition groupFrame (onlyLabeled : bool) (acc : ByLabel * ByClip)
    (img : ImageData.t) : ByLabel * ByClip :=
  let clipKey := clipKeyOf img in
  match getCustomLabel img with
  | Some label =>
      if truthy label
      then (OMap.upsert label [] (pushFrame clipKey img) acc.1, acc.2)
      else if negb onlyLabeled
           then (acc.1, pushFrame clipKey img acc.2) else acc
  | None =>
      if negb onlyLabeled
      then (acc.1, pushFrame clipKey img acc.2) else acc
  end.

Definition customDetections (img : ImageData.t) : list Detection.t :=
  filter (λ d, isCustomLabel (trim (Detection.label d)) = true)
         (ImageData.detections img).

Definition toAnnotation (det : Detection.t) : Annotation.t :=
  Annotation.mk (Detection.label det)
    (mathRound (Detection.x det)) (mathRound (Detection.y det))
    (mathRound (Detection.width det)) (mathRound (Detection.height det))
    (Detection.confidence det).

(** What one round of [for (const img of chunkFrames)] writes;
    [clipFrameCounter] is the counter after its increment. *)
Definition exportFrame (label clipKey clipFolderName : string)
    (clipFrameCounter : nat) (img : ImageData.t) : FrameOut.t :=
  let dims := imageSize (ImageData.url img) in
  FrameOut.mk (framesBaseName clipFrameCounter)
    (fetchBlob (ImageData.url img))
    (FrameData.mk (fst <$> dims) (snd <$> dims) clipKey clipFolderName
       (ImageData.frameNumber img) label
       (toAnnotation <$> customDetections img)).

(** [for (const img of chunkFrames)]: threads [clipFrameCounter] and
    [totalExportedFrames], which counts every frame, fetched or not. *)
Fixpoint exportFrames (label clipKey clipFolderName : string)
    (clipFrameCounter totalExportedFrames : nat)
    (chunkFrames : list ImageData.t) : nat * list FrameOut.t :=
  match chunkFrames with
  | [] => (totalExportedFrames, [])
  | img :: rest =>
      let counter := S clipFrameCounter in
      let r := exportFrames label clipKey clipFolderName counter
                 (S totalExportedFrames) rest in
      (r.1, exportFrame label clipKey clipFolderName counter img :: r.2)
  end.

(** One clip folder; returns [totalExportedFrames] with it. *)
Definition exportChunk (label safeLabel clipKey : string)
    (clipNumber : Counter.t) (totalExportedFrames : nat)
    (chunkFrames : list ImageData.t) : nat * ClipFolder.t :=
  let clipFolderName := safeLabel +:+ pad2 clipNumber in
  let r := exportFrames label clipKey clipFolderName 0 totalExportedFrames
             chunkFrames in
  (r.1,
   ClipFolder.mk label clipNumber safeLabel (safeLabel +:+ " labeld")
     (toSafePathSegment clipFolderName) r.2).

(** [for (chunkIndex ...)]: threads the running totals and
    [totalClipsForLabel]. *)
Fixpoint exportChunks (label safeLabel clipKey : string)
    (currentClipOffset : Counter.t) (totalClipsForLabel : nat)
    (tally : Tally.t) (frameChunks : list (list ImageData.t))
    : Tally.t * nat * list ClipFolder.t :=
  match frameChunks with
  | [] => (tally, totalClipsForLabel, [])
  | chunkFrames :: rest =>
      let totalExportedClips := S (Tally.totalExportedClips tally) in
      let total := S totalClipsForLabel in
      let clipNumber := Counter.plus currentClipOffset total in
      let c := exportChunk label safeLabel clipKey clipNumber
                 (Tally.totalExportedFrames tally) chunkFrames in
      let r := exportChunks label safeLabel clipKey currentClipOffset total
                 (Tally.mk totalExportedClips c.1) rest in
      (r.1, c.2 :: r.2)
  end.

(** [for (clipIndex ...)] over the sorted clip keys of one label. *)
Fixpoint exportClips (label safeLabel : string) (byClip : ByClip)
    (currentClipOffset : Counter.t) (totalClipsForLabel : nat)
    (tally : Tally.t) (clipKeys : list string)
    : Tally.t * nat * list ClipFolder.t :=
  match clipKeys with
  | [] => (tally, totalClipsForLabel, [])
  | clipKey :: rest =>
      let frames := default [] (OMap.get clipKey byClip) in
      if (length frames =? 0)%nat
      then exportClips label safeLabel byClip currentClipOffset
             totalClipsForLabel tally rest
      else
        let r1 := exportChunks label safeLabel clipKey currentClipOffset
                    totalClipsForLabel tally (frameChunks frames) in
        let r2 := exportClips label safeLabel byClip currentClipOffset
                    r1.1.2 r1.1.1 rest in
        (r2.1, (r1.2 ++ r2.2)%list)
  end.

(** [newClipCounters[label] || 0] on a plain object.  A property the
    object owns is taken as it is, unless it is falsy (the number 0 or the
    empty string).  A name it does not own is looked up in
    [Object.prototype]: an inherited method, or the prototype itself for
    [__proto__], is truthy, and all that happens to it afterwards is [+],
    which turns it into its string; it is kept as that string. *)
Definition clipOffset (newClipCounters : gmap string Counter.t)
    (label : string) : Counter.t :=
  match newClipCounters !! label with
  | Some (Counter.number n) => Counter.number n
  | Some (Counter.text s) =>
      if truthy s then Counter.text s else Counter.number 0
  | None =>
      if bool_decide (label ∈ inheritedMethods)
      then Counter.text (functionText label)
      else if String.eqb label "__proto__" then Counter.text "[object Object]"
      else Counter.number 0
  end.

(** [newClipCounters[label] = v].  On an object that has no own property
    [__proto__] the assignment to that name runs the inherited setter,
    which ignores a value that is not an object. *)
Definition setCounter (label : string) (v : Counter.t)
    (newClipCounters : gmap string Counter.t) : gmap string Counter.t :=
  if String.eqb label "__proto__" && bool_decide (newClipCounters !! label = None)
  then newClipCounters
  else <[label := v]> newClipCounters.

(** [for (const [label, byClip] of byLabel)]: threads the running totals
    and [newClipCounters].  [zip.folder] always hands back a folder, so the
    [continue] guards on a missing folder are never taken. *)
Fixpoint exportLabels (byLabel : ByLabel)
    (newClipCounters : gmap string Counter.t) (tally : Tally.t)
    : Tally.t * gmap string Counter.t * list ClipFolder.t :=
  match byLabel with
  | [] => (tally, newClipCounters, [])
  | (label, byClip) :: rest =>
      let safeLabel := toSafePathSegment label in
      let currentClipOffset := clipOffset newClipCounters label in
      let clipKeys := sortBy localeCompare (OMap.keys byClip) in
      let r := exportClips label safeLabel byClip currentClipOffset 0 tally
                 clipKeys in
      let r' := exportLabels rest
                  (setCounter label (Counter.plus currentClipOffset r.1.2)
                     newClipCounters)
                  r.1.1 in
      (r'.1, (r.2 ++ r'.2)%list)
  end.

(** One clip under [Unlabeled/]: numbered pictures, only those that could
    be fetched; [frameCounter] advances for every frame,
    [totalExportedFrames] for every picture written. *)
Fixpoint exportUnlabeledClip (frameCounter totalExportedFrames : nat)
    (frames : list ImageData.t) : nat * list (string * N) :=
  match frames with
  | [] => (totalExportedFrames, [])
  | img :: rest =>
      let counter := S frameCounter in
      let baseName := padStart 5 "0" (ofNat counter) in
      match fetchBlob (ImageData.url img) with
      | Some blob =>
          let r := exportUnlabeledClip counter (S totalExportedFrames) rest in
          (r.1, (baseName +:+ ".jpg", blob) :: r.2)
      | None => exportUnlabeledClip counter totalExportedFrames rest
      end
  end.

(** [for (const clipKey of clipKeys)] of the [Unlabeled/] part. *)
Fixpoint exportUnlabeled (unlabeledByClip : ByClip)
    (totalExportedFrames : nat) (clipKeys : list string)
    : nat * list (string * list (string * N)) :=
  match clipKeys with
  | [] => (totalExportedFrames, [])
  | clipKey :: rest =>
      let frames := default [] (OMap.get clipKey unlabeledByClip) in
      if (length frames =? 0)%nat
      then exportUnlabeled unlabeledByClip totalExportedFrames rest
      else
        let c := exportUnlabeledClip 0 totalExportedFrames frames in
        let r := exportUnlabeled unlabeledByClip c.1 rest in
        (r.1, (toSafePathSegment clipKey, c.2) :: r.2)
  end.

Definition imagesToExport (onlyLabeled : bool) (images : list ImageData.t)
    : list ImageData.t :=
  if onlyLabeled
  then filter (λ img, getCustomLabel img ≠ None) images
  else images.

Definition sortByClip (byClip : ByClip) : ByClip :=
  (λ kv, (kv.1, sortFrames kv.2)) <$> byClip.

Definition handleExportAnnotatedClips (st : State.t)
    : State.t * ExportOutcome :=
  let onlyLabeled := State.exportOnlyLabeled st in
  let toExport := imagesToExport onlyLabeled (State.images st) in
  if (length toExport =? 0)%nat then
    (st, NothingToExport
           (if onlyLabeled
            then "Keine gelabelten Frames zum Exportieren. Bitte erst labeln!"
            else "Keine Frames zum Exportieren."))
  else
    let grouped := foldl (groupFrame onlyLabeled) ([], []) toExport in
    let byLabel := (λ kv, (kv.1, sortByClip kv.2)) <$> grouped.1 in
    let unlabeledByClip := sortByClip grouped.2 in
    let r := exportLabels byLabel (State.labelClipCounters st) (Tally.mk 0 0) in
    let u :=
      if negb onlyLabeled && (0 <? length unlabeledByClip)%nat
      then exportUnlabeled unlabeledByClip (Tally.totalExportedFrames r.1.1)
             (sortBy localeCompare (OMap.keys unlabeledByClip))
      else (Tally.totalExportedFrames r.1.1, []) in
    (State.setLabelClipCounters r.1.2 st,
     Exported (Zip.mk r.2 u.2) (Tally.totalExportedClips r.1.1) u.1).
End exporter.

(** The clip ordinals an archive gives to one label, in writing order. *)
Definition ordinalsOf (label : string) (folders : list ClipFolder.t)
    : list Counter.t :=
  ClipFolder.clipNumber <$> filter (λ cf, ClipFolder.label cf = label) folders.

(** The number of frames in a list of clip folders. *)
Definition framesIn (folders : list ClipFolder.t) : nat :=
  sum_list (length ∘ ClipFolder.frames <$> folders).

(** [label] owns, in the grouping, a clip with at least one frame. *)
Definition hasFrames (label : string) (byLabel : ByLabel) : Prop :=
  ∃ byClip clipKey frames,
    OMap.get label byLabel = Some byClip
    ∧ OMap.get clipKey byClip = Some frames ∧ frames ≠ [].

(** The folders of [cf] are named after [label], made path-safe, and every
    descriptor in it names [label] and the numbered folder. *)
Definition namedAfter (label : string) (cf : ClipFolder.t) : Prop :=
ClipFolder.jpgRoot cf = toSafePathSegment label
∧ ClipFolder.jsonRoot cf = toSafePathSegment label +:+ " labeld"
∧ ClipFolder.folder cf
  = toSafePathSegment (toSafePathSegment label +:+ pad2 (ClipFolder.clipNumber cf))
∧ Forall (λ fo,
    FrameData.activityLabel (FrameOut.json fo) = label
    ∧ FrameData.clipFolder (FrameOut.json fo)
      = toSafePathSegment label +:+ pad2 (ClipFolder.clipNumber cf))
    (ClipFolder.frames cf).

(** Some frame that qualifies for the export carries [label]. *)
Definition labelOccurs (label : string) (st : State.t) : Prop :=
  ∃ img, img ∈ imagesToExport (State.exportOnlyLabeled st) (State.images st)
         ∧ getCustomLabel img = Some label.


(** ** The detector adapter ([detectObjects]) *)

Section detector.
(** Decoding a picture file: its width and height, [None] on [onerror]. *)
Variable decodeImage : File.t → option (Z * Z).

(** The [.map(pred => ...)] step: widen the box to the left and right by
    [boundingBoxPadding] percent of its width, clamp to the picture and
    capitalise the class name. *)
Definition padPrediction (boundingBoxPadding : Q) (imgWidth imgHeight : Z)
    (pred : Prediction.t) : Detection.t :=
  let padding := (Prediction.bw pred * (boundingBoxPadding / 100))%Q in
  let x := Qmax 0 (Prediction.bx pred - padding)%Q in
  let y := Qmax 0 (Prediction.by_ pred) in
  let width :=
    Qmin (Prediction.bw pred + padding * 2)%Q (inject_Z imgWidth - x)%Q in
  let height := Qmin (Prediction.bh pred) (inject_Z imgHeight - y)%Q in
  Detection.mk x y width height (capitalize (Prediction.class pred))
    (Prediction.score pred).

Definition scoreAtLeast (threshold : Q) (pred : Prediction.t) : bool :=
  Qle_bool threshold (Prediction.score pred).

Definition hasArea (det : Detection.t) : bool :=
  negb (Qle_bool (Detection.width det) 0)
  && negb (Qle_bool (Detection.height det) 0).

(** [detectObjects(imageFile, threshold)]; the model and the padding are
    read from the component's state. *)
Definition detectObjects (model : option ObjectDetection)
    (boundingBoxPadding : Q) (imageFile : File.t) (threshold : Q)
    : list Detection.t :=
  match model with
  | None => []
  | Some m =>
      match decodeImage imageFile with
      | None => []
      | Some (imgWidth, imgHeight) =>
          filter (λ det, hasArea det = true)
            (padPrediction boundingBoxPadding imgWidth imgHeight
               <$> filter (λ pred, scoreAtLeast threshold pred = true)
                     (m imageFile))
      end
  end.

(** [d.label.toLowerCase() === "person"] *)
Definition isPerson (d : Detection.t) : bool :=
  String.eqb (toLowerCase (Detection.label d)) "person".

(** The relabelling step of [handleRedetect] for one frame. *)
Definition keepActivityLabel (keepLabel : string)
    (detections : list Detection.t) : list Detection.t :=
  if truthy keepLabel
  then (λ d, if isPerson d then Detection.with_label keepLabel d else d)
         <$> detections
  else detections.

Definition redetectFrame (st : State.t) (img : ImageData.t) : ImageData.t :=
  let keepLabel := trim (default "" (ImageData.activityLabel img)) in
  let detections :=
    detectObjects (State.model st) (State.boundingBoxPadding st)
      (ImageData.file img) (State.confidenceThreshold st) in
  ImageData.with_detections (keepActivityLabel keepLabel detections) img.

(** [handleRedetect]: nothing happens without a model or without frames. *)
Definition handleRedetect (st : State.t) : State.t :=
  match State.model st with
  | None => st
  | Some _ =>
      if (length (State.images st) =? 0)%nat then st
      else State.setSelectedDetection None
             (State.setImages (redetectFrame st <$> State.images st) st)
  end.
End detector.

(** ** Quick labelling ([applyQuickLabel]) *)

(** [activityLabel = label] and every detection relabelled. *)
Definition labelFrame (label : string) (img : ImageData.t) : ImageData.t :=
  ImageData.mk (ImageData.file img) (ImageData.url img)
    (Detection.with_label label <$> ImageData.detections img)
    (ImageData.frameNumber img) (ImageData.sourceVideo img) (Some label).

(** Labels the current frame and takes it out of the marked set.  Without
    a current frame ([images[currentIndex]] undefined) nothing happens. *)
Definition applyQuickLabel (label : string) (st : State.t) : State.t :=
  let i := State.currentIndex st in
  match State.images st !! i with
  | None => st
  | Some img =>
      let st' := State.setImages (<[i := labelFrame label img]> (State.images st)) st in
      if bool_decide (i ∈ State.selectedImages st)
      then State.setSelectedImages (State.selectedImages st ∖ {[i]}) st'
      else st'
  end.

(** ** Clips ([interface ClipData], [interface ClipMarker]) *)

Module ClipFrame.
Record t : Type := mk { file : File.t; url : string; frameNumber : nat }.

(** [{ ...f, frameNumber: n }] *)
Definition with_frameNumber (n : nat) (f : t) : t := mk (file f) (url f) n.

(** The picture of a frame, whatever its number. *)
Definition picture (f : t) : File.t * string := (file f, url f).
End ClipFrame.

Module ClipData.
Record t : Type := mk
  { name : string;
    frames : list ClipFrame.t;
    sourceVideo : string;
    isManual : bool }.
End ClipData.

Module ClipMarker.
Record t : Type := mk
  { id : string; startTime : Q; endTime : Q; label : option string }.
End ClipMarker.

Definition Qlt_bool (a b : Q) : bool := negb (Qle_bool b a).

(** [Math.ceil(a / b)] for counts, [b > 0]. *)
Definition ceilDiv (a b : nat) : nat := ((a + b - 1) / b)%nat.

(** [name.replace(/\.[^/.]+$/, "")]: drop the last extension. *)
Fixpoint noDotNoSlash (s : string) : bool :=
match s with
| EmptyString => true
| String c s' =>
    negb (Ascii.eqb c ".") && negb (Ascii.eqb c "/") && noDotNoSlash s'
end.

Fixpoint stripExtension (s : string) : string :=
match s with
| EmptyString => EmptyString
| String c s' =>
    if Ascii.eqb c "." && truthy s' && noDotNoSlash s' then EmptyString
    else String c (stripExtension s')
end.

(** [s.replace(c, r)] with a string pattern: the first occurrence only. *)
Fixpoint replaceFirstChar (c : ascii) (r : string) (s : string) : string :=
match s with
| EmptyString => EmptyString
| String a s' =>
    if Ascii.eqb a c then r +:+ s' else String a (replaceFirstChar c r s')
end.

(** [q.toFixed(1)] for [q >= 0], rounding half up. *)
Definition toFixed1 (q : Q) : string :=
let tenths := Qfloor (q * 10 + (1 # 2)) in
pretty (tenths / 10)%Z +:+ "." +:+ pretty (tenths mod 10)%Z.

(** [formatTime] of the clip editor, for [seconds >= 0]. *)
Definition formatTime (seconds : Q) : string :=
let mins := Qfloor (seconds / 60) in
let secs := (seconds - 60 * inject_Z mins)%Q in
padStart 2 "0" (pretty mins) +:+ ":" +:+ padStart 4 "0" (toFixed1 secs).

Section clips.
(** Seek the video to a time, draw the frame, encode it: the blob. *)
Variable grabFrame : Q → N.
(** [URL.createObjectURL] *)
Variable createObjectURL : N → string.

(** The frame pushed for one sampling time; [frameIdx] counts from 0. *)
Definition clipFrameAt (frameIdx : nat) (time : Q) : ClipFrame.t :=
let blob := grabFrame time in
ClipFrame.mk (File.mk (padStart 5 "0" (ofNat (S frameIdx)) +:+ ".jpg") blob)
  (createObjectURL blob) (S frameIdx).

(** *** Automatic clips ([createClipsFromVideo]) *)

(** [for (frameInClip ...)] with its [break] once the time is past the
    end of the video. *)
Fixpoint clipFramesLoop (clipIdx framesPerClip : nat)
    (clipFrameInterval duration : Q) (frameInClips : list nat)
    : list ClipFrame.t :=
match frameInClips with
| [] => []
| frameInClip :: rest =>
    let globalFrameIdx := (clipIdx * framesPerClip + frameInClip)%nat in
    let currentTime := (inject_Z (Z.of_nat globalFrameIdx) * clipFrameInterval)%Q in
    if Qlt_bool duration currentTime then []
    else clipFrameAt frameInClip currentTime
           :: clipFramesLoop clipIdx framesPerClip clipFrameInterval duration rest
end.

(** [totalFrames] and [numClips] as the function computes them. *)
Definition totalFrames (duration clipFrameInterval : Q) : Z :=
Qfloor (duration / clipFrameInterval).

Definition numClips (duration clipFrameInterval : Q) (framesPerClip : nat) : nat :=
Z.to_nat (Qceiling (inject_Z (totalFrames duration clipFrameInterval)
                    / inject_Z (Z.of_nat framesPerClip))).

(** A video without a positive duration gives no clips. *)
Definition createClipsFromVideo (videoName : string) (duration : Q)
    (clipFrameInterval : Q) (framesPerClip : nat) : list ClipData.t :=
if Qle_bool duration 0 then []
else
  omap (λ clipIdx,
          let clipFrames :=
            clipFramesLoop clipIdx framesPerClip clipFrameInterval duration
              (seq 0 framesPerClip) in
          if (length clipFrames =? 0)%nat then None
          else Some (ClipData.mk (stripExtension videoName +:+ pad2 (S clipIdx))
                       clipFrames videoName false))
       (seq 0 (numClips duration clipFrameInterval framesPerClip)).

(** *** Manual clips ([extractClipsFromMarkers]) *)

(** [for (let t = startTime; t < endTime; t += frameInterval) push(t)]:
    the time is a running sum, rounded at every step.  [fuel] bounds the
    number of rounds. *)
Fixpoint frameTimesLoop (fuel : nat) (t endTime frameInterval : Q) : list Q :=
match fuel with
| O => []
| S fuel' =>
    if Qlt_bool t endTime
    then t :: frameTimesLoop fuel' (Double.add t frameInterval) endTime
                frameInterval
    else []
end.

(** The rounds granted to a marker.  While the times stay below [2^52]
    intervals a round moves the time on by at least half an interval, so
    twice the quotient of length and interval is enough for the loop to end
    by its own test.  With an interval that is not positive, or so small
    against the times that adding it is lost in the rounding, the loop of
    the source does not end; those cases are outside the model. *)
Definition frameTimes (marker : ClipMarker.t) (frameInterval : Q) : list Q :=
frameTimesLoop
  (Z.to_nat (Qceiling (2 * (ClipMarker.endTime marker - ClipMarker.startTime marker)
                       / frameInterval)))
  (ClipMarker.startTime marker) (ClipMarker.endTime marker) frameInterval.

Definition clipBaseName (markerIdx : nat) (marker : ClipMarker.t) : string :=
"clip_" +:+ padStart 3 "0" (ofNat (S markerIdx)) +:+ "_"
  +:+ replaceFirstChar ":" "-" (formatTime (ClipMarker.startTime marker)).

(** One part of a clip that is over the cap. *)
Definition clipPart (base videoName : string) (allFrames : list ClipFrame.t)
    (chunkSize chunkIdx : nat) : ClipData.t :=
let start := (chunkIdx * chunkSize)%nat in
let end_ := (start + chunkSize) `min` length allFrames in
let chunkFrames := slice start end_ allFrames in
let renumberedFrames :=
  imap (λ idx f, ClipFrame.with_frameNumber (S idx) f) chunkFrames in
ClipData.mk (base +:+ "_part" +:+ ofNat (S chunkIdx)) renumberedFrames
  videoName false.

(** The clips made of the frames of one marker: one clip, or, over the
    cap, evenly sized parts. *)
Definition clipsOfFrames (base videoName : string)
    (allFrames : list ClipFrame.t) : list ClipData.t :=
if (length allFrames <=? MAX_FRAMES_PER_CLIP)%nat
then [ClipData.mk base allFrames videoName false]
else
  let numChunks := ceilDiv (length allFrames) MAX_FRAMES_PER_CLIP in
  let chunkSize := ceilDiv (length allFrames) numChunks in
  clipPart base videoName allFrames chunkSize <$> seq 0 numChunks.

Definition markerFrames (marker : ClipMarker.t) (frameInterval : Q)
    : list ClipFrame.t :=
imap clipFrameAt (frameTimes marker frameInterval).

(** [None] stands for the refusal when no video or no marker is set. *)
Definition extractClipsFromMarkers (videoFile : option File.t)
    (markers : list ClipMarker.t) (frameInterval : Q)
    : option (list ClipData.t) :=
match videoFile with
| None => None
| Some video =>
    if (length markers =? 0)%nat then None
    else Some (mjoin (imap (λ markerIdx marker,
                 clipsOfFrames (clipBaseName markerIdx marker) (File.name video)
                   (markerFrames marker frameInterval)) markers))
end.

(** The earlier revision of the editor ([src/components/ManualClipEditor.tsx])
    keeps the first [framesPerClip] sampling times of a marker
    ([frameTimes.slice(0, framesPerClip)]) and makes one clip of them. *)
Definition limitedMarkerClip (framesPerClip markerIdx : nat)
    (marker : ClipMarker.t) (videoName : string) (frameInterval : Q)
    : ClipData.t :=
let limitedFrameTimes := take framesPerClip (frameTimes marker frameInterval) in
ClipData.mk (clipBaseName markerIdx marker) (imap clipFrameAt limitedFrameTimes)
  videoName false.
End clips.

(** ** Blur score ([detectMotionBlur]) *)

(** A canvas with a frame drawn on it: its size and the colour (red, green,
    blue) of every pixel. *)
Module Canvas.
Record t : Type := mk { width : Z; height : Z; pixel : Z → Z → Z * Z * Z }.
End Canvas.

(** [ctx.getImageData(sx, sy, sw, sh)], row by row; the source reads the
    flat array four entries at a time and ignores alpha. *)
Definition getImageData (canvas : Canvas.t) (sx sy : Z) (sw sh : nat)
    : list (Z * Z * Z) :=
row ← seq 0 sh;
col ← seq 0 sw;
[Canvas.pixel canvas (sx + Z.of_nat col)%Z (sy + Z.of_nat row)%Z].

(** [0.299 * r + 0.587 * g + 0.114 * b], from left to right; a decimal
    constant of the source is the binary64 number nearest to it. *)
Definition luma (p : Z * Z * Z) : Q :=
Double.add
  (Double.add (Double.mul (Double.round (299 # 1000)) (inject_Z p.1.1))
              (Double.mul (Double.round (587 # 1000)) (inject_Z p.1.2)))
  (Double.mul (Double.round (114 # 1000)) (inject_Z p.2)).

(** [4 * gray[idx] - gray[idx - 1] - gray[idx + 1] - gray[idx - w] - gray[idx + w]],
    from left to right. *)
Definition laplacianAt (gray : list Q) (safeWidth idx : nat) : Q :=
let g := λ i, default 0%Q (gray !! i) in
Double.sub
  (Double.sub
     (Double.sub (Double.sub (Double.mul 4 (g idx)) (g (idx - 1)%nat))
                 (g (idx + 1)%nat))
     (g (idx - safeWidth)%nat))
  (g (idx + safeWidth)%nat).

Definition safeX (detection : Detection.t) : Z :=
0 `max` Qfloor (Detection.x detection).
Definition safeY (detection : Detection.t) : Z :=
0 `max` Qfloor (Detection.y detection).
Definition safeWidth (canvas : Canvas.t) (detection : Detection.t) : Z :=
Qfloor (Detection.width detection) `min` (Canvas.width canvas - safeX detection).
Definition safeHeight (canvas : Canvas.t) (detection : Detection.t) : Z :=
Qfloor (Detection.height detection) `min` (Canvas.height canvas - safeY detection).

(** The Laplacian responses of the interior pixels, in loop order. *)
Definition laplacians (canvas : Canvas.t) (detection : Detection.t) : list Q :=
let w := Z.to_nat (safeWidth canvas detection) in
let h := Z.to_nat (safeHeight canvas detection) in
let gray := luma <$> getImageData canvas (safeX detection) (safeY detection) w h in
row ← seq 1 (h - 2);
col ← seq 1 (w - 2);
[laplacianAt gray w (row * w + col)].

(** Variance of the Laplacian over the region of a detection, as the
    source computes it, [sumSq / count - mean * mean] on running sums; 999
    for a region without area or without interior. *)
Definition detectMotionBlur (canvas : Canvas.t) (detection : Detection.t) : Q :=
if ((safeWidth canvas detection <=? 0)%Z || (safeHeight canvas detection <=? 0)%Z)
then 999%Q
else
  let ls := laplacians canvas detection in
  let count := length ls in
  if (count =? 0)%nat then 999%Q
  else
    let sum := foldl Double.add 0%Q ls in
    let sumSq := foldl (λ acc l, Double.add acc (Double.mul l l)) 0%Q ls in
    let mean := Double.div sum (inject_Z (Z.of_nat count)) in
    Double.sub (Double.div sumSq (inject_Z (Z.of_nat count)))
               (Double.mul mean mean).

(** ** Sampling a chunk of a video ([extractFramesFromChunk]) *)

Section chunks.
(** Seek to a time and draw the frame. *)
Variable videoFrame : Q → Canvas.t.
(** Upscale and sharpen. *)
Variable enhanceFrame : Canvas.t → Q → Canvas.t.
(** Encode a canvas as JPEG. *)
Variable toBlob : Canvas.t → N.
Variable decodeImage : File.t → option (Z * Z).
Variable createObjectURL : N → string.

Definition chunkFrameName (videoName : string) (frameNumber : nat) : string :=
videoName +:+ "_frame_" +:+ padStart 4 "0" (ofNat frameNumber) +:+ ".jpg".

Definition scaleBack (enhanceScale : Q) (d : Detection.t) : Detection.t :=
Detection.mk (Detection.x d / enhanceScale) (Detection.y d / enhanceScale)
  (Detection.width d / enhanceScale) (Detection.height d / enhanceScale)
  (Detection.label d) (Detection.confidence d).

(** The person boxes of one sampled frame, in the coordinates of the
    frame as drawn. *)
Definition personDetections (st : State.t) (videoName : string)
    (frameNumber : nat) (canvas : Canvas.t) : list Detection.t :=
let enhance := State.enhanceVideo st && Qlt_bool 1 (State.enhanceScale st) in
let detectionCanvas :=
  if enhance then enhanceFrame canvas (State.enhanceScale st) else canvas in
let frameFile :=
  File.mk (chunkFrameName videoName frameNumber) (toBlob detectionCanvas) in
let detections :=
  detectObjects decodeImage (State.model st) (State.boundingBoxPadding st)
    frameFile (State.confidenceThreshold st) in
let scaledDetections :=
  if enhance then scaleBack (State.enhanceScale st) <$> detections
  else detections in
filter (λ d, isPerson d = true) scaledDetections.

(** [allBlurry] after the loop over the person boxes: the loop leaves at
    the first box whose score reaches the threshold. *)
Fixpoint allBlurry (canvas : Canvas.t) (blurThreshold : Q)
    (detections : list Detection.t) : bool :=
match detections with
| [] => true
| detection :: rest =>
    if Qle_bool blurThreshold (detectMotionBlur canvas detection) then false
    else allBlurry canvas blurThreshold rest
end.

(** One sampled frame: kept when a person was found, and then marked as
    blurry or not. *)
Definition chunkStep (st : State.t) (videoName : string)
    (acc : list ImageData.t * list nat) (frameNumber : nat)
    (canvas : Canvas.t) : list ImageData.t * list nat :=
let persons := personDetections st videoName frameNumber canvas in
if (0 <? length persons)%nat then
  let storageBlob := toBlob canvas in
  let currentFrameIndex := length acc.1 in
  let blurryIndices :=
    if State.filterMotionBlur st
       && allBlurry canvas (State.blurThreshold st) persons
    then (acc.2 ++ [currentFrameIndex])%list else acc.2 in
  ((acc.1 ++ [ImageData.mk
                (File.mk (chunkFrameName videoName frameNumber) storageBlob)
                (createObjectURL storageBlob) persons (Some frameNumber)
                (Some videoName) None])%list,
   blurryIndices)
else acc.

(** [for (let i = 0; i <= chunkFrames; i++)] with its [break]. *)
Fixpoint chunkLoop (st : State.t) (videoName : string)
    (startTime endTime : Q) (globalFrameOffset : nat) (indices : list nat)
    (acc : list ImageData.t * list nat) : list ImageData.t * list nat :=
match indices with
| [] => acc
| i :: rest =>
    let currentTime :=
      (startTime + inject_Z (Z.of_nat i) * State.frameInterval st)%Q in
    if Qlt_bool endTime currentTime then acc
    else chunkLoop st videoName startTime endTime globalFrameOffset rest
           (chunkStep st videoName acc (globalFrameOffset + i)%nat
              (videoFrame currentTime))
end.

(** Returns [frames] and [blurryIndices]. *)
Definition extractFramesFromChunk (st : State.t) (videoName : string)
    (startTime endTime : Q) (globalFrameOffset : nat)
    : list ImageData.t * list nat :=
let chunkFrames := Qfloor ((endTime - startTime) / State.frameInterval st) in
chunkLoop st videoName startTime endTime globalFrameOffset
  (seq 0 (Z.to_nat (chunkFrames + 1))) ([], []).

(** What the loop maintains: every marked index is the index of a kept
    frame; and a kept frame, sampled as number [globalFrameOffset + i], is
    the picture of the canvas at its sampling time, holds the person boxes
    found on that canvas, at least one, and is marked exactly when the
    filter is on and all of them score below the threshold on that
    canvas. *)
Definition chunkInv (st : State.t) (videoName : string) (startTime : Q)
    (globalFrameOffset : nat) (acc : list ImageData.t * list nat) : Prop :=
Forall (λ j, (j < length acc.1)%nat) acc.2
∧ ∀ j frame,
    acc.1 !! j = Some frame →
    ∃ i : nat,
      let canvas :=
        videoFrame (startTime + inject_Z (Z.of_nat i) * State.frameInterval st)%Q in
      ImageData.frameNumber frame = Some (globalFrameOffset + i)%nat
      ∧ ImageData.sourceVideo frame = Some videoName
      ∧ File.blob (ImageData.file frame) = toBlob canvas
      ∧ ImageData.detections frame
        = personDetections st videoName (globalFrameOffset + i) canvas
      ∧ ImageData.detections frame ≠ []
      ∧ (j ∈ acc.2 ↔
         State.filterMotionBlur st = true
         ∧ Forall (λ d, (detectMotionBlur canvas d < State.blurThreshold st)%Q)
             (ImageData.detections frame)).

(** *** A whole video, chunk by chunk ([extractFramesFromVideo]) *)

(** [allFrames.push(...result.frames)] and
    [allBlurryIndices.push(...result.blurryIndices.map(i => baseIndex + i))] *)
Definition appendMarked (acc result : list ImageData.t * list nat)
    : list ImageData.t * list nat :=
let baseIndex := length acc.1 in
((acc.1 ++ result.1)%list, (acc.2 ++ ((λ i, (baseIndex + i)%nat) <$> result.2))%list).
End chunks.

(** A video file: its name, its duration and the frame it shows at each
    time. *)
Module Video.
Record t : Type := mk { name : string; duration : Q; frameAt : Q → Canvas.t }.
End Video.

Section loading.
Variable enhanceFrame : Canvas.t → Q → Canvas.t.
Variable toBlob : Canvas.t → N.
Variable decodeImage : File.t → option (Z * Z).
Variable createObjectURL : N → string.
(** The picture behind a URL drawn on a canvas of its size; [None] when
    loading fails ([ctx && img.width > 0] is false). *)
Variable loadCanvas : string → option Canvas.t.

(** One round of [for (chunkIndex ...)]. *)
Definition videoChunk (st : State.t) (video : Video.t) (chunkIndex : nat)
    : list ImageData.t * list nat :=
let CHUNK_DURATION := (State.chunkDuration st * 60)%Q in
let startTime := (inject_Z (Z.of_nat chunkIndex) * CHUNK_DURATION)%Q in
let endTime :=
  Qmin (inject_Z (Z.of_nat (chunkIndex + 1)) * CHUNK_DURATION)%Q
       (Video.duration video) in
let globalFrameOffset := Z.to_nat (Qfloor (startTime / State.frameInterval st)) in
extractFramesFromChunk (Video.frameAt video) enhanceFrame toBlob decodeImage
  createObjectURL st (Video.name video) startTime endTime globalFrameOffset.

(** The frames of a video and the indices of the blurry ones; nothing for
    a video without a positive duration. *)
Definition extractFramesFromVideo (st : State.t) (video : Video.t)
    : list ImageData.t * list nat :=
if Qle_bool (Video.duration video) 0 then ([], [])
else
  let CHUNK_DURATION := (State.chunkDuration st * 60)%Q in
  let totalChunks := Z.to_nat (Qceiling (Video.duration video / CHUNK_DURATION)) in
  foldl (λ acc chunkIndex, appendMarked acc (videoChunk st video chunkIndex))
        ([], []) (seq 0 totalChunks).

(** [handleVideoUpload]: the frames of all files become the store and the
    blurry ones the marked set.  The frames shown while chunks are still
    being sampled are replaced by this final state. *)
Definition handleVideoUpload (st : State.t) (files : list Video.t) : State.t :=
if (length files =? 0)%nat then st
else
  match State.model st with
  | None => st
  | Some _ =>
      let r := foldl (λ acc file, appendMarked acc (extractFramesFromVideo st file))
                 ([], []) files in
      State.setSelectedDetection None
        (State.setCurrentIndex 0
           (State.setSelectedImages (list_to_set r.2)
              (State.setImages r.1 st)))
  end.

(** *** Clips into the annotator ([handleLoadClipsToAnnotator]) *)

(** The blur check on the picture of a clip frame. *)
Definition clipFrameBlurry (st : State.t) (url : string)
    (persons : list Detection.t) : bool :=
match loadCanvas url with
| Some canvas => allBlurry canvas (State.blurThreshold st) persons
| None => false
end.

(** One frame of one clip: frames of manual clips are always kept, frames
    of automatic clips only with a person on them. *)
Definition loadClipFrame (st : State.t) (clip : ClipData.t)
    (acc : list ImageData.t * list nat) (frame : ClipFrame.t)
    : list ImageData.t * list nat :=
let detections :=
  detectObjects decodeImage (State.model st) (State.boundingBoxPadding st)
    (ClipFrame.file frame) (State.confidenceThreshold st) in
let persons := filter (λ d, isPerson d = true) detections in
let currentFrameIndex := length acc.1 in
let kept :=
  ImageData.mk (ClipFrame.file frame) (ClipFrame.url frame) persons
    (Some (ClipFrame.frameNumber frame)) (Some (ClipData.name clip)) None in
if ClipData.isManual clip then
  ((acc.1 ++ [kept])%list,
   if State.filterMotionBlur st && (0 <? length persons)%nat
      && clipFrameBlurry st (ClipFrame.url frame) persons
   then (acc.2 ++ [currentFrameIndex])%list else acc.2)
else if (0 <? length persons)%nat then
  ((acc.1 ++ [kept])%list,
   if State.filterMotionBlur st
      && clipFrameBlurry st (ClipFrame.url frame) persons
   then (acc.2 ++ [currentFrameIndex])%list else acc.2)
else acc.

Definition handleLoadClipsToAnnotator (st : State.t) (clips : list ClipData.t)
    : State.t :=
if (length clips =? 0)%nat then st
else
  match State.model st with
  | None => st
  | Some _ =>
      let r := foldl (λ acc clip,
                        foldl (loadClipFrame st clip) acc (ClipData.frames clip))
                 ([], []) clips in
      State.setSelectedDetection None
        (State.setCurrentIndex 0
           (State.setSelectedImages (list_to_set r.2)
              (State.setImages r.1 st)))
  end.

(** What the store promises about a frame sampled from one of [files]:
    it is the picture of some frame of its video, has a person box, and its
    mark tells that the filter is on and all boxes are blurred there. *)
Definition videoMarkRule (st : State.t) (files : list Video.t)
    (frame : ImageData.t) (isMarked : Prop) : Prop :=
∃ video t,
  video ∈ files
  ∧ ImageData.sourceVideo frame = Some (Video.name video)
  ∧ File.blob (ImageData.file frame) = toBlob (Video.frameAt video t)
  ∧ ImageData.detections frame ≠ []
  ∧ (isMarked ↔
     State.filterMotionBlur st = true
     ∧ Forall (λ d, (detectMotionBlur (Video.frameAt video t) d
                     < State.blurThreshold st)%Q)
         (ImageData.detections frame)).

(** The same for a frame that came from a clip: marked exactly when the
    filter is on, there is a person box, the picture could be loaded and
    all boxes are blurred on it. *)
Definition clipMarkRule (st : State.t) (frame : ImageData.t)
    (isMarked : Prop) : Prop :=
isMarked ↔
State.filterMotionBlur st = true
∧ ImageData.detections frame ≠ []
∧ ∃ canvas,
    loadCanvas (ImageData.url frame) = Some canvas
    ∧ Forall (λ d, (detectMotionBlur canvas d < State.blurThreshold st)%Q)
        (ImageData.detections frame).
End loading.

(** Frames with some of their indices marked: every marked index is the
    index of a frame, and for every frame [R] relates the frame with the
    fact that its index is marked. *)
Definition marking (R : ImageData.t → Prop → Prop)
    (r : list ImageData.t * list nat) : Prop :=
Forall (λ j, (j < length r.1)%nat) r.2
∧ ∀ j frame, r.1 !! j = Some frame → R frame (j ∈ r.2).

(** ** Concrete scenarios used to exercise the statements *)

Module Scenario.
(** Byte-wise comparison as the collation order. *)
Definition localeCompare (a b : string) : Z :=
  match String.compare a b with Lt => (-1)%Z | Eq => 0%Z | Gt => 1%Z end.

Definition fetchBlob (u : string) : option N := Some 0%N.
Definition imageSize (u : string) : option (Z * Z) := Some (640, 480)%Z.

(** The text V8 prints for a native method; the method behind
    [constructor] is called [Object]. *)
Definition functionText (name : string) : string :=
  "function " +:+ (if String.eqb name "constructor" then "Object" else name)
    +:+ "() { [native code] }".

Definition person : Detection.t :=
  Detection.mk 10 20 100 200 "Person" (9 # 10).

Definition frame (n : nat) (clip : string) (lbl : option string)
    (ds : list Detection.t) : ImageData.t :=
  ImageData.mk (File.mk (padStart 5 "0" (ofNat n) +:+ ".jpg") (N.of_nat n))
    ("blob:" +:+ clip +:+ "/" +:+ ofNat n) ds (Some n) (Some clip) lbl.

Definition state (imgs : list ImageData.t) (counters : gmap string Counter.t)
    : State.t :=
  State.mk imgs 0 None ∅ None (1 # 2) 15 1 10 true 100 false 2 true counters.

(** Three frames of one clip labelled Welding, one unlabelled frame. *)
Definition welding : State.t :=
  state [ frame 1 "a01" (Some "Welding") [person];
          frame 2 "a01" (Some "Welding") [person];
          frame 1 "b01" (Some "Welding") [];
          frame 2 "b01" None [person] ] ∅.

Definition theZip (o : ExportOutcome) : Zip.t :=
  match o with Exported zip _ _ => zip | NothingToExport _ => Zip.mk [] [] end.

(** Exporting [welding] twice in a row. *)
Definition export1 : State.t * ExportOutcome :=
  handleExportAnnotatedClips localeCompare fetchBlob imageSize functionText
    welding.
Definition export2 : State.t * ExportOutcome :=
  handleExportAnnotatedClips localeCompare fetchBlob imageSize functionText
    export1.1.

(** One frame under the label [constructor], nothing on record. *)
Definition inherited : State.t :=
  state [ frame 1 "a01" (Some "constructor") [person] ] ∅.

(** Everything is exported: two frames without a label in one clip, one of
    them with a picture that cannot be fetched, and a labelled frame. *)
Definition fetchSome (u : string) : option N :=
  if String.eqb u "blob:a01/2" then None else Some 7%N.
Definition everything : State.t :=
  State.mk [ frame 1 "a01" None [person];
             frame 2 "a01" None [person];
             frame 3 "a01" (Some "Welding") [person] ]
    0 None ∅ None (1 # 2) 15 1 10 true 100 false 2 false ∅.
Definition exportEverything : State.t * ExportOutcome :=
  handleExportAnnotatedClips localeCompare fetchSome imageSize functionText
    everything.

(** Only an unlabelled frame, with a counter already on record. *)
Definition nothingLabelled : State.t :=
  state [ frame 1 "a01" None [person] ] {[ "Welding" := Counter.number 3 ]}.

(** A frame whose detections carry a detector class and a custom label. *)
Definition mixed : ImageData.t :=
  frame 1 "a01" None
    [ person; Detection.mk 0 0 5 5 " BOOK " 1; Detection.mk 0 0 5 5 "Welding" 1 ].

(** The second frame is current and marked for review. *)
Definition marked : State.t :=
  State.mk [ frame 1 "a01" None [person]; frame 2 "a01" None [person; person] ]
    1 None {[ 0%nat; 1%nat ]} None (1 # 2) 15 1 10 true 100 false 2 true ∅.

(** A 640 x 480 picture and a detector that reports one person sticking
out of the right edge, one bicycle, and one candidate below threshold. *)
Definition decodeImage (f : File.t) : option (Z * Z) := Some (640, 480)%Z.
Definition detector : ObjectDetection :=
λ _, [ Prediction.mk 600 (-5) 100 500 "person" (9 # 10);
       Prediction.mk 10 10 50 50 "bicycle" (8 # 10);
       Prediction.mk 10 10 50 50 "person" (1 # 10) ].

(** Two labelled frames: one label ends in a blank, one is only a blank. *)
Definition spaced : State.t :=
State.mk [ frame 1 "a01" (Some "Welding ") [];
           frame 2 "a01" (Some " ") [] ]
  0 None ∅ (Some detector) (1 # 2) 15 1 10 true 100 false 2 true ∅.

(** One frame under a preset label that contains a slash. *)
Definition slashed : State.t :=
state [ frame 1 "a01" (Some "Putzen/Nacharbeiten") [person] ] ∅.
Definition exportSlashed : State.t * ExportOutcome :=
handleExportAnnotatedClips localeCompare fetchBlob imageSize functionText slashed.

(** The blob of a grabbed frame tells its time in whole seconds. *)
Definition grabFrame (t : Q) : N := Z.to_N (Qfloor t).
Definition createObjectURL (b : N) : string := "blob:" +:+ pretty b.

(** A video of 130 seconds, one frame per second, 32 frames per clip. *)
Definition clips130 : list ClipData.t :=
createClipsFromVideo grabFrame createObjectURL "work.mp4" 130 1 32.

(** A 4 x 3 picture: a checkerboard during the first second, flat grey
    afterwards. *)
Definition videoFrame (t : Q) : Canvas.t :=
Canvas.mk 4 3
  (λ x y, if Qlt_bool t 1
          then (if Z.even (x + y) then (255, 255, 255) else (0, 0, 0))%Z
          else (128, 128, 128)%Z).
Definition enhanceFrame (c : Canvas.t) (scale : Q) : Canvas.t := c.
Definition toBlob (c : Canvas.t) : N := Z.to_N (fst (fst (Canvas.pixel c 0 0)))%Z.
Definition decodeSmall (f : File.t) : option (Z * Z) := Some (4, 3)%Z.
Definition wholeFrame : ObjectDetection :=
λ _, [ Prediction.mk 0 0 4 3 "person" (9 # 10) ].

(** Sampling settings: one frame per second, blur threshold 100. *)
Definition sampling : State.t :=
State.mk [] 0 None ∅ (Some wholeFrame) (1 # 2) 0 1 10 true 100 false 2 true ∅.
Definition chunk : list ImageData.t * list nat :=
extractFramesFromChunk videoFrame enhanceFrame toBlob decodeSmall
  createObjectURL sampling "v.mp4" 0 2 0.

(** A picture of 8 x 3 pixels: flat grey on the left half, a checkerboard
    on the right half; and a detector that finds a person on the left half
    and a bicycle on the right half. *)
Definition halves : Canvas.t :=
Canvas.mk 8 3
  (λ x y, if (x <? 4)%Z then (128, 128, 128)%Z
          else if Z.even (x + y) then (255, 255, 255)%Z else (0, 0, 0)%Z).
Definition decodeHalves (f : File.t) : option (Z * Z) := Some (8, 3)%Z.
Definition personAndBicycle : ObjectDetection :=
λ _, [ Prediction.mk 4 0 4 3 "bicycle" (9 # 10);
       Prediction.mk 0 0 4 3 "person" (9 # 10) ].
Definition samplingHalves : State.t :=
State.mk [] 0 None ∅ (Some personAndBicycle) (1 # 2) 0 1 10 true 100 false 2
  true ∅.
Definition chunkHalves : list ImageData.t * list nat :=
extractFramesFromChunk (λ _, halves) enhanceFrame toBlob decodeHalves
  createObjectURL samplingHalves "v.mp4" 0 0 0.

(** Clips to load into the annotator: a manual clip of four frames (a
    sharp picture, a flat one, one whose picture cannot be loaded, one on
    which the detector finds nobody) and an automatic clip of two frames
    (the flat picture, and one on which the detector finds nobody). *)
Definition personUnlessEmpty : ObjectDetection :=
λ f, if String.eqb (File.name f) "empty.jpg" then []
     else [ Prediction.mk 0 0 4 3 "person" (9 # 10) ].
Definition loadCanvas (url : string) : option Canvas.t :=
if String.eqb url "blob:sharp" then Some (videoFrame 0)
else if String.eqb url "blob:flat" then Some (videoFrame 1)
else None.
Definition manualClip : ClipData.t :=
ClipData.mk "clip_001"
  [ ClipFrame.mk (File.mk "sharp.jpg" 1) "blob:sharp" 1;
    ClipFrame.mk (File.mk "flat.jpg" 2) "blob:flat" 2;
    ClipFrame.mk (File.mk "gone.jpg" 3) "blob:gone" 3;
    ClipFrame.mk (File.mk "empty.jpg" 4) "blob:sharp" 4 ]
  "v.mp4" true.
Definition automaticClip : ClipData.t :=
ClipData.mk "auto_001"
  [ ClipFrame.mk (File.mk "flat.jpg" 2) "blob:flat" 1;
    ClipFrame.mk (File.mk "empty.jpg" 4) "blob:sharp" 2 ]
  "v.mp4" false.
Definition loading : State.t :=
State.mk [] 0 None ∅ (Some personUnlessEmpty) (1 # 2) 0 1 10 true 100 false 2
  true ∅.
Definition loaded : State.t :=
handleLoadClipsToAnnotator decodeSmall loadCanvas loading
  [manualClip; automaticClip].

(** A picture of 4 x 3 pixels, white at six places and black elsewhere.
    Its two inner pixels have the Laplacians 4 * 255 - 255 = 765 (white,
    with a white pixel above) and - 3 * 255 = - 765 (black, with white to
    the left, to the right and below): mean 0, variance 765 * 765. *)
Definition speckled : Canvas.t :=
Canvas.mk 4 3
  (λ x y, if bool_decide ((x, y) ∈ [(0, 0); (1, 0); (3, 0); (1, 1); (3, 1); (2, 2)]%Z)
          then (255, 255, 255)%Z else (0, 0, 0)%Z).

(** A marker from 0.001 s to 4.001 s, as typed into the two time fields:
    in exact arithmetic 8 samples at half a second fit, the running sum of
    the source fits a ninth. *)
Definition offGrid : ClipMarker.t :=
ClipMarker.mk "m1" (Double.round (1 # 1000)) (Double.round (4001 # 1000)) None.

(** A marker of 401 seconds, sampled every second. *)
Definition longMarker : ClipMarker.t := ClipMarker.mk "m1" 0 401 None.
Definition longClip : list ClipFrame.t :=
markerFrames grabFrame createObjectURL longMarker 1.
End Scenario.

(** ** Vocabulary for further properties of the exporter *)

(** [img.frameNumber ?? 0] *)
Definition frameNo (img : ImageData.t) : nat :=
default 0%nat (ImageData.frameNumber img).

(** The number of frames a grouping holds. *)
Definition frameCount (byClip : ByClip) : nat :=
sum_list (length ∘ snd <$> byClip).

Definition labelledCount (byLabel : ByLabel) : nat :=
sum_list (frameCount ∘ snd <$> byLabel).

(** The characters [toSafePathSegment] is there to remove. *)
Definition unsafePathChars : list ascii :=
[ "\"; "/"; ":"; "*"; "?"; dquote; "<"; ">"; "|" ]%char.

Fixpoint chars (s : string) : list ascii :=
match s with
| EmptyString => []
| String c s' => c :: chars s'
end.

(** The frames of a grouping, each with the label and the clip key it is
    filed under. *)
Definition clipFramesOf (label : string) (byClip : ByClip)
    : list (string * string * ImageData.t) :=
byClip ≫= λ kf, (λ img, (label, kf.1, img)) <$> kf.2.

Definition groupedFrames (byLabel : ByLabel)
    : list (string * string * ImageData.t) :=
byLabel ≫= λ lc, clipFramesOf lc.1 lc.2.

(** Frames by number, as [sortFrames] leaves them. *)
Definition byFrameNo : relation ImageData.t := λ a b, (frameNo a ≤ frameNo b)%nat.

(** A run of frames as the export loop cuts it. *)
Definition goodChunk (chunk : list ImageData.t) : Prop :=
(0 < length chunk ≤ MAX_FRAMES_PER_CLIP)%nat ∧ StronglySorted byFrameNo chunk.

(** ** Walking through the frames ([handleNext], [handlePrevious]) *)

Definition handleNext (st : State.t) : State.t :=
if (S (State.currentIndex st) <? length (State.images st))%nat
then State.setSelectedDetection None
       (State.setCurrentIndex (State.currentIndex st + 1)%nat st)
else st.

Definition handlePrevious (st : State.t) : State.t :=
if (0 <? State.currentIndex st)%nat
then State.setSelectedDetection None
       (State.setCurrentIndex (State.currentIndex st - 1)%nat st)
else st.

(** ** The marked set ([selectedImages]) and its buttons *)

(** "Markieren" / "Demarkieren": the current index enters or leaves the
    set. *)
Definition toggleMarked (st : State.t) : State.t :=
let i := State.currentIndex st in
if bool_decide (i ∈ State.selectedImages st)
then State.setSelectedImages (State.selectedImages st ∖ {[i]}) st
else State.setSelectedImages (State.selectedImages st ∪ {[i]}) st.

(** The space bar does the same, but only while there are frames. *)
Definition spaceKey (st : State.t) : State.t :=
if (0 <? length (State.images st))%nat then toggleMarked st else st.

(** "Alle": [images.forEach((_, idx) => allSelected.add(idx))] *)
Definition markAll (st : State.t) : State.t :=
State.setSelectedImages (list_to_set (seq 0 (length (State.images st)))) st.

(** "Keine" *)
Definition markNone (st : State.t) : State.t := State.setSelectedImages ∅ st.

(** A range typed into two number fields: [parseInt(value) - 1] for each
    ([None] is NaN), then the test of the handlers.  The result is the
    zero-based range, or [None] when the handler refuses it. *)
Definition parseRange (fromInput toInput : option Z) (st : State.t)
    : option (nat * nat) :=
match fromInput, toInput with
| Some f, Some t =>
    let from := (f - 1)%Z in
    let to := (t - 1)%Z in
    if (from <? 0)%Z || (Z.of_nat (length (State.images st)) <=? to)%Z
       || (to <? from)%Z
    then None
    else Some (Z.to_nat from, Z.to_nat to)
| _, _ => None
end.

(** "Bereich": [for (let i = from; i <= to; i++) newSelection.add(i)] *)
Definition markRange (fromInput toInput : option Z) (st : State.t) : State.t :=
match parseRange fromInput toInput st with
| None => st
| Some (from, to) =>
    State.setSelectedImages
      (foldl (λ newSelection i, newSelection ∪ {[i]}) (State.selectedImages st)
         (seq from (S to - from)))
      st
end.

(** [images.filter((_, idx) => !selectedImages.has(idx))] *)
Definition unmarkedFrames (selectedImages : gset nat) (images : list ImageData.t)
    : list ImageData.t :=
snd <$> filter (λ p, p.1 ∉ selectedImages) (imap pair images).

(** "markierte löschen" *)
Definition deleteMarked (st : State.t) : State.t :=
if (size (State.selectedImages st) =? 0)%nat then st
else
  let newImages := unmarkedFrames (State.selectedImages st) (State.images st) in
  let st1 := State.setImages newImages st in
  let st2 :=
    if (length newImages <=? State.currentIndex st)%nat
    then State.setCurrentIndex (0 `max` (length newImages - 1))%nat st1
    else st1 in
  State.setSelectedImages ∅ (State.setSelectedDetection None st2).

(** ** Labelling a range of frames ("Bereich labeln") *)

Section batch.
Variable decodeImage : File.t → option (Z * Z).

(** Body of [for (let i = from; i <= to; i++)]: a frame without boxes is
    run through the detector when there is one and keeps the person boxes,
    renamed; the boxes of any other frame are renamed. *)
Definition batchLabelFrame (st : State.t) (label : string) (img : ImageData.t)
    : ImageData.t :=
let detections :=
  if (length (ImageData.detections img) =? 0)%nat && bool_decide (is_Some (State.model st))
  then Detection.with_label label
         <$> filter (λ d, isPerson d = true)
               (detectObjects decodeImage (State.model st)
                  (State.boundingBoxPadding st) (ImageData.file img)
                  (State.confidenceThreshold st))
  else Detection.with_label label <$> ImageData.detections img in
ImageData.mk (ImageData.file img) (ImageData.url img) detections
  (ImageData.frameNumber img) (ImageData.sourceVideo img) (Some label).

(** The click handler: refuses a range that does not parse, an empty
    label and a range outside the frames. *)
Definition batchLabel (fromInput toInput : option Z) (label : string)
    (st : State.t) : State.t :=
match fromInput, toInput with
| Some _, Some _ =>
    if negb (truthy label) then st
    else
      match parseRange fromInput toInput st with
      | None => st
      | Some (from, to) =>
          State.setImages
            (imap (λ i img,
                     if (from <=? i)%nat && (i <=? to)%nat
                     then batchLabelFrame st label img else img)
               (State.images st))
            st
      end
| _, _ => st
end.
End batch.

(** ** Labelling one box (quick-label buttons, the label editor) *)

(** [newImages[currentIndex].activityLabel = label;
     newImages[currentIndex].detections[idx].label = label; setImages(newImages)].
    The frame objects are shared with the store, so when the box does not
    exist the second line throws after the first has already changed the
    frame; without a current frame the first line throws and nothing
    changes. *)
Definition labelDetection (idx : nat) (label : string) (st : State.t) : State.t :=
let i := State.currentIndex st in
match State.images st !! i with
| None => st
| Some img =>
    let detections :=
      match ImageData.detections img !! idx with
      | None => ImageData.detections img
      | Some d => <[idx := Detection.with_label label d]> (ImageData.detections img)
      end in
    State.setImages
      (<[i := ImageData.mk (ImageData.file img) (ImageData.url img) detections
                (ImageData.frameNumber img) (ImageData.sourceVideo img)
                (Some label)]> (State.images st))
      st
end.

(** The quick-label buttons act on the selected box. *)
Definition quickLabelSelected (label : string) (st : State.t) : State.t :=
match State.selectedDetection st with
| Some idx => labelDetection idx label st
| None => st
end.

(** ** Deleting a box ([handleDeleteDetection]) *)

(** [detections.splice(idx, 1)] on the current frame; without a current
    frame the handler throws before it changes anything. *)
Definition handleDeleteDetection (idx : nat) (st : State.t) : State.t :=
let i := State.currentIndex st in
match State.images st !! i with
| None => st
| Some img =>
    State.setSelectedDetection None
      (State.setImages
         (<[i := ImageData.with_detections (delete idx (ImageData.detections img)) img]>
            (State.images st))
         st)
end.

(** ** The list of activity labels *)

Definition defaultActivityLabels : list string :=
[ "MAG-Schweißen"; "Putzen/Nacharbeiten"; "Winkelschleifer"; "Transport";
  "Zwischenkontrolle" ].

(** [[...defaultActivityLabels, ...customActivityLabels]] *)
Definition activityLabels (customActivityLabels : list string) : list string :=
(defaultActivityLabels ++ customActivityLabels)%list.

(** Enter or "+" on the field: returns the custom labels and the field. *)
Definition addCustomLabel (newCustomLabel : string)
    (customActivityLabels : list string) : list string * string :=
if truthy (trim newCustomLabel) then
  (if bool_decide (trim newCustomLabel ∈ activityLabels customActivityLabels)
   then customActivityLabels
   else (customActivityLabels ++ [trim newCustomLabel])%list, "")
else (customActivityLabels, newCustomLabel).

(** [prev.filter((_, i) => i !== idx)] *)
Definition removeCustomLabel (idx : nat) (customActivityLabels : list string)
    : list string :=
delete idx customActivityLabels.

(** ** Boxes under the pointer: selecting, moving, resizing, drawing *)

Module ResizeHandle.
Inductive t : Type := nw | n | ne | e | se | s | sw | w | move.
End ResizeHandle.

Module Resizing.
Record t : Type := mk
  { handle : ResizeHandle.t;
    startX : Q;
    startY : Q;
    originalDetection : Detection.t }.
End Resizing.

Module Box.
Record t : Type := mk { x : Q; y : Q; width : Q; height : Q }.
End Box.

(** The pointer part of the component's state. *)
Module Pointer.
Record t : Type := mk
  { resizing : option Resizing.t;
    previewDetection : option Detection.t;
    isDrawingBox : bool;
    drawingStart : option (Q * Q);
    drawingPreview : option Box.t }.

Definition idle : t := mk None None false None None.
End Pointer.

Definition handleRadius : Q := 25.

(** [Math.sqrt(Math.pow(x - cx, 2) + Math.pow(y - cy, 2)) < handleRadius];
    on exact numbers the roots compare as the squares do. *)
Definition nearCorner (x y cx cy : Q) : bool :=
Qlt_bool ((x - cx) * (x - cx) + (y - cy) * (y - cy)) (handleRadius * handleRadius).

(** [x >= d.x && x <= d.x + d.width && y >= d.y && y <= d.y + d.height] *)
Definition insideBox (x y : Q) (d : Detection.t) : bool :=
Qle_bool (Detection.x d) x && Qle_bool x (Detection.x d + Detection.width d)
&& Qle_bool (Detection.y d) y && Qle_bool y (Detection.y d + Detection.height d).

Definition getHandleAtPosition (x y : Q) (detection : Detection.t)
    : option ResizeHandle.t :=
let dx := Detection.x detection in
let dy := Detection.y detection in
let width := Detection.width detection in
let height := Detection.height detection in
if nearCorner x y dx dy then Some ResizeHandle.nw
else if nearCorner x y (dx + width) dy then Some ResizeHandle.ne
else if nearCorner x y (dx + width) (dy + height) then Some ResizeHandle.se
else if nearCorner x y dx (dy + height) then Some ResizeHandle.sw
else if insideBox x y detection then Some ResizeHandle.move
else None.

(** [for (let i = detections.length - 1; i >= 0; i--)]: the indices below
    [i] are still to be tried, from the top. *)
Fixpoint boxUnder (x y : Q) (detections : list Detection.t) (i : nat)
    : option (nat * Detection.t) :=
match i with
| O => None
| S i' =>
    match detections !! i' with
    | Some detection =>
        if insideBox x y detection then Some (i', detection)
        else boxUnder x y detections i'
    | None => boxUnder x y detections i'
    end
end.

(** The handlers below are the canvas's own, so the canvas exists when
    they run; [x] and [y] are the pointer in picture coordinates.  A handler
    that throws leaves the state as it was. *)
Definition handleCanvasMouseDown (x y : Q) (sp : State.t * Pointer.t)
    : State.t * Pointer.t :=
let st := sp.1 in
let ptr := sp.2 in
match State.images st !! State.currentIndex st with
| None => sp
| Some currentImage =>
    let grab handle detection :=
      Pointer.mk (Some (Resizing.mk handle x y detection))
        (Pointer.previewDetection ptr) (Pointer.isDrawingBox ptr)
        (Pointer.drawingStart ptr) (Pointer.drawingPreview ptr) in
    let elsewhere :=
      match boxUnder x y (ImageData.detections currentImage)
              (length (ImageData.detections currentImage)) with
      | Some (i, detection) =>
          (State.setSelectedDetection (Some i) st, grab ResizeHandle.move detection)
      | None =>
          (State.setSelectedDetection None st,
           Pointer.mk (Pointer.resizing ptr) (Pointer.previewDetection ptr) true
             (Some (x, y)) (Some (Box.mk x y 0 0)))
      end in
    match State.selectedDetection st with
    | Some selected =>
        match ImageData.detections currentImage !! selected with
        | None => sp
        | Some detection =>
            match getHandleAtPosition x y detection with
            | Some handle => (st, grab handle detection)
            | None => elsewhere
            end
        end
    | None => elsewhere
    end
end.

(** The [switch (resizing.handle)] with the minimum size after it. *)
Definition resized (handle : ResizeHandle.t) (dx dy : Q) (orig : Detection.t)
    : Detection.t :=
let moved :=
  match handle with
  | ResizeHandle.move =>
      Detection.mk (Qmax 0 (Detection.x orig + dx)) (Qmax 0 (Detection.y orig + dy))
        (Detection.width orig) (Detection.height orig)
        (Detection.label orig) (Detection.confidence orig)
  | ResizeHandle.nw =>
      Detection.mk (Qmax 0 (Detection.x orig + dx)) (Qmax 0 (Detection.y orig + dy))
        (Detection.width orig - dx) (Detection.height orig - dy)
        (Detection.label orig) (Detection.confidence orig)
  | ResizeHandle.ne =>
      Detection.mk (Detection.x orig) (Qmax 0 (Detection.y orig + dy))
        (Detection.width orig + dx) (Detection.height orig - dy)
        (Detection.label orig) (Detection.confidence orig)
  | ResizeHandle.se =>
      Detection.mk (Detection.x orig) (Detection.y orig)
        (Detection.width orig + dx) (Detection.height orig + dy)
        (Detection.label orig) (Detection.confidence orig)
  | ResizeHandle.sw =>
      Detection.mk (Qmax 0 (Detection.x orig + dx)) (Detection.y orig)
        (Detection.width orig - dx) (Detection.height orig + dy)
        (Detection.label orig) (Detection.confidence orig)
  | _ => orig
  end in
Detection.mk (Detection.x moved) (Detection.y moved)
  (if Qlt_bool (Detection.width moved) 20 then 20 else Detection.width moved)
  (if Qlt_bool (Detection.height moved) 20 then 20 else Detection.height moved)
  (Detection.label moved) (Detection.confidence moved).

Definition handleCanvasMouseMove (x y : Q) (sp : State.t * Pointer.t)
    : State.t * Pointer.t :=
let st := sp.1 in
let ptr := sp.2 in
match Pointer.isDrawingBox ptr, Pointer.drawingStart ptr with
| true, Some drawingStart =>
    let newX := Qmin drawingStart.1 x in
    let newY := Qmin drawingStart.2 y in
    let width := Qabs (x - drawingStart.1) in
    let height := Qabs (y - drawingStart.2) in
    (st, Pointer.mk (Pointer.resizing ptr) (Pointer.previewDetection ptr)
           (Pointer.isDrawingBox ptr) (Pointer.drawingStart ptr)
           (Some (Box.mk newX newY width height)))
| _, _ =>
    match Pointer.resizing ptr, State.images st !! State.currentIndex st,
          State.selectedDetection st with
    | Some resizing, Some _, Some _ =>
        let dx := (x - Resizing.startX resizing)%Q in
        let dy := (y - Resizing.startY resizing)%Q in
        (st, Pointer.mk (Pointer.resizing ptr)
               (Some (resized (Resizing.handle resizing) dx dy
                        (Resizing.originalDetection resizing)))
               (Pointer.isDrawingBox ptr) (Pointer.drawingStart ptr)
               (Pointer.drawingPreview ptr))
    | _, _, _ => sp
    end
end.

(** [detections[idx] = d]: replaces a box or appends one; beyond that the
    array would get holes, which the model does not have ([None]). *)
Definition setDetection (idx : nat) (d : Detection.t)
    (detections : list Detection.t) : option (list Detection.t) :=
if (idx <? length detections)%nat then Some (<[idx := d]> detections)
else if (idx =? length detections)%nat then Some (detections ++ [d])%list
else None.

(** The box a finished drawing adds: the detector's class for a person,
    full confidence. *)
Definition drawnBox (b : Box.t) : Detection.t :=
Detection.mk (Box.x b) (Box.y b) (Box.width b) (Box.height b) "person" 1.

Definition handleCanvasMouseUp (sp : State.t * Pointer.t)
    : option (State.t * Pointer.t) :=
let st := sp.1 in
let ptr := sp.2 in
let i := State.currentIndex st in
match Pointer.isDrawingBox ptr, Pointer.drawingPreview ptr, State.images st !! i with
| true, Some drawingPreview, Some currentImage =>
    let st' :=
      if Qle_bool 30 (Box.width drawingPreview)
         && Qle_bool 30 (Box.height drawingPreview)
      then
        let detections :=
          (ImageData.detections currentImage ++ [drawnBox drawingPreview])%list in
        State.setSelectedDetection (Some (length detections - 1)%nat)
          (State.setImages
             (<[i := ImageData.with_detections detections currentImage]>
                (State.images st))
             st)
      else st in
    Some (st', Pointer.mk (Pointer.resizing ptr) (Pointer.previewDetection ptr)
                 false None None)
| _, _, _ =>
    let released :=
      Pointer.mk None None (Pointer.isDrawingBox ptr) (Pointer.drawingStart ptr)
        (Pointer.drawingPreview ptr) in
    match Pointer.resizing ptr, Pointer.previewDetection ptr,
          State.selectedDetection st with
    | Some _, Some previewDetection, Some selected =>
        match State.images st !! i with
        | None => Some sp
        | Some currentImage =>
            detections ← setDetection selected previewDetection
                            (ImageData.detections currentImage);
            Some (State.setImages
                    (<[i := ImageData.with_detections detections currentImage]>
                       (State.images st))
                    st,
                  released)
        end
    | _, _, _ => Some (st, released)
    end
end.

(** ** The manual clip editor: timeline, markers, zoom *)

Module Editor.
Record t : Type := mk
  { videoFile : option File.t;
    duration : Q;
    currentTime : Q;
    markers : list ClipMarker.t;
    zoomLevel : Q;
    timelineOffset : Q;
    pendingMarkerStart : option Q }.


Definition setMarkers (v : list ClipMarker.t) (ed : t) : t :=
mk (videoFile ed) (duration ed) (currentTime ed) v (zoomLevel ed)
   (timelineOffset ed) (pendingMarkerStart ed).



Definition setPendingMarkerStart (v : option Q) (ed : t) : t :=
mk (videoFile ed) (duration ed) (currentTime ed) (markers ed) (zoomLevel ed)
   (timelineOffset ed) v.
End Editor.

Module MarkerField.
Inductive t : Type := startTime | endTime.
End MarkerField.

(** [Math.max(0, Math.min(v, hi))] *)
Definition clampTo (hi v : Q) : Q := Qmax 0 (Qmin v hi).

(** [Math.round(time / snapInterval) * snapInterval] with a grid of half
    a second. *)
Definition snapToGrid (time : Q) : Q :=
let snapInterval := (1 # 2)%Q in
(inject_Z (mathRound (time / snapInterval)) * snapInterval)%Q.

(** The comparator [(a, b) => a.startTime - b.startTime], by its sign. *)
Definition byStartTime (a b : ClipMarker.t) : Z :=
match (ClipMarker.startTime a ?= ClipMarker.startTime b)%Q with
| Lt => (-1)%Z
| Eq => 0%Z
| Gt => 1%Z
end.


(** [addMarker]; [now] is [Date.now().toString()]. *)
Definition addMarker (framesPerClip : nat) (frameInterval : Q) (now : string)
    (ed : Editor.t) : Editor.t :=
if Qeq_bool (Editor.duration ed) 0 then ed
else
  let clipDuration := (inject_Z (Z.of_nat framesPerClip) * frameInterval)%Q in
  let startTime := Editor.currentTime ed in
  let endTime := Qmin (Editor.currentTime ed + clipDuration) (Editor.duration ed) in
  Editor.setMarkers
    (sortBy byStartTime
       (Editor.markers ed ++ [ClipMarker.mk now startTime endTime None])%list)
    ed.

Definition deleteMarker (id : string) (ed : Editor.t) : Editor.t :=
Editor.setMarkers (filter (λ m, ClipMarker.id m ≠ id) (Editor.markers ed)) ed.

(** The function mapped over the markers by [updateMarker]. *)
Definition updatedMarker (duration : Q) (id : string) (field : MarkerField.t)
    (value : Q) (m : ClipMarker.t) : ClipMarker.t :=
if String.eqb (ClipMarker.id m) id then
  let v := clampTo duration value in
  match field with
  | MarkerField.startTime =>
      if Qle_bool (ClipMarker.endTime m) v
      then ClipMarker.mk (ClipMarker.id m) v (Qmin (v + 1) duration) (ClipMarker.label m)
      else ClipMarker.mk (ClipMarker.id m) v (ClipMarker.endTime m) (ClipMarker.label m)
  | MarkerField.endTime =>
      if Qle_bool v (ClipMarker.startTime m)
      then ClipMarker.mk (ClipMarker.id m) (Qmax (v - 1) 0) v (ClipMarker.label m)
      else ClipMarker.mk (ClipMarker.id m) (ClipMarker.startTime m) v (ClipMarker.label m)
  end
else m.

Definition updateMarker (id : string) (field : MarkerField.t) (value : Q)
    (ed : Editor.t) : Editor.t :=
Editor.setMarkers
  (updatedMarker (Editor.duration ed) id field value <$> Editor.markers ed) ed.



Definition cancelPendingMarker (ed : Editor.t) : Editor.t :=
match Editor.pendingMarkerStart ed with
| Some _ => Editor.setPendingMarkerStart None ed
| None => ed
end.



(** The end of the visible window ([getVisibleRange().end]). *)
Definition visibleEnd (ed : Editor.t) : Q :=
Qmin (Editor.timelineOffset ed + Editor.duration ed / Editor.zoomLevel ed)
     (Editor.duration ed).

(** ** The review screen as a whole *)

(** The panel with the marking and labelling buttons is rendered only
    while frames are loaded ([images.length === 0 ? ... : ...]). *)
Definition panelShown (st : State.t) : bool := (0 <? length (State.images st))%nat.

Definition onPanel (handler : State.t → State.t) (st : State.t) : State.t :=
if panelShown st then handler st else st.

(** What the user can do while reviewing frames: the shortcuts and the
    buttons, each with what it carries. *)
Inductive ReviewEvent : Type :=
| Next
| Previous
| Space
| Escape
| QuickLabel (label : string)
| DeleteDetection (idx : nat)
| Redetect
| ToggleMark
| MarkAll
| MarkNone
| MarkRange (fromInput toInput : option Z)
| DeleteMarked
| BatchLabel (fromInput toInput : option Z) (label : string)
| LabelDetection (idx : nat) (label : string).

(** Every handler sees the state as it is when the event arrives. *)
Definition review (decodeImage : File.t → option (Z * Z)) (ev : ReviewEvent)
    (st : State.t) : State.t :=
match ev with
| Next => handleNext st
| Previous => handlePrevious st
| Space => spaceKey st
| Escape => State.setSelectedDetection None st
| QuickLabel label => applyQuickLabel label st
| DeleteDetection idx => handleDeleteDetection idx st
| Redetect => handleRedetect decodeImage st
| ToggleMark => onPanel toggleMarked st
| MarkAll => onPanel markAll st
| MarkNone => onPanel markNone st
| MarkRange fromInput toInput => onPanel (markRange fromInput toInput) st
| DeleteMarked => onPanel deleteMarked st
| BatchLabel fromInput toInput label =>
    onPanel (batchLabel decodeImage fromInput toInput label) st
| LabelDetection idx label => onPanel (labelDetection idx label) st
end.

(** While there are frames the current index points at one of them, and
    every marked index is the index of a frame. *)
Definition indexed (st : State.t) : Prop :=
(State.images st ≠ [] → (State.currentIndex st < length (State.images st))%nat)
∧ ∀ j, j ∈ State.selectedImages st → (j < length (State.images st))%nat.

(** A marker that lies inside a video of the given length. *)
Definition markerInside (duration : Q) (m : ClipMarker.t) : Prop :=
(0 <= ClipMarker.startTime m)%Q
∧ (ClipMarker.startTime m <= ClipMarker.endTime m)%Q
∧ (ClipMarker.endTime m <= duration)%Q.


(** ** Clips handed over by the editor ([onClipsCreated]) *)


(** ** Sharpening the upscaled frame (the convolution of [enhanceFrame]) *)

(** [data[i]] of the image data, a flat array of red, green, blue and alpha
    bytes, row by row.  For a buffer of [4 * width * height] entries the
    loops below never read outside it. *)
Definition byteAt (data : list Z) (i : nat) : Z := default 0%Z (data !! i).

Definition kernel : list Z := [0; -1; 0; -1; 5; -1; 0; -1; 0]%Z.

(** The loops over [ky] and [kx], in the order in which [ki] counts. *)
Definition neighbours : list (Z * Z) :=
ky ← [-1; 0; 1]%Z; kx ← [-1; 0; 1]%Z; [(ky, kx)].

(** [sum] after the two inner loops, for channel [c] of the pixel [x], [y]. *)
Definition convolve (data : list Z) (width x y c : nat) : Z :=
foldl (λ sum nk,
         let neighborIndex :=
           (((Z.of_nat y + nk.1.1) * Z.of_nat width + (Z.of_nat x + nk.1.2)) * 4
            + Z.of_nat c)%Z in
         (sum + byteAt data (Z.to_nat neighborIndex) * nk.2)%Z)
      0%Z (zip neighbours kernel).

(** Body of the loops over [y] and [x]: the three colour channels are
    convolved and clamped, alpha is copied. *)
Definition sharpenPixel (data : list Z) (width : nat) (output : list Z)
    (yx : nat * nat) : list Z :=
let pixelIndex := ((yx.1 * width + yx.2) * 4)%nat in
let output :=
  foldl (λ output c,
           <[(pixelIndex + c)%nat :=
               Z.min 255 (Z.max 0 (convolve data width yx.2 yx.1 c))]> output)
        output [0; 1; 2]%nat in
<[(pixelIndex + 3)%nat := byteAt data (pixelIndex + 3)]> output.

(** [for (let c = 0; c < 4; c++) { output[a + c] = data[a + c]; output[b + c] = data[b + c]; }] *)
Definition copyPixels (data output : list Z) (a b : nat) : list Z :=
foldl (λ output c,
         <[(b + c)%nat := byteAt data (b + c)]>
           (<[(a + c)%nat := byteAt data (a + c)]> output))
      output [0; 1; 2; 3]%nat.

(** From [new Uint8ClampedArray(data.length)] to the buffer handed to
    [putImageData]: the inner pixels sharpened, then the top and bottom rows
    and the left and right columns copied.  A write outside the buffer does
    nothing. *)
Definition sharpen (width height : nat) (data : list Z) : list Z :=
let output := replicate (length data) 0%Z in
let output :=
  foldl (sharpenPixel data width) output
    (y ← seq 1 (height - 2); x ← seq 1 (width - 2); [(y, x)]) in
let output :=
  foldl (λ output x,
           copyPixels data output (x * 4) (((height - 1) * width + x) * 4))
        output (seq 0 width) in
foldl (λ output y,
         copyPixels data output (y * width * 4) ((y * width + width - 1) * 4))
      output (seq 0 height).

(** Where channel [c] of the pixel [x], [y] sits in the buffer. *)
Definition channelIndex (width x y c : nat) : nat := ((y * width + x) * 4 + c)%nat.

(** What the pass leaves at index [j] when [j] belongs to an inner pixel:
    the clamped sum for a colour channel, the alpha byte as it was. *)
Definition sharpenedByte (data : list Z) (width j : nat) : Z :=
let p := (j `div` 4)%nat in
let c := (j `mod` 4)%nat in
if (c <? 3)%nat
then Z.min 255 (Z.max 0 (convolve data width (p `mod` width) (p `div` width) c))
else byteAt data j.

(* ================================================================== *)
(** * Properties *)
(* ================================================================== *)

(** ** Strings *)

Lemma truthy_true (s : string) : truthy s = true ↔ s ≠ "".
Proof.
  unfold truthy. rewrite negb_true_iff.
  split.
  - intros H ->. by rewrite String.eqb_refl in H.
  - intros H. by apply String.eqb_neq.
Qed.

Lemma truthy_false (s : string) : truthy s = false ↔ s = "".
Proof.
  unfold truthy. rewrite negb_false_iff. apply String.eqb_eq.
Qed.

(** ** Rounding: a number and its binary64 neighbour *)

Lemma nearestEven_near (q : Q) :
(q - (1 # 2) <= inject_Z (Double.nearestEven q))%Q
∧ (inject_Z (Double.nearestEven q) <= q + (1 # 2))%Q.
Proof.
unfold Double.nearestEven.
pose proof (Qfloor_le q) as Hlo. pose proof (Qlt_floor q) as Hhi.
rewrite inject_Z_plus in Hhi. change (inject_Z 1) with 1%Q in Hhi.
destruct (Qcompare_spec (q - inject_Z (Qfloor q)) (1 # 2)) as [He|Hl|Hg].
- destruct (Z.even (Qfloor q)).
  + split; lra.
  + rewrite inject_Z_plus. change (inject_Z 1) with 1%Q. split; lra.
- split; lra.
- rewrite inject_Z_plus. change (inject_Z 1) with 1%Q. split; lra.
Qed.

Lemma two_power_pos (k : Z) : (0 < 2 ^ k)%Q.
Proof. apply Qpower_0_lt. reflexivity. Qed.

Lemma two_power_plus (a b : Z) : (2 ^ (a + b) == 2 ^ a * 2 ^ b)%Q.
Proof. apply Qpower_plus. discriminate. Qed.

(** The exponent found for a positive number is not too large. *)
Lemma exponent_le (q : Q) : (0 < q)%Q → (2 ^ Double.exponent q <= q)%Q.
Proof.
intros Hq. unfold Double.exponent.
set (n := Qnum q). set (d := Qden q).
destruct (Qle_bool (2 ^ (Z.log2 n - Z.log2 (Z.pos d))) q) eqn:E.
- by apply Qle_bool_iff.
- assert (Hn : (0 < n)%Z).
  { unfold Qlt in Hq. simpl in Hq. fold n in Hq. lia. }
  destruct (Z.log2_spec n Hn) as [Hn1 _].
  destruct (Z.log2_spec (Z.pos d) ltac:(lia)) as [_ Hd2].
  pose proof (Z.log2_nonneg n) as Hln.
  pose proof (Z.log2_nonneg (Z.pos d)) as Hld.
  set (a := Z.log2 n) in *. set (b := Z.log2 (Z.pos d)) in *.
  assert (Hpa : (2 ^ a <= inject_Z n)%Q).
  { change 2%Q with (inject_Z 2). rewrite <- Zpower_Qpower by lia.
    by rewrite <- Zle_Qle. }
  assert (Hpb : (inject_Z (Z.pos d) <= 2 ^ (b + 1))%Q).
  { change 2%Q with (inject_Z 2). rewrite <- Zpower_Qpower by lia.
    rewrite <- Zle_Qle. unfold Z.succ in Hd2. lia. }
  assert (Hsplit : (2 ^ a == 2 ^ (a - b - 1) * 2 ^ (b + 1))%Q).
  { rewrite <- two_power_plus. by replace (a - b - 1 + (b + 1))%Z with a by lia. }
  assert (Hq' : (q == inject_Z n / inject_Z (Z.pos d))%Q).
  { unfold n, d. rewrite <- (Qmake_Qdiv (Qnum q) (Qden q)). by destruct q. }
  rewrite Hq'. apply Qle_shift_div_l; [reflexivity|].
  pose proof (two_power_pos (a - b - 1)) as Hpos.
  set (x := (2 ^ (a - b - 1))%Q) in *. set (y := (2 ^ (b + 1))%Q) in *.
  set (z := (2 ^ a)%Q) in *. set (dd := inject_Z (Z.pos d)) in *.
  assert (0 < dd)%Q by reflexivity.
  nra.
Qed.

(** Rounding moves a positive number by at most [2^-53] of itself. *)
Lemma roundPos_near (q : Q) :
(0 < q)%Q →
(q - q * (1 # 9007199254740992) <= Double.roundPos q)%Q
∧ (Double.roundPos q <= q + q * (1 # 9007199254740992))%Q.
Proof.
intros Hq. unfold Double.roundPos.
pose proof (exponent_le q Hq) as He. set (e := Double.exponent q) in *.
destruct (nearestEven_near (q * 2 ^ (52 - e))) as [Hlo Hhi].
set (m := inject_Z (Double.nearestEven (q * 2 ^ (52 - e)))) in *.
pose proof (two_power_pos (52 - e)) as Hs.
pose proof (two_power_pos (e - 52)) as Hu.
assert (Hone : (2 ^ (52 - e) * 2 ^ (e - 52) == 1)%Q).
{ rewrite <- two_power_plus. by replace (52 - e + (e - 52))%Z with 0%Z by lia. }
assert (Hulp : (2 ^ (e - 52) == 2 ^ e * (1 # 4503599627370496))%Q).
{ replace (e - 52)%Z with (e + -52)%Z by lia. by rewrite two_power_plus. }
set (s := (2 ^ (52 - e))%Q) in *. set (u := (2 ^ (e - 52))%Q) in *.
set (p := (2 ^ e)%Q) in *.
assert (Hhalf : ((1 # 2) * u <= q * (1 # 9007199254740992))%Q).
{ rewrite Hulp.
  assert (((1 # 2) * (p * (1 # 4503599627370496))
           == p * (1 # 9007199254740992))%Q) as -> by field.
  apply Qmult_le_compat_r; [done | done]. }
assert (Hq1 : (q == q * s * u)%Q).
{ rewrite <- Qmult_assoc, Hone. ring. }
split.
- apply Qle_trans with ((q * s - (1 # 2)) * u)%Q.
  + assert (((q * s - (1 # 2)) * u == q * s * u - (1 # 2) * u)%Q) as -> by ring.
    rewrite <- Hq1. lra.
  + apply Qmult_le_compat_r; [lra | lra].
- apply Qle_trans with ((q * s + (1 # 2)) * u)%Q.
  + apply Qmult_le_compat_r; [lra | lra].
  + assert (((q * s + (1 # 2)) * u == q * s * u + (1 # 2) * u)%Q) as -> by ring.
    rewrite <- Hq1. lra.
Qed.

Lemma round_near (q : Q) :
(0 < q)%Q →
(q - q * (1 # 9007199254740992) <= Double.round q)%Q
∧ (Double.round q <= q + q * (1 # 9007199254740992))%Q.
Proof.
intros Hq. unfold Double.round. rewrite Qred_correct.
destruct q as [[|n|n] d]; [done | by apply roundPos_near | done].
Qed.

(** One round of a loop [t += step] moves on by at least half a step
    while the sum stays below [2^52] steps. *)
Lemma add_progress (t step : Q) :
(0 <= t)%Q → (0 < step)%Q → (t + step <= 4503599627370496 * step)%Q →
(t + step * (1 # 2) <= Double.add t step)%Q.
Proof.
intros Ht Hstep Hbig. unfold Double.add.
destruct (round_near (t + step) ltac:(lra)) as [Hlo _].
eapply Qle_trans; [|exact Hlo].
assert (Hsmall : ((t + step) * (1 # 9007199254740992) <= step * (1 # 2))%Q).
{ apply Qle_trans with (4503599627370496 * step * (1 # 9007199254740992))%Q.
  - apply Qmult_le_compat_r; [done | done].
  - apply Qle_lteq. right. field. }
lra.
Qed.

(** ** Insertion-ordered maps *)

Section omap_facts.
Context {V : Type}.
Implicit Types (m : list (string * V)) (k : string).

Lemma omap_keys_upsert k init f m :
  OMap.keys (OMap.upsert k init f m) =
  if decide (k ∈ OMap.keys m) then OMap.keys m else (OMap.keys m ++ [k])%list.
Proof.
  unfold OMap.keys. induction m as [|[k' v] m IH].
  - destruct (decide (k ∈ fst <$> ([] : list (string * V)))) as [Hin|_]; [|done].
    by apply elem_of_nil in Hin.
  - cbn [OMap.upsert]. destruct (String.eqb_spec k' k) as [->|Hne].
    + rewrite decide_True; [done|]. rewrite fmap_cons. by left.
    + rewrite !fmap_cons. cbn [fst]. rewrite IH.
      destruct (decide (k ∈ fst <$> m)) as [Hin|Hnin].
      * rewrite decide_True; [done|]. by right.
      * rewrite decide_False; [done|].
        intros [?|?]%elem_of_cons; congruence.
Qed.

Lemma omap_upsert_NoDup k init f m :
  NoDup (OMap.keys m) → NoDup (OMap.keys (OMap.upsert k init f m)).
Proof.
  intros Hnd. rewrite omap_keys_upsert. case_decide; [done|].
  apply NoDup_app. split_and!; [done| |apply NoDup_singleton].
  intros x Hx ->%list_elem_of_singleton. done.
Qed.

Lemma omap_get_upsert_eq k init f m :
  OMap.get k (OMap.upsert k init f m) = Some (f (default init (OMap.get k m))).
Proof.
  induction m as [|[k' v] m IH]; simpl.
  - by rewrite String.eqb_refl.
  - destruct (String.eqb_spec k' k) as [->|Hne]; simpl.
    + by rewrite String.eqb_refl.
    + by apply String.eqb_neq in Hne as ->.
Qed.

Lemma omap_get_upsert_ne k k' init f m :
  k ≠ k' → OMap.get k' (OMap.upsert k init f m) = OMap.get k' m.
Proof.
  intros Hne. induction m as [|[k0 v] m IH]; simpl.
  - by apply String.eqb_neq in Hne as ->.
  - destruct (String.eqb_spec k0 k) as [->|Hne0]; simpl.
    + by apply String.eqb_neq in Hne as ->.
    + by rewrite IH.
Qed.

Lemma omap_get_Some_key k v m : OMap.get k m = Some v → k ∈ OMap.keys m.
Proof.
  unfold OMap.keys. induction m as [|[k' v'] m IH]; simpl; [done|].
  destruct (String.eqb_spec k' k) as [->|Hne]; intros H.
  - by left.
  - right. by apply IH.
Qed.

Lemma omap_keys_fmap {W : Type} (g : string * V → W) m :
  OMap.keys ((λ kv, (kv.1, g kv)) <$> m) = OMap.keys m.
Proof.
  unfold OMap.keys. rewrite <- list_fmap_compose. by apply list_fmap_ext.
Qed.

Lemma omap_get_fmap {W : Type} (g : V → W) k m :
  OMap.get k ((λ kv, (kv.1, g kv.2)) <$> m) = g <$> OMap.get k m.
Proof.
  induction m as [|[k' v] m IH]; simpl; [done|].
  by destruct (String.eqb k' k).
Qed.
End omap_facts.

(** ** Sorting and cutting keep the elements *)

Lemma insertBy_Permutation {A : Type} (cmp : A → A → Z) (a : A) (l : list A) :
  insertBy cmp a l ≡ₚ a :: l.
Proof.
  induction l as [|b l IH]; simpl; [done|].
  destruct (cmp a b <=? 0)%Z; [done|].
  rewrite IH. apply Permutation_swap.
Qed.

Lemma sortBy_Permutation {A : Type} (cmp : A → A → Z) (l : list A) :
  sortBy cmp l ≡ₚ l.
Proof.
  unfold sortBy. induction l as [|a l IH]; simpl; [done|].
  by rewrite insertBy_Permutation, IH.
Qed.

Lemma sliceLoop_concat {A : Type} (frames : list A) (fuel i : nat) :
  (length frames ≤ i + fuel * MAX_FRAMES_PER_CLIP)%nat →
  concat (sliceLoop fuel i frames) = drop i frames.
Proof.
  revert i. induction fuel as [|fuel IH]; intros i Hlen; simpl.
  - symmetry. apply drop_ge. lia.
  - destruct (Nat.ltb_spec i (length frames)) as [Hlt|Hge].
    + simpl. rewrite IH by (unfold MAX_FRAMES_PER_CLIP in *; lia).
      unfold slice. replace (i + MAX_FRAMES_PER_CLIP - i)%nat
        with MAX_FRAMES_PER_CLIP by lia.
      rewrite <- drop_drop. by rewrite take_drop.
    + symmetry. by apply drop_ge.
Qed.

(** The loop never stops for lack of fuel: nothing of the list is lost. *)
Lemma frameChunks_concat {A : Type} (frames : list A) :
  concat (frameChunks frames) = frames.
Proof.
  unfold frameChunks. rewrite sliceLoop_concat; [done|].
  unfold MAX_FRAMES_PER_CLIP. lia.
Qed.

Lemma frameChunks_nonempty {A : Type} (frames : list A) :
  frames ≠ [] → frameChunks frames ≠ [].
Proof.
  intros Hne Hnil. pose proof (frameChunks_concat frames) as H.
  rewrite Hnil in H. simpl in H. congruence.
Qed.

(** ** Exporter: numbering of clip folders *)

Section exporter_numbering.
Variable localeCompare : string → string → Z.
Variable fetchBlob : string → option N.
Variable imageSize : string → option (Z * Z).
Variable functionText : string → string.

Local Abbreviation exportFrames' := (exportFrames fetchBlob imageSize).
Local Abbreviation exportChunk' := (exportChunk fetchBlob imageSize).
Local Abbreviation exportChunks' := (exportChunks fetchBlob imageSize).
Local Abbreviation exportClips' := (exportClips fetchBlob imageSize).
Local Abbreviation exportLabels' :=
  (exportLabels localeCompare fetchBlob imageSize functionText).
Local Abbreviation clipOffset' := (clipOffset functionText).

(** The loop over the frames of a chunk numbers them from the counter on
    and counts each of them. *)
Lemma exportFrames_spec label clipKey clipFolderName counter total frames :
  let r := exportFrames' label clipKey clipFolderName counter total frames in
  r.1 = (total + length frames)%nat
  ∧ r.2 = imap (λ i img, exportFrame fetchBlob imageSize label clipKey
                          clipFolderName (counter + S i) img) frames.
Proof.
  revert counter total. induction frames as [|img rest IH]; intros counter total;
    cbn [exportFrames fst snd imap length].
  - split; [lia | done].
  - destruct (IH (S counter) (S total)) as [H1 H2]. split.
    + rewrite H1. lia.
    + rewrite H2. f_equal; [f_equal; lia|].
      apply imap_ext. intros i x _. cbn. f_equal. lia.
Qed.

Lemma exportChunk_frames label safeLabel clipKey clipNumber total chunk :
  ClipFolder.frames (exportChunk' label safeLabel clipKey clipNumber total chunk).2
  = imap (λ i img, exportFrame fetchBlob imageSize label clipKey
                     (safeLabel +:+ pad2 clipNumber) (S i) img) chunk
  ∧ (exportChunk' label safeLabel clipKey clipNumber total chunk).1
    = (total + length chunk)%nat.
Proof.
  unfold exportChunk. cbn [fst snd ClipFolder.frames].
  destruct (exportFrames_spec label clipKey (safeLabel +:+ pad2 clipNumber)
              0 total chunk) as [H1 H2].
  by rewrite H1, H2.
Qed.

Lemma framesIn_app (l1 l2 : list ClipFolder.t) :
  framesIn (l1 ++ l2) = (framesIn l1 + framesIn l2)%nat.
Proof. unfold framesIn. by rewrite fmap_app, sum_list_with_app. Qed.

Lemma framesIn_cons (cf : ClipFolder.t) (l : list ClipFolder.t) :
  framesIn (cf :: l) = (length (ClipFolder.frames cf) + framesIn l)%nat.
Proof. done. Qed.

Lemma exportChunks_spec label safeLabel clipKey off tot tally chunks :
  let r := exportChunks' label safeLabel clipKey off tot tally chunks in
  r.1.2 = (tot + length r.2)%nat
  ∧ ClipFolder.clipNumber <$> r.2 = Counter.plus off <$> seq (S tot) (length r.2)
  ∧ Forall (λ cf, ClipFolder.label cf = label) r.2
  ∧ Tally.totalExportedClips r.1.1
    = (Tally.totalExportedClips tally + length r.2)%nat
  ∧ Tally.totalExportedFrames r.1.1
    = (Tally.totalExportedFrames tally + framesIn r.2)%nat.
Proof.
  revert tot tally. induction chunks as [|c cs IH]; intros tot tally;
    cbn [exportChunks fst snd length fmap list_fmap seq].
  - split_and!; [lia | done | constructor | lia | cbn; lia].
  - destruct (IH (S tot)
               (Tally.mk (S (Tally.totalExportedClips tally))
                  (exportChunk' label safeLabel clipKey (Counter.plus off (S tot))
                     (Tally.totalExportedFrames tally) c).1))
      as (H1 & H2 & H3 & H4 & H5).
    destruct (exportChunk_frames label safeLabel clipKey (Counter.plus off (S tot))
                (Tally.totalExportedFrames tally) c) as [Hf Hn].
    cbn [Tally.totalExportedClips Tally.totalExportedFrames] in H4, H5.
    split_and!.
    + rewrite H1. lia.
    + f_equal. exact H2.
    + constructor; [done | exact H3].
    + rewrite H4. lia.
    + rewrite H5, Hn, framesIn_cons, Hf, length_imap. cbn. lia.
Qed.

Lemma exportClips_spec label safeLabel byClip off tot tally clipKeys :
  let r := exportClips' label safeLabel byClip off tot tally clipKeys in
  r.1.2 = (tot + length r.2)%nat
  ∧ ClipFolder.clipNumber <$> r.2 = Counter.plus off <$> seq (S tot) (length r.2)
  ∧ Forall (λ cf, ClipFolder.label cf = label) r.2
  ∧ Tally.totalExportedClips r.1.1
    = (Tally.totalExportedClips tally + length r.2)%nat
  ∧ Tally.totalExportedFrames r.1.1
    = (Tally.totalExportedFrames tally + framesIn r.2)%nat.
Proof.
  revert tot tally. induction clipKeys as [|k ks IH]; intros tot tally;
    cbn [exportClips].
  - cbn. split_and!; [lia | done | constructor | lia | lia].
  - destruct (length (default [] (OMap.get k byClip)) =? 0)%nat; [apply IH|].
    pose proof (exportChunks_spec label safeLabel k off tot tally
                  (frameChunks (default [] (OMap.get k byClip))))
      as (H1 & H2 & H3 & H4 & H5).
    set (r1 := exportChunks' label safeLabel k off tot tally _) in *.
    cbn zeta in H1, H2, H3, H4, H5.
    destruct (IH r1.1.2 r1.1.1) as (G1 & G2 & G3 & G4 & G5).
    set (r2 := exportClips' label safeLabel byClip off r1.1.2 r1.1.1 ks) in *.
    cbn [fst snd]. split_and!.
    + rewrite G1, H1, length_app. lia.
    + rewrite fmap_app, length_app, seq_app, fmap_app, H2, G2, H1. done.
    + by apply Forall_app.
    + rewrite G4, H4, length_app. lia.
    + rewrite G5, H5, framesIn_app. lia.
Qed.

Lemma filter_label_all label (l : list ClipFolder.t) :
  Forall (λ cf, ClipFolder.label cf = label) l →
  filter (λ cf, ClipFolder.label cf = label) l = l.
Proof.
  induction 1 as [|cf l Hcf _ IH]; [done|].
  rewrite filter_cons_True by done. by rewrite IH.
Qed.

Lemma filter_label_none label label' (l : list ClipFolder.t) :
  label' ≠ label →
  Forall (λ cf, ClipFolder.label cf = label') l →
  filter (λ cf, ClipFolder.label cf = label) l = [].
Proof.
  intros Hne. induction 1 as [|cf l Hcf _ IH]; [done|].
  rewrite filter_cons_False by congruence. exact IH.
Qed.

(** Writing the counter of one label leaves the others alone. *)
Lemma setCounter_other label l0 v (counters : gmap string Counter.t) :
  l0 ≠ label → setCounter l0 v counters !! label = counters !! label.
Proof.
  intros Hne. unfold setCounter. destruct (_ && _); [done|].
  by apply lookup_insert_ne.
Qed.

(** What the offset reads depends on the label's own property only. *)
Lemma clipOffset_lookup (c1 c2 : gmap string Counter.t) label :
  c1 !! label = c2 !! label → clipOffset' c1 label = clipOffset' c2 label.
Proof. intros H. unfold clipOffset. by rewrite H. Qed.

(** A label that read as a number reads, after its counter is written, as
    the number written. *)
Lemma clipOffset_setCounter label (c n : nat) (counters : gmap string Counter.t) :
  clipOffset' counters label = Counter.number c →
  clipOffset' (setCounter label (Counter.number n) counters) label
  = Counter.number n.
Proof.
  intros Hread. unfold setCounter.
  destruct (String.eqb_spec label "__proto__") as [->|Hne]; cbn [andb].
  - case_bool_decide as Hnone.
    + exfalso. revert Hread. unfold clipOffset. rewrite Hnone. done.
    + unfold clipOffset. by rewrite lookup_insert_eq.
  - unfold clipOffset. by rewrite lookup_insert_eq.
Qed.

(** Labels that are not a key of [byLabel] get no folder and keep their
    counter. *)
Lemma exportLabels_other label byLabel counters tally :
  label ∉ OMap.keys byLabel →
  let r := exportLabels' byLabel counters tally in
  r.1.2 !! label = counters !! label ∧ ordinalsOf label r.2 = [].
Proof.
  revert counters tally. induction byLabel as [|[l0 byClip] rest IH];
    intros counters tally Hnotin; cbn [exportLabels fst snd]; [done|].
  unfold OMap.keys in Hnotin. cbn in Hnotin.
  apply not_elem_of_cons in Hnotin as [Hne Hrest].
  set (rc := exportClips' l0 (toSafePathSegment l0) byClip
               (clipOffset' counters l0) 0 tally
               (sortBy localeCompare (OMap.keys byClip))).
  destruct (IH (setCounter l0 (Counter.plus (clipOffset' counters l0) rc.1.2)
                  counters) rc.1.1 Hrest) as [H1 H2].
  split.
  - rewrite H1. by apply setCounter_other.
  - unfold ordinalsOf in *. rewrite filter_app, fmap_app, H2, app_nil_r.
    pose proof (exportClips_spec l0 (toSafePathSegment l0) byClip
                  (clipOffset' counters l0) 0 tally
                  (sortBy localeCompare (OMap.keys byClip))) as (_ & _ & H3 & _).
    by rewrite (filter_label_none label l0) by done.
Qed.

(** Every label starts one past what its counter reads as and runs on
    without gaps; a counter that read as a number grows by the number of
    the label's new folders.  The totals count the folders and their
    frames. *)
Lemma exportLabels_spec label byLabel counters tally :
  NoDup (OMap.keys byLabel) →
  let r := exportLabels' byLabel counters tally in
  let n := length (ordinalsOf label r.2) in
  ordinalsOf label r.2 = Counter.plus (clipOffset' counters label) <$> seq 1 n
  ∧ (∀ c : nat, clipOffset' counters label = Counter.number c →
       clipOffset' r.1.2 label = Counter.number (c + n))
  ∧ Tally.totalExportedClips r.1.1
    = (Tally.totalExportedClips tally + length r.2)%nat
  ∧ Tally.totalExportedFrames r.1.1
    = (Tally.totalExportedFrames tally + framesIn r.2)%nat.
Proof.
  revert counters tally. induction byLabel as [|[l0 byClip] rest IH];
    intros counters tally Hnd; cbn [exportLabels fst snd].
  { cbn. split_and!; try done; try lia. intros c Hc. by rewrite Nat.add_0_r. }
  unfold OMap.keys in Hnd. cbn in Hnd. apply NoDup_cons in Hnd as [Hl0 Hnd].
  set (off := clipOffset' counters l0).
  pose proof (exportClips_spec l0 (toSafePathSegment l0) byClip off 0 tally
                (sortBy localeCompare (OMap.keys byClip)))
    as (H1 & H2 & H3 & H4 & H5).
  set (rc := exportClips' l0 (toSafePathSegment l0) byClip off 0 tally
               (sortBy localeCompare (OMap.keys byClip))) in *.
  cbn zeta in H1, H2, H3, H4, H5. cbn [Nat.add] in H1.
  destruct (IH (setCounter l0 (Counter.plus off rc.1.2) counters) rc.1.1 Hnd)
    as (G1 & G2 & G3 & G4).
  set (r' := exportLabels' rest _ _) in *.
  assert (Htot : Tally.totalExportedClips r'.1.1
                 = (Tally.totalExportedClips tally + length (rc.2 ++ r'.2))%nat
               ∧ Tally.totalExportedFrames r'.1.1
                 = (Tally.totalExportedFrames tally + framesIn (rc.2 ++ r'.2))%nat).
  { rewrite G3, G4, H4, H5, length_app, framesIn_app. lia. }
  destruct Htot as [Ht1 Ht2].
  destruct (decide (label = l0)) as [->|Hne].
  - destruct (exportLabels_other l0 rest
                (setCounter l0 (Counter.plus off rc.1.2) counters) rc.1.1 Hl0)
      as [O1 O2].
    fold r' in O1, O2.
    unfold ordinalsOf in *.
    rewrite filter_app, fmap_app, O2, app_nil_r.
    rewrite (filter_label_all l0) by done.
    rewrite length_fmap, H2. split_and!; try done.
    intros c Hc. rewrite (clipOffset_lookup _ _ _ O1).
    fold off in Hc. rewrite Hc. cbn [Counter.plus].
    rewrite H1. by apply (clipOffset_setCounter l0 c).
  - unfold ordinalsOf in *.
    rewrite filter_app, fmap_app.
    rewrite (filter_label_none label l0) by done. cbn [fmap list_fmap app].
    rewrite (clipOffset_lookup _ counters label) in G1, G2
      by (by apply setCounter_other).
    by split_and!.
Qed.

(** *** Grouping: every exported label owns a non-empty clip *)

Lemma getCustomLabel_truthy img label :
  getCustomLabel img = Some label → truthy label = true.
Proof.
  unfold getCustomLabel.
  destruct (truthy (trim (default "" (ImageData.activityLabel img)))) eqn:E.
  - by intros [= <-].
  - induction (ImageData.detections img) as [|d ds IH]; simpl; [done|].
    unfold isCustomLabel at 1.
    destruct (truthy (trim (Detection.label d))) eqn:Et; simpl; [|exact IH].
    destruct (negb _); [by intros [= <-] | exact IH].
Qed.

Lemma pushFrame_nonempty clipKey img (byClip : ByClip) :
  ∃ frames, OMap.get clipKey (pushFrame clipKey img byClip) = Some frames
            ∧ frames ≠ [].
Proof.
  unfold pushFrame. rewrite omap_get_upsert_eq. eexists; split; [done|].
  intros H. by apply app_nil in H as [_ ?].
Qed.

Lemma pushFrame_keeps clipKey img (byClip : ByClip) k frames :
  OMap.get k byClip = Some frames → frames ≠ [] →
  ∃ frames', OMap.get k (pushFrame clipKey img byClip) = Some frames'
             ∧ frames' ≠ [].
Proof.
  intros Hget Hne. destruct (decide (clipKey = k)) as [->|Hk].
  - apply pushFrame_nonempty.
  - exists frames. unfold pushFrame. by rewrite omap_get_upsert_ne.
Qed.

Lemma groupFrame_NoDup onlyLabeled acc img :
  NoDup (OMap.keys acc.1) →
  NoDup (OMap.keys (groupFrame onlyLabeled acc img).1).
Proof.
  intros Hnd. unfold groupFrame.
  destruct (getCustomLabel img) as [label|]; [destruct (truthy label)|];
    simpl; try (by destruct onlyLabeled).
  by apply omap_upsert_NoDup.
Qed.

Lemma groupFrame_hasFrames_new onlyLabeled acc img label :
  getCustomLabel img = Some label →
  hasFrames label (groupFrame onlyLabeled acc img).1.
Proof.
  intros Hl. unfold groupFrame. rewrite Hl, (getCustomLabel_truthy _ _ Hl).
  simpl. destruct (pushFrame_nonempty (clipKeyOf img) img
                     (default [] (OMap.get label acc.1))) as (fs & Hfs & Hne).
  exists (pushFrame (clipKeyOf img) img (default [] (OMap.get label acc.1))),
    (clipKeyOf img), fs.
  by rewrite omap_get_upsert_eq.
Qed.

Lemma groupFrame_hasFrames_keep onlyLabeled acc img label :
  hasFrames label acc.1 → hasFrames label (groupFrame onlyLabeled acc img).1.
Proof.
  intros (byClip & k & fs & Hb & Hk & Hne). unfold groupFrame.
  destruct (getCustomLabel img) as [l'|]; [destruct (truthy l')|];
    simpl; try (destruct onlyLabeled; simpl; by exists byClip, k, fs).
  destruct (decide (l' = label)) as [->|Hl].
  - destruct (pushFrame_keeps (clipKeyOf img) img byClip k fs Hk Hne)
      as (fs' & Hfs' & Hne').
    exists (pushFrame (clipKeyOf img) img byClip), k, fs'.
    by rewrite omap_get_upsert_eq, Hb.
  - exists byClip, k, fs. by rewrite omap_get_upsert_ne.
Qed.

Lemma foldl_groupFrame_NoDup onlyLabeled imgs acc :
  NoDup (OMap.keys acc.1) →
  NoDup (OMap.keys (foldl (groupFrame onlyLabeled) acc imgs).1).
Proof.
  revert acc. induction imgs as [|img imgs IH]; intros acc Hnd; simpl; [done|].
  by apply IH, groupFrame_NoDup.
Qed.

Lemma foldl_groupFrame_keep onlyLabeled imgs acc label :
  hasFrames label acc.1 →
  hasFrames label (foldl (groupFrame onlyLabeled) acc imgs).1.
Proof.
  revert acc. induction imgs as [|img imgs IH]; intros acc H; simpl; [done|].
  by apply IH, groupFrame_hasFrames_keep.
Qed.

Lemma foldl_groupFrame_hasFrames onlyLabeled imgs acc img label :
  img ∈ imgs → getCustomLabel img = Some label →
  hasFrames label (foldl (groupFrame onlyLabeled) acc imgs).1.
Proof.
  revert acc. induction imgs as [|i0 imgs IH]; intros acc Hin Hl; simpl.
  - by apply elem_of_nil in Hin.
  - apply elem_of_cons in Hin as [<-|Hin].
    + by apply foldl_groupFrame_keep, groupFrame_hasFrames_new.
    + by apply IH.
Qed.

Lemma sortBy_nonempty {A : Type} (cmp : A → A → Z) (l : list A) :
  l ≠ [] → sortBy cmp l ≠ [].
Proof.
  intros Hne Hs. pose proof (sortBy_Permutation cmp l) as Hp.
  rewrite Hs in Hp. by apply Permutation_nil_l in Hp.
Qed.

Lemma sorted_hasFrames label (byLabel : ByLabel) :
  hasFrames label byLabel →
  hasFrames label ((λ kv, (kv.1, sortByClip localeCompare kv.2)) <$> byLabel).
Proof.
  intros (byClip & k & fs & Hb & Hk & Hne).
  exists (sortByClip localeCompare byClip), k, (sortFrames localeCompare fs).
  split_and!.
  - by rewrite (omap_get_fmap (sortByClip localeCompare)), Hb.
  - unfold sortByClip.
    by rewrite (omap_get_fmap (sortFrames localeCompare)), Hk.
  - by apply sortBy_nonempty.
Qed.

Lemma exportChunks_nonempty label safeLabel clipKey off tot tally chunks :
  chunks ≠ [] →
  (exportChunks' label safeLabel clipKey off tot tally chunks).2 ≠ [].
Proof. by destruct chunks. Qed.

Lemma exportClips_nonempty label safeLabel (byClip : ByClip) off tot tally
    clipKeys k frames :
  k ∈ clipKeys → OMap.get k byClip = Some frames → frames ≠ [] →
  (exportClips' label safeLabel byClip off tot tally clipKeys).2 ≠ [].
Proof.
  intros Hin Hget Hne. revert tot tally.
  induction clipKeys as [|k0 ks IH]; intros tot tally; cbn [exportClips].
  - by apply elem_of_nil in Hin.
  - destruct (Nat.eqb_spec (length (default [] (OMap.get k0 byClip))) 0)
      as [Hz|Hnz].
    + apply elem_of_cons in Hin as [->|Hin]; [|by apply IH].
      rewrite Hget in Hz. simpl in Hz. by destruct frames.
    + cbn [snd]. intros Happ. apply app_nil in Happ as [Happ _].
      revert Happ. apply exportChunks_nonempty, frameChunks_nonempty.
      intros Hd. by rewrite Hd in Hnz.
Qed.

Lemma exportLabels_nonempty label (byLabel : ByLabel) counters tally :
  hasFrames label byLabel →
  ordinalsOf label (exportLabels' byLabel counters tally).2 ≠ [].
Proof.
  intros (byClip & k & fs & Hb & Hk & Hne). revert counters tally.
  induction byLabel as [|[l0 byClip0] rest IH]; intros counters tally; [done|].
  simpl in Hb. cbn [exportLabels]. cbn [snd]. unfold ordinalsOf.
  rewrite filter_app, fmap_app.
  destruct (String.eqb_spec l0 label) as [->|Hl].
  - injection Hb as ->.
    pose proof (exportClips_spec label (toSafePathSegment label) byClip
                  (clipOffset' counters label) 0 tally
                  (sortBy localeCompare (OMap.keys byClip))) as (_ & _ & H3 & _).
    cbn zeta in H3. rewrite (filter_label_all label) by done.
    intros Happ. apply app_nil in Happ as [Happ _].
    apply fmap_nil_inv in Happ. revert Happ.
    apply (exportClips_nonempty _ _ _ _ _ _ _ k fs); [|done..].
    rewrite sortBy_Permutation. by eapply omap_get_Some_key.
  - intros Happ. apply app_nil in Happ as [_ Happ]. revert Happ.
    by apply IH.
Qed.

Local Abbreviation handleExport :=
  (handleExportAnnotatedClips localeCompare fetchBlob imageSize functionText).

(** One successful export, seen from the registry: the label's folders are
    numbered from what its counter reads as, and a counter that read as a
    number has grown by their number. *)
Lemma handleExport_one st st1 zip nclips nframes label :
  handleExport st = (st1, Exported zip nclips nframes) →
  let off := clipOffset' (State.labelClipCounters st) label in
  let o := ordinalsOf label (Zip.clipFolders zip) in
  (labelOccurs label st → o ≠ [])
  ∧ o = Counter.plus off <$> seq 1 (length o)
  ∧ (∀ c : nat, off = Counter.number c →
       clipOffset' (State.labelClipCounters st1) label
       = Counter.number (c + length o))
  ∧ nclips = length (Zip.clipFolders zip).
Proof.
  unfold handleExportAnnotatedClips.
  destruct (length (imagesToExport _ _) =? 0)%nat; [done|].
  intros [= <- <- <- _]. cbn [Zip.clipFolders State.labelClipCounters
    State.setLabelClipCounters fst snd].
  set (grouped := foldl _ _ _).
  destruct (exportLabels_spec label
              ((λ kv, (kv.1, sortByClip localeCompare kv.2)) <$> grouped.1)
              (State.labelClipCounters st) (Tally.mk 0 0)) as (E1 & E2 & E3 & _).
  { rewrite (omap_keys_fmap (λ kv, sortByClip localeCompare kv.2)).
    apply foldl_groupFrame_NoDup. constructor. }
  split_and!; try done.
  intros (img & Hin & Hl).
  apply exportLabels_nonempty, sorted_hasFrames.
  by eapply foldl_groupFrame_hasFrames.
Qed.
End exporter_numbering.

(** C1, as the code runs.  The counters are kept in a plain object, and a
    label that names a method of [Object.prototype] has no counter of its
    own but reads one all the same: the method.  The frame under the label
    [constructor], with nothing on record, goes to a folder whose ordinal is
    not a number but the text of that method followed by 1; that text is
    what the registry then holds, and the next export appends another 1.
    So the second export does not continue at the first one's last ordinal
    plus 1. *)
Theorem export_inherited_label_breaks_numbering
    (localeCompare : string → string → Z) (fetchBlob : string → option N)
    (imageSize : string → option (Z * Z)) (functionText : string → string) :
  let export :=
    handleExportAnnotatedClips localeCompare fetchBlob imageSize functionText in
  let method := functionText "constructor" in
  let first := export Scenario.inherited in
  let second := export first.1 in
  let o1 := ordinalsOf "constructor" (Zip.clipFolders (Scenario.theZip first.2)) in
  let o2 := ordinalsOf "constructor" (Zip.clipFolders (Scenario.theZip second.2)) in
  State.labelClipCounters Scenario.inherited !! "constructor" = None
  ∧ o1 = [Counter.text (method +:+ "1")]
  ∧ ClipFolder.folder <$> Zip.clipFolders (Scenario.theZip first.2)
    = [toSafePathSegment ("constructor" +:+ padStart 2 "0" (method +:+ "1"))]
  ∧ State.labelClipCounters first.1 !! "constructor"
    = Some (Counter.text (method +:+ "1"))
  ∧ o2 = [Counter.text ((method +:+ "1") +:+ "1")]
  ∧ ¬ ∃ a b : nat,
        last o1 = Some (Counter.number a) ∧ head o2 = Some (Counter.number b)
        ∧ b = S a.
Proof.
  cbn zeta.
  assert (H1 : ordinalsOf "constructor"
                 (Zip.clipFolders (Scenario.theZip
                    (handleExportAnnotatedClips localeCompare fetchBlob imageSize
                       functionText Scenario.inherited).2))
               = [Counter.text (functionText "constructor" +:+ "1")])
    by (vm_compute; reflexivity).
  split_and!.
  - reflexivity.
  - exact H1.
  - vm_compute. reflexivity.
  - vm_compute. reflexivity.
  - destruct (functionText "constructor") as [|c m] eqn:E;
      vm_compute; rewrite E; vm_compute; reflexivity.
  - rewrite H1. intros (a & b & Ha & _). discriminate Ha.
Qed.

(** With the text V8 prints, the folder of that frame is called
    [constructorfunction Object() { [native code] }1]. *)
Example export_inherited_label_folder :
  FrameData.clipFolder ∘ FrameOut.json
    <$> (Zip.clipFolders
           (Scenario.theZip
              (handleExportAnnotatedClips Scenario.localeCompare
                 Scenario.fetchBlob Scenario.imageSize Scenario.functionText
                 Scenario.inherited).2)
         ≫= ClipFolder.frames)
  = ["constructorfunction Object() { [native code] }1"].
Proof. vm_compute. reflexivity. Qed.

(** C2. When no frame qualifies for the export (after the only-labelled
    filter), the export stops with [NothingToExport] and the state, the
    clip counter registry included, is exactly what it was. *)
Theorem export_nothing_keeps_registry
    (localeCompare : string → string → Z) (fetchBlob : string → option N)
    (imageSize : string → option (Z * Z)) (functionText : string → string)
    (st : State.t) :
  imagesToExport (State.exportOnlyLabeled st) (State.images st) = [] →
  ∃ message,
    handleExportAnnotatedClips localeCompare fetchBlob imageSize functionText st
      = (st, NothingToExport message)
    ∧ State.labelClipCounters
        (handleExportAnnotatedClips localeCompare fetchBlob imageSize
           functionText st).1
      = State.labelClipCounters st.
Proof.
  intros Hnone. unfold handleExportAnnotatedClips. rewrite Hnone. simpl.
  eexists. split; reflexivity.
Qed.

Lemma export_nothing_keeps_registry_witness :
  ∃ message,
    handleExportAnnotatedClips Scenario.localeCompare Scenario.fetchBlob
      Scenario.imageSize Scenario.functionText Scenario.nothingLabelled
      = (Scenario.nothingLabelled, NothingToExport message)
    ∧ State.labelClipCounters
        (handleExportAnnotatedClips Scenario.localeCompare Scenario.fetchBlob
           Scenario.imageSize Scenario.functionText Scenario.nothingLabelled).1
      = State.labelClipCounters Scenario.nothingLabelled.
Proof.
  apply (export_nothing_keeps_registry Scenario.localeCompare
           Scenario.fetchBlob Scenario.imageSize Scenario.functionText
           Scenario.nothingLabelled).
  vm_compute. reflexivity.
Defined.

(** ** Quick labelling *)

Lemma labelFrame_idemp (label : string) (img : ImageData.t) :
  labelFrame label (labelFrame label img) = labelFrame label img.
Proof.
  unfold labelFrame. cbn [ImageData.file ImageData.url ImageData.detections
    ImageData.frameNumber ImageData.sourceVideo].
  f_equal. rewrite <- list_fmap_compose. by apply list_fmap_ext.
Qed.

(** C9. Applying the same quick label to the current frame twice leaves
    the store (frames with their activity label and detection labels,
    selection, marked set) exactly as applying it once. *)
Theorem applyQuickLabel_idempotent (i : nat) (L : string) (st : State.t) :
  State.currentIndex st = i →
  applyQuickLabel L (applyQuickLabel L st) = applyQuickLabel L st.
Proof.
  intros Hi. unfold applyQuickLabel at 2 3. rewrite Hi.
  destruct (State.images st !! i) as [img|] eqn:Himg.
  - assert (Hlook : <[i := labelFrame L img]> (State.images st) !! i
                    = Some (labelFrame L img)).
    { apply list_lookup_insert_eq. by eapply lookup_lt_Some. }
    destruct (bool_decide (i ∈ State.selectedImages st)) eqn:Hsel.
    + unfold applyQuickLabel.
      cbn [State.currentIndex State.images State.selectedImages
           State.setImages State.setSelectedImages].
      rewrite Hi, Hlook, labelFrame_idemp, list_insert_insert_eq.
      rewrite bool_decide_eq_false_2; [done|].
      apply not_elem_of_difference. right. by apply elem_of_singleton.
    + unfold applyQuickLabel.
      cbn [State.currentIndex State.images State.selectedImages
           State.setImages State.setSelectedImages].
      rewrite Hi, Hlook, labelFrame_idemp, list_insert_insert_eq, Hsel. done.
  - unfold applyQuickLabel. by rewrite Hi, Himg.
Qed.

Lemma applyQuickLabel_idempotent_witness :
  applyQuickLabel "Welding" (applyQuickLabel "Welding" Scenario.marked)
  = applyQuickLabel "Welding" Scenario.marked.
Proof.
  apply (applyQuickLabel_idempotent 1 "Welding" Scenario.marked).
  reflexivity.
Defined.

(** ** The fallback label of the exporter *)

Lemma firstCustomDetectionLabel_Some dets l :
  firstCustomDetectionLabel dets = Some l →
  isCustomLabel l = true ∧ ∃ d, d ∈ dets ∧ trim (Detection.label d) = l.
Proof.
  induction dets as [|d dets IH]; simpl; [done|].
  destruct (isCustomLabel (trim (Detection.label d))) eqn:E.
  - intros [= <-]. split; [done|]. exists d. split; [by left | done].
  - intros H. destruct (IH H) as (? & d' & ? & ?).
    split; [done|]. exists d'. split; [by right | done].
Qed.

Lemma firstCustomDetectionLabel_None dets :
  Forall (λ d, toLowerCase (trim (Detection.label d)) ∈ cocoLabels) dets →
  firstCustomDetectionLabel dets = None.
Proof.
  induction 1 as [|d dets Hd _ IH]; simpl; [done|].
  unfold isCustomLabel. rewrite (bool_decide_eq_true_2 _ Hd).
  by rewrite andb_false_r.
Qed.

(** C10. When a frame has no explicit activity label, the label derived
    from its detections is compared with the detector classes after
    lower-casing: whatever is returned is not a class name in any
    capitalisation; a frame whose detection labels are all class names (in
    any capitalisation, with or without surrounding blanks) yields no
    label; the adapter's capitalised class names are such labels; and the
    list has 80 classes, all in lower case. *)
Theorem getCustomLabel_fallback_skips_coco (img : ImageData.t) :
  trim (default "" (ImageData.activityLabel img)) = "" →
  (∀ l, getCustomLabel img = Some l →
        l ≠ "" ∧ (toLowerCase l ∉ cocoLabels)
        ∧ ∃ d, d ∈ ImageData.detections img ∧ trim (Detection.label d) = l)
  ∧ (Forall (λ d, toLowerCase (trim (Detection.label d)) ∈ cocoLabels)
       (ImageData.detections img) → getCustomLabel img = None)
  ∧ Forall (λ c, toLowerCase (trim (capitalize c)) ∈ cocoLabels
                 ∧ toLowerCase c = c) cocoClasses
  ∧ length cocoClasses = 80%nat.
Proof.
  intros Hexp. unfold getCustomLabel. rewrite Hexp. simpl.
  split_and!.
  - intros l Hl. apply firstCustomDetectionLabel_Some in Hl as (Hc & Hd).
    unfold isCustomLabel in Hc. apply andb_true_iff in Hc as [Ht Hn].
    apply truthy_true in Ht. apply negb_true_iff, bool_decide_eq_false in Hn.
    done.
  - apply firstCustomDetectionLabel_None.
  - assert (H : bool_decide
                 (Forall (λ c, toLowerCase (trim (capitalize c)) ∈ cocoLabels
                               ∧ toLowerCase c = c) cocoClasses) = true)
      by (vm_compute; reflexivity).
    by apply bool_decide_eq_true in H.
  - reflexivity.
Qed.

Lemma getCustomLabel_fallback_skips_coco_witness :
  getCustomLabel Scenario.mixed = Some "Welding"
  ∧ ∀ l, getCustomLabel Scenario.mixed = Some l →
         l ≠ "" ∧ (toLowerCase l ∉ cocoLabels)
         ∧ ∃ d, d ∈ ImageData.detections Scenario.mixed
                ∧ trim (Detection.label d) = l.
Proof.
  split; [vm_compute; reflexivity|].
  apply (getCustomLabel_fallback_skips_coco Scenario.mixed).
  vm_compute. reflexivity.
Defined.

(** ** The detector adapter *)

Lemma hasArea_true (det : Detection.t) :
hasArea det = true → (0 < Detection.width det)%Q ∧ (0 < Detection.height det)%Q.
Proof.
unfold hasArea. intros [Hw Hh]%andb_true_iff.
apply negb_true_iff in Hw, Hh. split; apply Qnot_le_lt; intros Hle;
  apply Qle_bool_iff in Hle; congruence.
Qed.

Lemma padPrediction_in_bounds (pad : Q) (imgWidth imgHeight : Z) (pred : Prediction.t) :
let det := padPrediction pad imgWidth imgHeight pred in
(0 <= Detection.x det)%Q ∧ (0 <= Detection.y det)%Q
∧ (Detection.x det + Detection.width det <= inject_Z imgWidth)%Q
∧ (Detection.y det + Detection.height det <= inject_Z imgHeight)%Q
∧ Detection.confidence det = Prediction.score pred.
Proof.
unfold padPrediction. cbn [Detection.x Detection.y Detection.width
  Detection.height Detection.confidence].
set (padding := (Prediction.bw pred * (pad / 100))%Q).
split_and!.
- apply Q.le_max_l.
- apply Q.le_max_l.
- pose proof (Q.le_min_r (Prediction.bw pred + padding * 2)
    (inject_Z imgWidth - Qmax 0 (Prediction.bx pred - padding))). lra.
- pose proof (Q.le_min_r (Prediction.bh pred)
    (inject_Z imgHeight - Qmax 0 (Prediction.by_ pred))). lra.
- reflexivity.
Qed.

(** C5. Whatever the adapter returns lies inside the picture it was
    computed for, has positive width and height, and a confidence of at
    least the threshold; without a model or a decodable picture it returns
    nothing. *)
Theorem detectObjects_in_bounds
  (decodeImage : File.t → option (Z * Z)) (model : option ObjectDetection)
  (boundingBoxPadding : Q) (imageFile : File.t) (threshold : Q) :
match decodeImage imageFile with
| Some (imageWidth, imageHeight) =>
    Forall (λ det,
      (0 <= Detection.x det)%Q ∧ (0 <= Detection.y det)%Q
      ∧ (Detection.x det + Detection.width det <= inject_Z imageWidth)%Q
      ∧ (Detection.y det + Detection.height det <= inject_Z imageHeight)%Q
      ∧ (0 < Detection.width det)%Q ∧ (0 < Detection.height det)%Q
      ∧ (threshold <= Detection.confidence det)%Q)
      (detectObjects decodeImage model boundingBoxPadding imageFile threshold)
| None =>
    detectObjects decodeImage model boundingBoxPadding imageFile threshold = []
end.
Proof.
unfold detectObjects. destruct model as [m|].
2: { destruct (decodeImage imageFile) as [[w h]|]; [constructor | done]. }
destruct (decodeImage imageFile) as [[w h]|]; [|done].
apply Forall_forall. intros det [Harea Hin]%list_elem_of_filter.
apply list_elem_of_fmap in Hin as (pred & -> & Hpred).
apply list_elem_of_filter in Hpred as [Hscore _].
apply hasArea_true in Harea as [Hw Hh].
destruct (padPrediction_in_bounds boundingBoxPadding w h pred)
  as (Hx & Hy & Hxw & Hyh & Hc).
split_and!; try done.
rewrite Hc. by apply Qle_bool_iff.
Qed.

Example detectObjects_scenario :
(λ d, (Detection.label d, Qred (Detection.x d), Qred (Detection.width d)))
  <$> detectObjects Scenario.decodeImage (Some Scenario.detector) 15
        (File.mk "f.jpg" 0) (1 # 2)
= [("Person", 585, 55); ("Bicycle", 5 # 2, 65)]%Q.
Proof. vm_compute. reflexivity. Qed.

(** ** Detecting again *)

Section redetect.
Variable decodeImage : File.t → option (Z * Z).

Lemma redetectFrame_keeps (st : State.t) (img : ImageData.t) :
let img' := redetectFrame decodeImage st img in
ImageData.activityLabel img' = ImageData.activityLabel img
∧ ImageData.file img' = ImageData.file img
∧ ImageData.url img' = ImageData.url img
∧ ImageData.frameNumber img' = ImageData.frameNumber img
∧ ImageData.sourceVideo img' = ImageData.sourceVideo img.
Proof. done. Qed.

Lemma handleRedetect_activityLabels (st : State.t) :
ImageData.activityLabel <$> State.images (handleRedetect decodeImage st)
= ImageData.activityLabel <$> State.images st.
Proof.
unfold handleRedetect. destruct (State.model st); [|done].
destruct (length (State.images st) =? 0)%nat; [done|].
cbn [State.images State.setImages State.setSelectedDetection].
rewrite <- list_fmap_compose. by apply list_fmap_ext.
Qed.

Lemma keepActivityLabel_lookup (keep : string) (dets : list Detection.t)
  (k : nat) (d : Detection.t) :
keep ≠ "" → dets !! k = Some d →
keepActivityLabel keep dets !! k
= Some (if isPerson d then Detection.with_label keep d else d).
Proof.
intros Hkeep Hd. unfold keepActivityLabel.
rewrite (proj2 (truthy_true keep) Hkeep).
by rewrite list_lookup_fmap, Hd.
Qed.

(** C4, as the code has it.  Detecting again never changes the activity
    label of a frame (nor its picture, number and clip), and it replaces the
    boxes of every frame by the boxes of the new detection, none of the old
    ones is kept.  When the activity label, stripped of surrounding white
    space, is not empty, the new boxes are those of the detection in their
    order, each box of class person with the stripped label in place of the
    class name and every other box as detected; so every box of the frame
    then either carries the stripped label or is not a person box.  When
    the stripped label is empty the boxes are left as detected. *)
Theorem handleRedetect_keeps_labels (st : State.t) :
(ImageData.activityLabel <$> State.images (handleRedetect decodeImage st)
 = ImageData.activityLabel <$> State.images st)
∧ ∀ (m : ObjectDetection) (i : nat) (img : ImageData.t),
    State.model st = Some m →
    State.images st !! i = Some img →
    ∃ img',
      State.images (handleRedetect decodeImage st) !! i = Some img'
      ∧ ImageData.activityLabel img' = ImageData.activityLabel img
      ∧ let keepLabel := trim (default "" (ImageData.activityLabel img)) in
        let detected :=
          detectObjects decodeImage (State.model st)
            (State.boundingBoxPadding st) (ImageData.file img)
            (State.confidenceThreshold st) in
        (keepLabel ≠ "" →
           ImageData.detections img'
           = (λ d, if isPerson d then Detection.with_label keepLabel d else d)
               <$> detected
           ∧ Forall (λ d', Detection.label d' = keepLabel ∨ isPerson d' = false)
               (ImageData.detections img'))
        ∧ (keepLabel = "" → ImageData.detections img' = detected).
Proof.
split; [apply handleRedetect_activityLabels|].
intros m i img Hm Himg.
exists (redetectFrame decodeImage st img). unfold handleRedetect. rewrite Hm.
destruct (Nat.eqb_spec (length (State.images st)) 0) as [Hz|_].
{ apply lookup_lt_Some in Himg. lia. }
cbn [State.images State.setImages State.setSelectedDetection].
split_and!.
- by rewrite list_lookup_fmap, Himg.
- done.
- intros Hkeep. unfold redetectFrame, keepActivityLabel.
  cbn [ImageData.detections ImageData.with_detections].
  rewrite Hm, (proj2 (truthy_true _) Hkeep). split; [done|].
  apply Forall_fmap, Forall_forall. intros d _. unfold compose.
  destruct (isPerson d) eqn:Hp; [by left | by right].
- intros Hkeep. unfold redetectFrame, keepActivityLabel.
  cbn [ImageData.detections ImageData.with_detections].
  by rewrite Hm, Hkeep.
Qed.
End redetect.

Lemma handleRedetect_keeps_labels_witness :
∃ img',
  State.images (handleRedetect Scenario.decodeImage Scenario.spaced) !! 0%nat
  = Some img'
  ∧ ImageData.activityLabel img' = Some "Welding "
  ∧ Detection.label <$> ImageData.detections img' = ["Welding"; "Bicycle"].
Proof.
destruct (proj2 (handleRedetect_keeps_labels Scenario.decodeImage
                   Scenario.spaced)
            Scenario.detector 0%nat
            (Scenario.frame 1 "a01" (Some "Welding ") [])
            eq_refl eq_refl) as (img' & Hlook & Hlabel & Hdet & _).
exists img'. split; [exact Hlook|]. split; [exact Hlabel|].
destruct (Hdet ltac:(vm_compute; discriminate)) as [-> _].
vm_compute. reflexivity.
Defined.

(** The claim read literally (whenever the activity label is a non-empty
    string, every box the detection finds of class person is stored with
    that very label) fails: a label with a trailing blank comes back
    without it, and under a label that is only a blank the box keeps the
    class name of the detector. *)
Lemma redetect_label_verbatim_counterexample :
¬ (∀ i img img' L,
     State.images Scenario.spaced !! i = Some img →
     State.images (handleRedetect Scenario.decodeImage Scenario.spaced) !! i
     = Some img' →
     ImageData.activityLabel img' = Some L → L ≠ "" →
     Forall2 (λ d d', isPerson d = true → Detection.label d' = L)
       (detectObjects Scenario.decodeImage (State.model Scenario.spaced)
          (State.boundingBoxPadding Scenario.spaced) (ImageData.file img)
          (State.confidenceThreshold Scenario.spaced))
       (ImageData.detections img')).
Proof.
intros H.
specialize (H 1%nat (Scenario.frame 2 "a01" (Some " ") [])
              (redetectFrame Scenario.decodeImage Scenario.spaced
                 (Scenario.frame 2 "a01" (Some " ") []))
              " " eq_refl eq_refl eq_refl ltac:(discriminate)).
vm_compute in H. inversion H as [|d d' l l' Hd _]; subst.
specialize (Hd eq_refl). discriminate Hd.
Qed.

(** ** Exporter: what a descriptor says and where it is put *)

Section exporter_descriptors.
Variable localeCompare : string → string → Z.
Variable fetchBlob : string → option N.
Variable imageSize : string → option (Z * Z).
Variable functionText : string → string.

Local Abbreviation exportChunk' := (exportChunk fetchBlob imageSize).
Local Abbreviation exportChunks' := (exportChunks fetchBlob imageSize).
Local Abbreviation exportClips' := (exportClips fetchBlob imageSize).
Local Abbreviation exportLabels' :=
  (exportLabels localeCompare fetchBlob imageSize functionText).

Lemma exportChunk_named label clipKey n total chunk :
namedAfter label
  (exportChunk' label (toSafePathSegment label) clipKey n total chunk).2.
Proof.
unfold namedAfter.
destruct (exportChunk_frames fetchBlob imageSize label (toSafePathSegment label)
            clipKey n total chunk) as [Hf _].
rewrite Hf. unfold exportChunk. cbn [snd ClipFolder.jpgRoot ClipFolder.jsonRoot
  ClipFolder.folder ClipFolder.clipNumber].
split_and!; try done.
apply Forall_forall. intros fo Hfo.
apply elem_of_lookup_imap in Hfo as (i & img & -> & _). done.
Qed.

Lemma exportChunks_named label clipKey off tot tally chunks :
Forall (namedAfter label)
  (exportChunks' label (toSafePathSegment label) clipKey off tot tally chunks).2.
Proof.
revert tot tally. induction chunks as [|c cs IH]; intros tot tally;
  cbn [exportChunks snd].
- constructor.
- constructor; [apply exportChunk_named | apply IH].
Qed.

Lemma exportClips_named label byClip off tot tally clipKeys :
Forall (namedAfter label)
  (exportClips' label (toSafePathSegment label) byClip off tot tally clipKeys).2.
Proof.
revert tot tally. induction clipKeys as [|k ks IH]; intros tot tally;
  cbn [exportClips].
- constructor.
- destruct (length (default [] (OMap.get k byClip)) =? 0)%nat; [apply IH|].
  cbn [snd]. apply Forall_app. split; [apply exportChunks_named | apply IH].
Qed.

Lemma exportLabels_named byLabel counters tally :
Forall (λ cf, ∃ label, label ∈ OMap.keys byLabel ∧ namedAfter label cf)
  (exportLabels' byLabel counters tally).2.
Proof.
revert counters tally. induction byLabel as [|[l0 byClip] rest IH];
  intros counters tally; cbn [exportLabels snd].
- constructor.
- apply Forall_app. split.
  + eapply Forall_impl; [apply exportClips_named|].
    intros cf Hcf. exists l0. split; [by left | done].
  + eapply Forall_impl; [apply IH|].
    intros cf (l & Hl & Hcf). exists l. split; [by right | done].
Qed.

Lemma groupFrame_keys_truthy onlyLabeled acc img :
Forall (λ l, l ≠ "") (OMap.keys acc.1) →
Forall (λ l, l ≠ "") (OMap.keys (groupFrame onlyLabeled acc img).1).
Proof.
intros Hacc. unfold groupFrame.
destruct (getCustomLabel img) as [label|]; [destruct (truthy label) eqn:Ht|];
  simpl; try (by destruct onlyLabeled).
rewrite omap_keys_upsert. case_decide; [done|].
apply Forall_app. split; [done|]. constructor; [|constructor].
by apply truthy_true.
Qed.

Lemma foldl_groupFrame_keys_truthy onlyLabeled imgs acc :
Forall (λ l, l ≠ "") (OMap.keys acc.1) →
Forall (λ l, l ≠ "") (OMap.keys (foldl (groupFrame onlyLabeled) acc imgs).1).
Proof.
revert acc. induction imgs as [|img imgs IH]; intros acc H; simpl; [done|].
by apply IH, groupFrame_keys_truthy.
Qed.

(** C8, as the code has it.  Every JSON descriptor an export writes has a
    non-empty [activityLabel], and the folders it is written to are named
    after the path-safe form of that label: [<safe> labeld/<safe><NN>/].
    Descriptor and folder show the same label when making the label
    path-safe changes nothing. *)
Theorem export_descriptor_label_names_folder
  (st st1 : State.t) (zip : Zip.t) (nclips nframes : nat)
  (cf : ClipFolder.t) (fo : FrameOut.t) :
handleExportAnnotatedClips localeCompare fetchBlob imageSize functionText st
= (st1, Exported zip nclips nframes) →
cf ∈ Zip.clipFolders zip →
fo ∈ ClipFolder.frames cf →
let L := FrameData.activityLabel (FrameOut.json fo) in
L ≠ ""
∧ ClipFolder.jsonRoot cf = toSafePathSegment L +:+ " labeld"
∧ ClipFolder.folder cf
  = toSafePathSegment (toSafePathSegment L +:+ pad2 (ClipFolder.clipNumber cf))
∧ FrameData.clipFolder (FrameOut.json fo)
  = toSafePathSegment L +:+ pad2 (ClipFolder.clipNumber cf)
∧ (toSafePathSegment L = L → ClipFolder.jsonRoot cf = L +:+ " labeld").
Proof.
unfold handleExportAnnotatedClips.
destruct (length (imagesToExport _ _) =? 0)%nat; [done|].
intros [= _ <- _ _] Hcf Hfo. cbn [Zip.clipFolders] in Hcf.
set (grouped := foldl _ _ _) in Hcf.
pose proof (exportLabels_named
  ((λ kv, (kv.1, sortByClip localeCompare kv.2)) <$> grouped.1)
  (State.labelClipCounters st) (Tally.mk 0 0)) as Hall.
rewrite Forall_forall in Hall. destruct (Hall cf Hcf) as (l & Hl & Hn).
rewrite (omap_keys_fmap (λ kv, sortByClip localeCompare kv.2)) in Hl.
assert (Hne : l ≠ "").
{ pose proof (foldl_groupFrame_keys_truthy (State.exportOnlyLabeled st)
    (imagesToExport (State.exportOnlyLabeled st) (State.images st)) ([], [])
    ltac:(constructor)) as Hk.
  rewrite Forall_forall in Hk. by apply Hk. }
destruct Hn as (_ & Hjson & Hfolder & Hframes).
rewrite Forall_forall in Hframes. destruct (Hframes fo Hfo) as [HL Hc].
cbn zeta. rewrite HL. split_and!; try done.
intros Hsafe. by rewrite Hjson, Hsafe.
Qed.
End exporter_descriptors.

Lemma export_descriptor_label_names_folder_witness :
∃ cf fo,
  Zip.clipFolders (Scenario.theZip Scenario.exportSlashed.2) !! 0%nat = Some cf
  ∧ ClipFolder.frames cf !! 0%nat = Some fo
  ∧ FrameData.activityLabel (FrameOut.json fo) = "Putzen/Nacharbeiten"
  ∧ ClipFolder.jsonRoot cf
    = toSafePathSegment (FrameData.activityLabel (FrameOut.json fo)) +:+ " labeld".
Proof.
assert (H : handleExportAnnotatedClips Scenario.localeCompare
              Scenario.fetchBlob Scenario.imageSize Scenario.functionText
              Scenario.slashed
            = (Scenario.exportSlashed.1,
               Exported (Scenario.theZip Scenario.exportSlashed.2) 1 1))
  by (vm_compute; reflexivity).
destruct (Zip.clipFolders (Scenario.theZip Scenario.exportSlashed.2) !! 0%nat)
  as [cf|] eqn:Hcf; [|vm_compute in Hcf; discriminate Hcf].
destruct (ClipFolder.frames cf !! 0%nat) as [fo|] eqn:Hfo.
2: { vm_compute in Hcf. injection Hcf as <-. vm_compute in Hfo. discriminate Hfo. }
exists cf, fo. split; [reflexivity|]. split; [exact Hfo|].
split.
- vm_compute in Hcf. injection Hcf as <-. vm_compute in Hfo.
  injection Hfo as <-. reflexivity.
- apply (export_descriptor_label_names_folder Scenario.localeCompare
           Scenario.fetchBlob Scenario.imageSize Scenario.functionText
           _ _ _ _ _ cf fo H).
  + by eapply list_elem_of_lookup_2.
  + by eapply list_elem_of_lookup_2.
Defined.

(** The claim read literally (the descriptor's label is the folder's
    label) fails for the preset label with a slash: the folder is named
    with a full-width slash. *)
Lemma export_descriptor_label_counterexample :
¬ (∀ cf fo,
     cf ∈ Zip.clipFolders (Scenario.theZip Scenario.exportSlashed.2) →
     fo ∈ ClipFolder.frames cf →
     FrameData.activityLabel (FrameOut.json fo) ≠ ""
     ∧ ClipFolder.jsonRoot cf
       = FrameData.activityLabel (FrameOut.json fo) +:+ " labeld").
Proof.
intros H.
destruct (Zip.clipFolders (Scenario.theZip Scenario.exportSlashed.2) !! 0%nat)
  as [cf|] eqn:Hcf; [|vm_compute in Hcf; discriminate Hcf].
destruct (ClipFolder.frames cf !! 0%nat) as [fo|] eqn:Hfo.
2: { vm_compute in Hcf. injection Hcf as <-. vm_compute in Hfo. discriminate Hfo. }
destruct (H cf fo) as [_ Heq].
- by eapply list_elem_of_lookup_2.
- by eapply list_elem_of_lookup_2.
- vm_compute in Hcf. injection Hcf as <-. vm_compute in Hfo.
  injection Hfo as <-. vm_compute in Heq. discriminate Heq.
Qed.

(** ** Blur marking *)

Lemma bind_all_nil {A B : Type} (l : list A) :
l ≫= (λ _, @nil B) = [].
Proof. induction l as [|a l IH]; [done|]. by rewrite bind_cons, IH. Qed.

Lemma laplacians_degenerate (canvas : Canvas.t) (d : Detection.t) :
(safeWidth canvas d <= 2 ∨ safeHeight canvas d <= 2)%Z →
laplacians canvas d = [].
Proof.
intros [Hw|Hh]; unfold laplacians.
- replace (Z.to_nat (safeWidth canvas d) - 2)%nat with 0%nat by lia.
  cbn [seq]. apply bind_all_nil.
- by replace (Z.to_nat (safeHeight canvas d) - 2)%nat with 0%nat by lia.
Qed.

Lemma detectMotionBlur_degenerate (canvas : Canvas.t) (d : Detection.t) :
(safeWidth canvas d <= 2 ∨ safeHeight canvas d <= 2)%Z →
detectMotionBlur canvas d = 999%Q.
Proof.
intros Hdeg. unfold detectMotionBlur.
destruct (_ || _); [done|]. by rewrite laplacians_degenerate.
Qed.

Lemma allBlurry_spec (canvas : Canvas.t) (thr : Q) (dets : list Detection.t) :
allBlurry canvas thr dets = true
↔ Forall (λ d, (detectMotionBlur canvas d < thr)%Q) dets.
Proof.
induction dets as [|d dets IH]; simpl.
- split; [constructor | done].
- destruct (Qle_bool thr (detectMotionBlur canvas d)) eqn:E.
  + split; [done|]. intros [Hlt _]%Forall_cons.
    apply Qle_bool_iff in E. apply Qlt_not_le in Hlt. done.
  + rewrite IH, Forall_cons. split; [|tauto].
    intros H. split; [|done]. apply Qnot_le_lt. intros Hle.
    apply Qle_bool_iff in Hle. congruence.
Qed.

Section chunk_marking.
Variable videoFrame : Q → Canvas.t.
Variable enhanceFrame : Canvas.t → Q → Canvas.t.
Variable toBlob : Canvas.t → N.
Variable decodeImage : File.t → option (Z * Z).
Variable createObjectURL : N → string.

Local Abbreviation personDetections' :=
  (personDetections enhanceFrame toBlob decodeImage).
Local Abbreviation chunkStep' :=
  (chunkStep enhanceFrame toBlob decodeImage createObjectURL).
Local Abbreviation chunkLoop' :=
  (chunkLoop videoFrame enhanceFrame toBlob decodeImage createObjectURL).
Local Abbreviation extractFramesFromChunk' :=
  (extractFramesFromChunk videoFrame enhanceFrame toBlob decodeImage
     createObjectURL).
Local Abbreviation chunkInv' :=
  (chunkInv videoFrame enhanceFrame toBlob decodeImage).

Lemma chunkStep_inv st videoName startTime offset acc (i : nat) :
chunkInv' st videoName startTime offset acc →
chunkInv' st videoName startTime offset
  (chunkStep' st videoName acc (offset + i)%nat
     (videoFrame (startTime + inject_Z (Z.of_nat i) * State.frameInterval st)%Q)).
Proof.
intros [Hbound Hframes]. unfold chunkStep.
set (canvas := videoFrame _).
set (persons := personDetections _ _ _ _ _ _ _).
destruct (Nat.ltb_spec 0 (length persons)) as [Hpos|_]; [|by split].
assert (Hpersons : persons ≠ [])
  by (intros Hnil; rewrite Hnil in Hpos; simpl in Hpos; lia).
set (frame := ImageData.mk _ _ _ _ _ _).
assert (Hfresh : length acc.1 ∉ acc.2).
{ intros Hin. rewrite Forall_forall in Hbound. specialize (Hbound _ Hin). lia. }
split; cbn [fst snd].
- rewrite length_app. cbn [length].
  destruct (State.filterMotionBlur st && allBlurry canvas _ persons).
  + apply Forall_app. split.
    * eapply Forall_impl; [exact Hbound|]. intros j Hj. simpl in Hj. lia.
    * constructor; [lia | constructor].
  + eapply Forall_impl; [exact Hbound|]. intros j Hj. simpl in Hj. lia.
- intros j fr Hj.
  destruct (decide (j < length acc.1)%nat) as [Hlt|Hge].
  + rewrite lookup_app_l in Hj by done.
    destruct (Hframes j fr Hj) as (i' & Hnum & Hsrc & Hblob & Hdet & Hne & Hiff).
    exists i'. cbn zeta. split_and!; try done.
    rewrite <- Hiff.
    destruct (State.filterMotionBlur st && allBlurry canvas _ persons); [|done].
    rewrite elem_of_app, list_elem_of_singleton. split; [|tauto].
    intros [? | ->]; [done | lia].
  + assert (j = length acc.1) as ->.
    { apply lookup_lt_Some in Hj. rewrite length_app in Hj. simpl in Hj. lia. }
    rewrite lookup_app_r, Nat.sub_diag in Hj by done.
    injection Hj as <-. exists i.
    cbn [ImageData.frameNumber ImageData.detections ImageData.sourceVideo
         ImageData.file File.blob frame].
    cbn zeta. split_and!; try done.
    destruct (State.filterMotionBlur st) eqn:Hf; cbn [andb].
    * destruct (allBlurry canvas (State.blurThreshold st) persons) eqn:Hb.
      -- rewrite elem_of_app, list_elem_of_singleton.
         apply (proj1 (allBlurry_spec _ _ _)) in Hb. tauto.
      -- split; [done|]. intros [_ Hall].
         apply (proj2 (allBlurry_spec _ _ _)) in Hall. unfold canvas in Hb.
         congruence.
    * split; [done | by intros [? _]].
Qed.

Lemma chunkLoop_inv st videoName startTime endTime offset indices acc :
chunkInv' st videoName startTime offset acc →
chunkInv' st videoName startTime offset
  (chunkLoop' st videoName startTime endTime offset indices acc).
Proof.
revert acc. induction indices as [|i rest IH]; intros acc Hinv; simpl; [done|].
destruct (Qlt_bool endTime _); [done|]. by apply IH, chunkStep_inv.
Qed.

Lemma extractFramesFromChunk_inv st videoName startTime endTime offset :
chunkInv' st videoName startTime offset
  (extractFramesFromChunk' st videoName startTime endTime offset).
Proof.
apply chunkLoop_inv. split; [constructor|]. intros j frame Hj. done.
Qed.

(** The loop only ever appends frames. *)
Lemma chunkStep_prefix st videoName acc frameNumber canvas :
acc.1 `prefix_of` (chunkStep' st videoName acc frameNumber canvas).1.
Proof.
unfold chunkStep. destruct (0 <? length _)%nat; [|done].
cbn [fst]. by apply prefix_app_r.
Qed.

Lemma chunkLoop_prefix st videoName startTime endTime offset indices acc :
acc.1 `prefix_of`
  (chunkLoop' st videoName startTime endTime offset indices acc).1.
Proof.
revert acc. induction indices as [|i rest IH]; intros acc; simpl; [done|].
destruct (Qlt_bool endTime _); [done|].
etransitivity; [apply chunkStep_prefix | apply IH].
Qed.

(** A sampling index that is reached, with a person on its frame, leaves a
    frame in the result. *)
Lemma chunkLoop_keeps st videoName startTime endTime offset indices acc (i : nat) :
i ∈ indices →
Forall (λ i', (startTime + inject_Z (Z.of_nat i') * State.frameInterval st
               <= endTime)%Q) indices →
personDetections' st videoName (offset + i)
  (videoFrame (startTime + inject_Z (Z.of_nat i) * State.frameInterval st)%Q) ≠ [] →
∃ frame,
  frame ∈ (chunkLoop' st videoName startTime endTime offset indices acc).1
  ∧ ImageData.frameNumber frame = Some (offset + i)%nat.
Proof.
revert acc. induction indices as [|i0 rest IH]; intros acc Hin Hall Hperson.
{ by apply elem_of_nil in Hin. }
apply Forall_cons in Hall as [Hi0 Hall]. cbn [chunkLoop].
unfold Qlt_bool.
replace (Qle_bool (startTime + inject_Z (Z.of_nat i0) * State.frameInterval st)
           endTime) with true by (symmetry; by apply Qle_bool_iff).
cbn [negb].
apply elem_of_cons in Hin as [->|Hin]; [|by apply IH].
set (stepped := chunkStep' _ _ _ _ _).
assert (Hnew : ∃ frame, frame ∈ stepped.1
                 ∧ ImageData.frameNumber frame = Some (offset + i0)%nat).
{ unfold stepped, chunkStep.
  destruct (Nat.ltb_spec 0 (length (personDetections' st videoName (offset + i0)
     (videoFrame (startTime + inject_Z (Z.of_nat i0) * State.frameInterval st)%Q))))
    as [_|Hz].
  - eexists. split; [cbn [fst]; apply elem_of_app; right; apply list_elem_of_here|].
    done.
  - destruct (personDetections' _ _ _ _); [done | cbn in Hz; lia]. }
destruct Hnew as (frame & Hin & Hnum). exists frame. split; [|done].
eapply elem_of_prefix; [exact Hin | apply chunkLoop_prefix].
Qed.

(** Which frames are kept does not depend on the blur filter. *)
Lemma chunkLoop_frames_same st st' videoName startTime endTime offset indices
  acc acc' :
State.frameInterval st' = State.frameInterval st →
(∀ n canvas, personDetections' st' videoName n canvas
             = personDetections' st videoName n canvas) →
acc'.1 = acc.1 →
(chunkLoop' st' videoName startTime endTime offset indices acc').1
= (chunkLoop' st videoName startTime endTime offset indices acc).1.
Proof.
intros Hiv Hp. revert acc acc'.
induction indices as [|i rest IH]; intros acc acc' Hacc; cbn [chunkLoop]; [done|].
rewrite Hiv. destruct (Qlt_bool endTime _); [done|].
apply IH. unfold chunkStep. rewrite Hp.
destruct (0 <? length _)%nat; [|done]. cbn [fst]. by rewrite Hacc.
Qed.

(** C6. Of the frames one chunk samples, exactly those with a person on
    them are kept, blurred or not: every sampling time up to the end of the
    chunk whose frame shows a person leaves a frame, and which frames are
    kept does not depend on the blur filter or its threshold.  A kept frame
    holds the person boxes found on its picture (the boxes of the detector
    whose label, in lower case, is person) and no other box.  With the
    filter on it is marked exactly when every one of these person boxes
    scores strictly below the threshold on the frame as drawn; one box at or
    above the threshold leaves it unmarked; with the filter off nothing is
    marked.  A marked index always is the index of a kept frame.  A region
    with no area or no interior scores 999, and so, for a threshold of at
    most 999 (the slider stops at 300), a frame with such a box is not
    marked. *)
Theorem blurry_frames_marked_not_dropped
  (st : State.t) (videoName : string) (startTime endTime : Q) (offset : nat) :
let r := extractFramesFromChunk' st videoName startTime endTime offset in
let time := λ i : nat,
  (startTime + inject_Z (Z.of_nat i) * State.frameInterval st)%Q in
let persons := λ i : nat,
  personDetections' st videoName (offset + i)%nat (videoFrame (time i)) in
(∀ j, j ∈ r.2 → is_Some (r.1 !! j))
∧ (∀ j frame,
     r.1 !! j = Some frame →
     ∃ i : nat,
       let canvas := videoFrame (time i) in
       ImageData.frameNumber frame = Some (offset + i)%nat
       ∧ File.blob (ImageData.file frame) = toBlob canvas
       ∧ ImageData.detections frame = persons i
       ∧ Forall (λ d, isPerson d = true) (persons i)
       ∧ persons i ≠ []
       ∧ (j ∈ r.2 ↔
          State.filterMotionBlur st = true
          ∧ Forall (λ d, (detectMotionBlur canvas d < State.blurThreshold st)%Q)
              (persons i))
       ∧ (Exists (λ d, (State.blurThreshold st <= detectMotionBlur canvas d)%Q)
            (persons i) → j ∉ r.2)
       ∧ ((State.blurThreshold st <= 999)%Q →
          Exists (λ d, (safeWidth canvas d <= 2 ∨ safeHeight canvas d <= 2)%Z)
            (persons i) → j ∉ r.2))
∧ ((0 <= State.frameInterval st)%Q →
   ∀ i : nat,
     (Z.of_nat i <= Qfloor ((endTime - startTime) / State.frameInterval st))%Z →
     (time i <= endTime)%Q → persons i ≠ [] →
     ∃ frame, frame ∈ r.1 ∧ ImageData.frameNumber frame = Some (offset + i)%nat)
∧ (∀ (filterMotionBlur : bool) (blurThreshold : Q),
     (extractFramesFromChunk'
        (State.setFilterMotionBlur filterMotionBlur
           (State.setBlurThreshold blurThreshold st))
        videoName startTime endTime offset).1 = r.1)
∧ (∀ canvas d,
     (safeWidth canvas d <= 2 ∨ safeHeight canvas d <= 2)%Z →
     detectMotionBlur canvas d = 999%Q).
Proof.
intros r time persons.
destruct (extractFramesFromChunk_inv st videoName startTime endTime offset)
  as [Hbound Hframes].
fold r in Hbound, Hframes. split_and!.
- intros j Hj. apply lookup_lt_is_Some. rewrite Forall_forall in Hbound.
  by apply Hbound.
- intros j frame Hj.
  destruct (Hframes j frame Hj) as (i & Hnum & Hsrc & Hblob & Hdet & Hne & Hiff).
  exists i. cbn zeta. fold (time i) in Hblob, Hdet, Hiff.
  fold (persons i) in Hdet. rewrite Hdet in Hiff, Hne.
  split_and!; try done.
  + unfold persons, personDetections. apply Forall_forall.
    by intros d [Hd _]%list_elem_of_filter.
  + intros Hex Hin. apply Hiff in Hin as [_ Hall].
    apply Exists_exists in Hex as (d & Hd & Hle).
    rewrite Forall_forall in Hall. specialize (Hall d Hd).
    by apply Qlt_not_le in Hall.
  + intros Hthr Hex Hin. apply Hiff in Hin as [_ Hall].
    apply Exists_exists in Hex as (d & Hd & Hdeg).
    rewrite Forall_forall in Hall. specialize (Hall d Hd).
    rewrite (detectMotionBlur_degenerate _ _ Hdeg) in Hall.
    by apply Qlt_not_le in Hall.
- intros Hiv i Hi Htime Hperson.
  apply chunkLoop_keeps; [| |exact Hperson].
  + apply elem_of_seq. lia.
  + apply Forall_forall. intros i' [_ Hi']%elem_of_seq.
    destruct (decide (i' ≤ i)%nat) as [Hle|Hgt].
    * eapply Qle_trans; [|exact Htime]. unfold time.
      assert (inject_Z (Z.of_nat i') <= inject_Z (Z.of_nat i))%Q
        by (rewrite <- Zle_Qle; lia).
      nra.
    * assert (Hfl : (inject_Z (Z.of_nat i')
                     <= (endTime - startTime) / State.frameInterval st)%Q).
      { eapply Qle_trans; [|apply Qfloor_le]. rewrite <- Zle_Qle. lia. }
      destruct (Qlt_le_dec 0 (State.frameInterval st)) as [Hpos|Hzero].
      -- apply (Qmult_le_compat_r _ _ (State.frameInterval st)) in Hfl; [|lra].
         assert (Heq : ((endTime - startTime) / State.frameInterval st
                        * State.frameInterval st == endTime - startTime)%Q)
           by (field; lra).
         rewrite Heq in Hfl. lra.
      -- assert (Hz : (State.frameInterval st == 0)%Q) by lra.
         unfold time in Htime. rewrite Hz in Htime |- *. lra.
- intros b thr. unfold r, extractFramesFromChunk.
  cbn [State.frameInterval State.setFilterMotionBlur State.setBlurThreshold].
  by apply chunkLoop_frames_same.
- apply detectMotionBlur_degenerate.
Qed.
End chunk_marking.

(** ** Marked frames in the store *)

Lemma marking_nil (R : ImageData.t → Prop → Prop) : marking R ([], []).
Proof. split; [constructor|]. intros j frame Hj. done. Qed.

Lemma marking_impl (R R' : ImageData.t → Prop → Prop) r :
(∀ frame A, R frame A → R' frame A) → marking R r → marking R' r.
Proof. intros HR [Hb Hf]. split; [done|]. intros j frame Hj. by apply HR, Hf. Qed.

Lemma appendMarked_marking (R : ImageData.t → Prop → Prop) acc result :
(∀ frame A B, (A ↔ B) → R frame A → R frame B) →
marking R acc → marking R result → marking R (appendMarked acc result).
Proof.
intros Hiff [Hb1 Hf1] [Hb2 Hf2]. rewrite Forall_forall in Hb1, Hb2.
unfold appendMarked. split; cbn [fst snd].
- apply Forall_app. rewrite length_app. split.
  + apply Forall_forall. intros j Hj. specialize (Hb1 j Hj). lia.
  + apply Forall_forall. intros j Hj.
    apply list_elem_of_fmap in Hj as (i & -> & Hi). specialize (Hb2 i Hi). lia.
- intros j frame Hj.
  destruct (decide (j < length acc.1)%nat) as [Hlt|Hge].
  + rewrite lookup_app_l in Hj by done.
    apply (Hiff frame (j ∈ acc.2)); [|by apply Hf1].
    rewrite elem_of_app. split; [tauto|]. intros [?|Hin]; [done|].
    apply list_elem_of_fmap in Hin as (i & -> & _). lia.
  + rewrite lookup_app_r in Hj by lia.
    apply (Hiff frame ((j - length acc.1)%nat ∈ result.2)); [|by apply Hf2].
    rewrite elem_of_app. split.
    * intros Hin. right. apply list_elem_of_fmap.
      exists (j - length acc.1)%nat. split; [lia | done].
    * intros [Hin|Hin]; [specialize (Hb1 j Hin); lia|].
      apply list_elem_of_fmap in Hin as (i & -> & Hi).
      by replace (length acc.1 + i - length acc.1)%nat with i by lia.
Qed.

Lemma foldl_appendMarked_marking {X : Type} (R : ImageData.t → Prop → Prop)
  (g : X → list ImageData.t * list nat) (xs : list X) acc :
(∀ frame A B, (A ↔ B) → R frame A → R frame B) →
(∀ x, x ∈ xs → marking R (g x)) →
marking R acc →
marking R (foldl (λ acc x, appendMarked acc (g x)) acc xs).
Proof.
intros Hiff. revert acc. induction xs as [|x xs IH]; intros acc Hg Hacc; [done|].
simpl. apply IH.
- intros y Hy. apply Hg. by right.
- apply appendMarked_marking; [done | done |]. apply Hg. by left.
Qed.

Section store_marking.
Variable enhanceFrame : Canvas.t → Q → Canvas.t.
Variable toBlob : Canvas.t → N.
Variable decodeImage : File.t → option (Z * Z).
Variable createObjectURL : N → string.
Variable loadCanvas : string → option Canvas.t.

Local Abbreviation videoMarkRule' := (videoMarkRule toBlob).
Local Abbreviation clipMarkRule' := (clipMarkRule loadCanvas).
Local Abbreviation extractFramesFromVideo' :=
  (extractFramesFromVideo enhanceFrame toBlob decodeImage createObjectURL).
Local Abbreviation loadClipFrame' := (loadClipFrame decodeImage loadCanvas).

Lemma videoMarkRule_iff st files frame (A B : Prop) :
(A ↔ B) → videoMarkRule' st files frame A → videoMarkRule' st files frame B.
Proof.
intros HAB (video & t & Hin & Hsrc & Hblob & Hne & Hiff).
exists video, t. split_and!; try done. by rewrite <- HAB.
Qed.

Lemma extractFramesFromVideo_marking st files video :
video ∈ files →
marking (videoMarkRule' st files) (extractFramesFromVideo' st video).
Proof.
intros Hin. unfold extractFramesFromVideo.
destruct (Qle_bool (Video.duration video) 0); [apply marking_nil|].
apply (foldl_appendMarked_marking (videoMarkRule' st files)
         (videoChunk enhanceFrame toBlob decodeImage createObjectURL st video)).
- apply videoMarkRule_iff.
- intros chunkIndex _. unfold videoChunk.
  destruct (extractFramesFromChunk_inv (Video.frameAt video) enhanceFrame toBlob
              decodeImage createObjectURL st (Video.name video)
              (inject_Z (Z.of_nat chunkIndex) * (State.chunkDuration st * 60))%Q
              (Qmin (inject_Z (Z.of_nat (chunkIndex + 1))
                     * (State.chunkDuration st * 60))%Q (Video.duration video))
              (Z.to_nat (Qfloor (inject_Z (Z.of_nat chunkIndex)
                                 * (State.chunkDuration st * 60)
                                 / State.frameInterval st)%Q)))
    as [Hb Hf].
  split; [exact Hb|]. intros j frame Hj.
  destruct (Hf j frame Hj) as (i & _ & Hsrc & Hblob & _ & Hne & Hiff).
  eexists video, _. split_and!; [done | done | exact Hblob | done | exact Hiff].
- apply marking_nil.
Qed.

(** X22. After an upload of videos the marked set holds exactly the indices of
    the stored frames on which every person box is blurred (filter on), and
    every marked index is the index of a stored frame. *)
Theorem handleVideoUpload_marks (st : State.t) (files : list Video.t)
  (m : ObjectDetection) :
State.model st = Some m → files ≠ [] →
let st' := handleVideoUpload enhanceFrame toBlob decodeImage createObjectURL
             st files in
(∀ j, j ∈ State.selectedImages st' → is_Some (State.images st' !! j))
∧ ∀ j frame,
    State.images st' !! j = Some frame →
    videoMarkRule' st files frame (j ∈ State.selectedImages st').
Proof.
intros Hm Hfiles. unfold handleVideoUpload. rewrite Hm.
destruct (Nat.eqb_spec (length files) 0) as [Hz|_].
{ by apply nil_length_inv in Hz. }
cbn [State.images State.selectedImages State.setImages State.setCurrentIndex
     State.setSelectedImages State.setSelectedDetection].
set (r := foldl _ _ _).
assert (Hr : marking (videoMarkRule' st files) r).
{ apply (foldl_appendMarked_marking (videoMarkRule' st files)
           (extractFramesFromVideo' st)).
  - apply videoMarkRule_iff.
  - intros video Hin. by apply extractFramesFromVideo_marking.
  - apply marking_nil. }
destruct Hr as [Hb Hf]. split.
- intros j Hj%elem_of_list_to_set. apply lookup_lt_is_Some.
  rewrite Forall_forall in Hb. by apply Hb.
- intros j frame Hj. eapply videoMarkRule_iff; [|by apply Hf].
  by rewrite elem_of_list_to_set.
Qed.

Lemma loadClipFrame_marking st clip acc frame :
marking (clipMarkRule' st) acc →
marking (clipMarkRule' st) (loadClipFrame' st clip acc frame).
Proof.
intros [Hbound Hframes]. unfold loadClipFrame.
set (persons := filter _ _). set (kept := ImageData.mk _ _ _ _ _ _).
assert (Hfresh : length acc.1 ∉ acc.2).
{ intros Hin. rewrite Forall_forall in Hbound. specialize (Hbound _ Hin). lia. }
assert (Hnew : ∀ (b : bool),
  (b = true ↔ State.filterMotionBlur st = true ∧ persons ≠ []
     ∧ ∃ canvas, loadCanvas (ClipFrame.url frame) = Some canvas
         ∧ Forall (λ d, (detectMotionBlur canvas d < State.blurThreshold st)%Q)
             persons) →
  marking (clipMarkRule' st)
    ((acc.1 ++ [kept])%list,
     if b then (acc.2 ++ [length acc.1])%list else acc.2)).
{ intros b Hb. split; cbn [fst snd].
  - rewrite length_app. cbn [length]. apply Forall_forall. intros j Hj.
    rewrite Forall_forall in Hbound.
    destruct b; [apply elem_of_app in Hj as [Hj|Hj]|].
    + specialize (Hbound j Hj). lia.
    + apply list_elem_of_singleton in Hj. lia.
    + specialize (Hbound j Hj). lia.
  - intros j fr Hj. destruct (decide (j < length acc.1)%nat) as [Hlt|Hge].
    + rewrite lookup_app_l in Hj by done.
      pose proof (Hframes j fr Hj) as Hold. unfold clipMarkRule in Hold |- *.
      rewrite <- Hold. destruct b; [|done].
      rewrite elem_of_app, list_elem_of_singleton. split; [|tauto].
      intros [? | ->]; [done | lia].
    + assert (j = length acc.1) as ->.
      { apply lookup_lt_Some in Hj. rewrite length_app in Hj. simpl in Hj. lia. }
      rewrite lookup_app_r, Nat.sub_diag in Hj by done. injection Hj as <-.
      unfold clipMarkRule. cbn [ImageData.detections ImageData.url kept].
      rewrite <- Hb. destruct b.
      * rewrite elem_of_app, list_elem_of_singleton. tauto.
      * split; [done | discriminate]. }
assert (Hblurry : clipFrameBlurry loadCanvas st (ClipFrame.url frame) persons = true
  ↔ ∃ canvas, loadCanvas (ClipFrame.url frame) = Some canvas
      ∧ Forall (λ d, (detectMotionBlur canvas d < State.blurThreshold st)%Q) persons).
{ unfold clipFrameBlurry. destruct (loadCanvas (ClipFrame.url frame)) as [c|].
  - rewrite allBlurry_spec. split; [by exists c|]. by intros (c' & [= <-] & ?).
  - split; [done|]. by intros (c' & ? & _). }
assert (Hpos : (0 <? length persons)%nat = true ↔ persons ≠ []).
{ rewrite Nat.ltb_lt. destruct persons; simpl; split; (done || lia). }
destruct (ClipData.isManual clip).
- apply Hnew. rewrite !andb_true_iff, Hpos, Hblurry. tauto.
- destruct (0 <? length persons)%nat eqn:Hp; [|by split].
  apply Hnew. rewrite andb_true_iff, Hblurry.
  pose proof (proj1 Hpos eq_refl). tauto.
Qed.

Lemma loadClipFrames_marking st clip frames acc :
marking (clipMarkRule' st) acc →
marking (clipMarkRule' st) (foldl (loadClipFrame' st clip) acc frames).
Proof.
revert acc. induction frames as [|f fs IH]; intros acc Hacc; [done|].
simpl. by apply IH, loadClipFrame_marking.
Qed.

Lemma loadClips_marking st clips acc :
marking (clipMarkRule' st) acc →
marking (clipMarkRule' st)
  (foldl (λ acc clip, foldl (loadClipFrame' st clip) acc (ClipData.frames clip))
     acc clips).
Proof.
revert acc. induction clips as [|clip rest IH]; intros acc Hacc; [done|].
simpl. by apply IH, loadClipFrames_marking.
Qed.

(** X23. After clips are loaded into the annotator a stored frame is marked
    exactly when the filter is on, the frame has a person box, its picture
    could be loaded and all its boxes are blurred; a frame of a manual clip
    without a person box is kept and not marked. *)
Theorem handleLoadClipsToAnnotator_marks (st : State.t)
  (clips : list ClipData.t) (m : ObjectDetection) :
State.model st = Some m → clips ≠ [] →
let st' := handleLoadClipsToAnnotator decodeImage loadCanvas st clips in
(∀ j, j ∈ State.selectedImages st' → is_Some (State.images st' !! j))
∧ ∀ j frame,
    State.images st' !! j = Some frame →
    clipMarkRule' st frame (j ∈ State.selectedImages st').
Proof.
intros Hm Hclips. unfold handleLoadClipsToAnnotator. rewrite Hm.
destruct (Nat.eqb_spec (length clips) 0) as [Hz|_].
{ by apply nil_length_inv in Hz. }
cbn [State.images State.selectedImages State.setImages State.setCurrentIndex
     State.setSelectedImages State.setSelectedDetection].
set (r := foldl _ _ _).
assert (Hr : marking (clipMarkRule' st) r)
  by apply loadClips_marking, marking_nil.
destruct Hr as [Hb Hf]. split.
- intros j Hj%elem_of_list_to_set. apply lookup_lt_is_Some.
  rewrite Forall_forall in Hb. by apply Hb.
- intros j frame Hj. unfold clipMarkRule. rewrite elem_of_list_to_set.
  by apply Hf.
Qed.
End store_marking.

(** The score of the two halves of [Scenario.halves]: the flat half scores
    0, the checkerboard about a million; and the score of
    [Scenario.speckled], to which every term of the Laplacian contributes. *)
Example detectMotionBlur_halves :
detectMotionBlur Scenario.halves (Detection.mk 0 0 4 3 "Person" (9 # 10)) = 0%Q
∧ detectMotionBlur Scenario.halves (Detection.mk 4 0 4 3 "Bicycle" (9 # 10))
  = 1040400%Q
∧ detectMotionBlur Scenario.speckled (Detection.mk 0 0 4 3 "Person" (9 # 10))
  = 585225%Q.
Proof. split_and!; vm_compute; reflexivity. Qed.

Lemma blurry_frames_marked_not_dropped_witness :
Scenario.chunk.2 = [1; 2]%nat ∧ is_Some (Scenario.chunk.1 !! 1%nat)
∧ detectMotionBlur Scenario.speckled (Detection.mk 0 0 4 3 "Person" (9 # 10))
  = 585225%Q
∧ Scenario.chunkHalves.2 = [0%nat]
∧ ∃ frame,
    Scenario.chunkHalves.1 !! 0%nat = Some frame
    ∧ Detection.label <$> ImageData.detections frame = ["Person"].
Proof.
assert (H : Scenario.chunk.2 = [1; 2]%nat) by (vm_compute; reflexivity).
split; [exact H|]. split; [|split; [vm_compute; reflexivity|]].
{ apply (proj1 (blurry_frames_marked_not_dropped Scenario.videoFrame
                  Scenario.enhanceFrame Scenario.toBlob Scenario.decodeSmall
                  Scenario.createObjectURL Scenario.sampling "v.mp4" 0 2 0)).
  fold Scenario.chunk. rewrite H. apply list_elem_of_here. }
split; [vm_compute; reflexivity|].
destruct (Scenario.chunkHalves.1 !! 0%nat) as [frame|] eqn:E;
  [|vm_compute in E; discriminate E].
exists frame. split; [done|].
destruct (proj1 (proj2 (blurry_frames_marked_not_dropped (λ _, Scenario.halves)
                  Scenario.enhanceFrame Scenario.toBlob Scenario.decodeHalves
                  Scenario.createObjectURL Scenario.samplingHalves "v.mp4" 0 0 0))
            0%nat frame E) as (i & _ & _ & Hdet & _).
rewrite Hdet. vm_compute. reflexivity.
Defined.

(** ** Automatic clips *)

(** C7, as the code runs.  For a video of 130 seconds sampled every second
    with 32 frames per clip the function computes 130 frames and 5 clips,
    but the time 130 still passes its test "past the end", so it grabs 131
    frames: four clips of 32 and a last clip of 3, the frames at 128, 129
    and 130 seconds.  Each clip is numbered from 1. *)
Theorem createClipsFromVideo_130s
  (grabFrame : Q → N) (createObjectURL : N → string) (videoName : string) :
let clips := createClipsFromVideo grabFrame createObjectURL videoName 130 1 32 in
totalFrames 130 1 = 130%Z
∧ numClips 130 1 32 = 5%nat
∧ length ∘ ClipData.frames <$> clips = [32; 32; 32; 32; 3]%nat
∧ Forall (λ c, ClipFrame.frameNumber <$> ClipData.frames c
               = seq 1 (length (ClipData.frames c))) clips
∧ (λ f, File.blob (ClipFrame.file f)) <$> mjoin (ClipData.frames <$> drop 4 clips)
  = [grabFrame 128%Q; grabFrame 129%Q; grabFrame 130%Q].
Proof.
cbn zeta. split_and!.
- vm_compute. reflexivity.
- vm_compute. reflexivity.
- vm_compute. reflexivity.
- vm_compute. repeat constructor.
- vm_compute. reflexivity.
Qed.

(** When the duration is a whole number of clips the last sampling time
    is not reached: 128 seconds give four clips of 32, and no frame at 128
    seconds. *)
Example createClipsFromVideo_128s
  (grabFrame : Q → N) (createObjectURL : N → string) (videoName : string) :
length ∘ ClipData.frames
  <$> createClipsFromVideo grabFrame createObjectURL videoName 128 1 32
= [32; 32; 32; 32]%nat.
Proof. vm_compute. reflexivity. Qed.

(** ** Manual clips: splitting at the cap *)

Lemma ceilDiv_bounds (a b : nat) :
(0 < b)%nat → (a ≤ ceilDiv a b * b)%nat ∧ (ceilDiv a b * b < a + b)%nat.
Proof.
intros Hb. unfold ceilDiv.
pose proof (Nat.div_mod_eq (a + b - 1) b) as Hdm.
pose proof (Nat.mod_upper_bound (a + b - 1) b ltac:(lia)) as Hmod.
nia.
Qed.

Lemma ceilDiv_least (a b k : nat) :
(0 < b)%nat → (a ≤ k * b)%nat → (ceilDiv a b ≤ k)%nat.
Proof.
intros Hb Hk. destruct (ceilDiv_bounds a b Hb) as [_ Hub]. nia.
Qed.

(** The arithmetic of the split: [k] parts of size [c], all within the cap,
    the last one not empty. *)
Lemma split_sizes (n : nat) :
(MAX_FRAMES_PER_CLIP < n)%nat →
let k := ceilDiv n MAX_FRAMES_PER_CLIP in
let c := ceilDiv n k in
(2 ≤ k)%nat ∧ (0 < c ≤ MAX_FRAMES_PER_CLIP)%nat
∧ (n ≤ k * c)%nat ∧ ((k - 1) * c < n)%nat ∧ (k * c < n + k)%nat.
Proof.
intros Hn k c. unfold MAX_FRAMES_PER_CLIP in *.
destruct (ceilDiv_bounds n 200 ltac:(lia)) as [Hk1 Hk2]. fold k in Hk1, Hk2.
assert (2 ≤ k)%nat by nia.
destruct (ceilDiv_bounds n k ltac:(lia)) as [Hc1 Hc2]. fold c in Hc1, Hc2.
assert (c ≤ 200)%nat by (apply ceilDiv_least; lia).
split_and!; try lia; nia.
Qed.

Lemma slice_min {A : Type} (l : list A) (start c : nat) :
slice start ((start + c) `min` length l) l = take c (drop start l).
Proof.
unfold slice. destruct (decide (start + c ≤ length l)%nat) as [Hle|Hgt].
- by replace ((start + c) `min` length l - start)%nat with c by lia.
- rewrite !take_ge; [done|..]; rewrite length_drop; lia.
Qed.

Lemma renumber_picture (chunk : list ClipFrame.t) :
ClipFrame.picture <$> imap (λ idx f, ClipFrame.with_frameNumber (S idx) f) chunk
= ClipFrame.picture <$> chunk.
Proof.
rewrite fmap_imap. rewrite <- imap_const. by apply imap_ext.
Qed.

Lemma renumber_frameNumber (chunk : list ClipFrame.t) :
ClipFrame.frameNumber <$> imap (λ idx f, ClipFrame.with_frameNumber (S idx) f) chunk
= seq 1 (length chunk).
Proof.
rewrite fmap_imap, <- fmap_S_seq, <- (imap_seq_0 chunk S). by apply imap_ext.
Qed.

Section splitting.
Variable base videoName : string.
Variable allFrames : list ClipFrame.t.

Lemma clipPart_frames (c j : nat) :
ClipData.frames (clipPart base videoName allFrames c j)
= imap (λ idx f, ClipFrame.with_frameNumber (S idx) f)
    (take c (drop (j * c) allFrames)).
Proof. unfold clipPart. cbn [ClipData.frames]. by rewrite slice_min. Qed.

Lemma clipPart_length (c j : nat) :
length (ClipData.frames (clipPart base videoName allFrames c j))
= (c `min` (length allFrames - j * c))%nat.
Proof. by rewrite clipPart_frames, length_imap, length_take, length_drop. Qed.

Lemma part_name_inj : Inj (=) (=) (λ j, base +:+ "_part" +:+ ofNat (S j)).
Proof.
intros i j H. apply String.app_inj in H. apply String.app_inj in H.
unfold ofNat in H. apply (inj pretty) in H. lia.
Qed.

Lemma join_parts (c k : nat) :
ClipFrame.picture
  <$> mjoin (ClipData.frames <$> (clipPart base videoName allFrames c <$> seq 0 k))
= ClipFrame.picture <$> take (k * c) allFrames.
Proof.
induction k as [|k IH]; [done|].
rewrite seq_S, !fmap_app, join_app, fmap_app, IH.
cbn [fmap list_fmap mjoin list_join]. rewrite app_nil_r.
change (list_fmap _ _ ClipFrame.picture ?l) with (ClipFrame.picture <$> l).
rewrite clipPart_frames, renumber_picture, <- fmap_app, take_take_drop.
do 2 f_equal. lia.
Qed.

(** C3. A clip over the cap of 200 frames is cut into the least number of
    parts that can hold it with at most 200 frames each; the parts are
    consecutive runs of the frames, every part but the last has the same
    size (the frame count divided by the number of parts, rounded up), the
    last one is not empty and smaller by less than the number of parts;
    each part numbers its frames 1, 2, ... without gaps and is called
    [<clip>_partN] with its own N; and the parts in order, put end to end,
    are the pictures of the clip in their original order. *)
Theorem clipsOfFrames_split :
(MAX_FRAMES_PER_CLIP < length allFrames)%nat →
let n := length allFrames in
let parts := clipsOfFrames base videoName allFrames in
let numChunks := ceilDiv n MAX_FRAMES_PER_CLIP in
let chunkSize := ceilDiv n numChunks in
length parts = numChunks
∧ (∀ k, (n ≤ k * MAX_FRAMES_PER_CLIP)%nat → (numChunks ≤ k)%nat)
∧ (chunkSize ≤ MAX_FRAMES_PER_CLIP)%nat
∧ (∀ j part,
     parts !! j = Some part →
     ClipData.name part = base +:+ "_part" +:+ ofNat (S j)
     ∧ ClipData.sourceVideo part = videoName
     ∧ ClipFrame.frameNumber <$> ClipData.frames part
       = seq 1 (length (ClipData.frames part))
     ∧ ClipFrame.picture <$> ClipData.frames part
       = ClipFrame.picture <$> take chunkSize (drop (j * chunkSize) allFrames)
     ∧ ((S j < numChunks)%nat → length (ClipData.frames part) = chunkSize)
     ∧ (0 < length (ClipData.frames part) ≤ chunkSize)%nat
     ∧ (chunkSize < length (ClipData.frames part) + numChunks)%nat)
∧ NoDup (ClipData.name <$> parts)
∧ ClipFrame.picture <$> mjoin (ClipData.frames <$> parts)
  = ClipFrame.picture <$> allFrames.
Proof.
intros Hcap n parts numChunks chunkSize.
destruct (split_sizes n Hcap) as (Hk & Hc & Hcover & Hlast & Heven).
fold numChunks chunkSize in Hk, Hc, Hcover, Hlast, Heven.
assert (Hparts : parts = clipPart base videoName allFrames chunkSize
                           <$> seq 0 numChunks).
{ unfold parts, clipsOfFrames.
  destruct (Nat.leb_spec (length allFrames) MAX_FRAMES_PER_CLIP); [lia | done]. }
split_and!.
- by rewrite Hparts, length_fmap, length_seq.
- intros k Hk'. apply ceilDiv_least; [unfold MAX_FRAMES_PER_CLIP; lia | done].
- lia.
- intros j part Hj. rewrite Hparts, list_lookup_fmap in Hj.
  destruct (seq 0 numChunks !! j) as [j'|] eqn:Hseq; [|done].
  apply lookup_seq in Hseq as [-> Hlt]. simpl in Hj. injection Hj as <-.
  pose proof (clipPart_length chunkSize j) as Hlen. fold n in Hlen.
  split_and!.
  + done.
  + done.
  + by rewrite clipPart_frames, renumber_frameNumber, length_imap.
  + by rewrite clipPart_frames, renumber_picture.
  + intros HSj. rewrite Hlen. nia.
  + rewrite Hlen. nia.
  + rewrite Hlen. nia.
  + rewrite Hlen. nia.
- rewrite Hparts, <- list_fmap_compose.
  apply (NoDup_fmap_2 (λ j, base +:+ "_part" +:+ ofNat (S j))), NoDup_seq.
- rewrite Hparts, join_parts. f_equal. apply take_ge. fold n. lia.
Qed.
End splitting.

Lemma clipsOfFrames_split_witness :
length ∘ ClipData.frames
  <$> clipsOfFrames (clipBaseName 0 Scenario.longMarker) "work.mp4"
        Scenario.longClip
= [134; 134; 133]%nat
∧ length (clipsOfFrames (clipBaseName 0 Scenario.longMarker) "work.mp4"
            Scenario.longClip)
  = ceilDiv (length Scenario.longClip) MAX_FRAMES_PER_CLIP.
Proof.
split; [vm_compute; reflexivity|].
assert (H : (MAX_FRAMES_PER_CLIP < length Scenario.longClip)%nat)
  by (vm_compute; lia).
exact (proj1 (clipsOfFrames_split (clipBaseName 0 Scenario.longMarker)
                "work.mp4" Scenario.longClip H)).
Defined.

(** A marker of 401 seconds sampled every second: three parts. *)
Example extractClipsFromMarkers_long :
(λ c, (ClipData.name c, length (ClipData.frames c)))
  <$> default []
        (extractClipsFromMarkers Scenario.grabFrame Scenario.createObjectURL
           (Some (File.mk "work.mp4" 0)) [Scenario.longMarker] 1)
= [ ("clip_001_00-00.0_part1", 134%nat);
    ("clip_001_00-00.0_part2", 134%nat);
    ("clip_001_00-00.0_part3", 133%nat) ].
Proof. vm_compute. reflexivity. Qed.

(** *** The sampling loop of a marker ends by its own test *)

Section marker_sampling.
Variable grabFrame : Q → N.
Variable createObjectURL : N → string.

Lemma frameTimesLoop_fuel (fuel extra : nat) (t endTime frameInterval : Q) :
(0 <= t)%Q → (0 < frameInterval)%Q →
(endTime + frameInterval <= 4503599627370496 * frameInterval)%Q →
(2 * (endTime - t) <= inject_Z (Z.of_nat fuel) * frameInterval)%Q →
frameTimesLoop (fuel + extra) t endTime frameInterval
= frameTimesLoop fuel t endTime frameInterval.
Proof.
intros Ht Hiv Hbig. revert t Ht. induction fuel as [|fuel IH]; intros t Ht Hle.
- destruct extra as [|extra]; [done|]. simpl.
  unfold Qlt_bool. replace (Qle_bool endTime t) with true; [done|].
  symmetry. apply Qle_bool_iff.
  change (inject_Z (Z.of_nat 0)) with 0%Q in Hle. lra.
- simpl. unfold Qlt_bool. destruct (Qle_bool endTime t) eqn:E; cbn [negb]; [done|].
  assert (Hlt : (t < endTime)%Q).
  { apply Qnot_le_lt. rewrite <- Qle_bool_iff. by rewrite E. }
  pose proof (add_progress t frameInterval Ht Hiv ltac:(lra)) as Hstep.
  f_equal. apply IH; [lra|].
  rewrite Nat2Z.inj_succ, <- Z.add_1_r, inject_Z_plus in Hle.
  change (inject_Z 1) with 1%Q in Hle. rewrite Qmult_plus_distr_l in Hle.
  set (p := (inject_Z (Z.of_nat fuel) * frameInterval)%Q) in *.
  set (t' := Double.add t frameInterval) in *. lra.
Qed.

(** More rounds than [frameTimes] allows would not add a time. *)
Lemma frameTimes_fuel (marker : ClipMarker.t) (frameInterval : Q) (extra : nat) :
(0 <= ClipMarker.startTime marker)%Q → (0 < frameInterval)%Q →
(ClipMarker.endTime marker + frameInterval
 <= 4503599627370496 * frameInterval)%Q →
frameTimesLoop
  (Z.to_nat (Qceiling (2 * (ClipMarker.endTime marker - ClipMarker.startTime marker)
                       / frameInterval)) + extra)
  (ClipMarker.startTime marker) (ClipMarker.endTime marker) frameInterval
= frameTimes marker frameInterval.
Proof.
intros Hs Hiv Hbig. unfold frameTimes. apply frameTimesLoop_fuel; [done..|].
set (d := (2 * (ClipMarker.endTime marker - ClipMarker.startTime marker))%Q).
assert (Hd : (d / frameInterval <= inject_Z (Z.of_nat (Z.to_nat (Qceiling (d / frameInterval)))))%Q).
{ eapply Qle_trans; [apply Qle_ceiling|].
  rewrite <- Zle_Qle. lia. }
apply (Qmult_le_compat_r _ _ frameInterval) in Hd; [|lra].
assert (Heq : (d == d / frameInterval * frameInterval)%Q) by (field; lra).
eapply Qle_trans; [|exact Hd]. apply Qle_lteq. by right.
Qed.

(** The frames sampled for a marker are numbered 1, 2, ... *)
Lemma markerFrames_numbered (marker : ClipMarker.t) (frameInterval : Q) :
ClipFrame.frameNumber <$> markerFrames grabFrame createObjectURL marker frameInterval
= seq 1 (length (markerFrames grabFrame createObjectURL marker frameInterval)).
Proof.
unfold markerFrames. rewrite fmap_imap, length_imap.
rewrite <- fmap_S_seq, <- (imap_seq_0 (frameTimes marker frameInterval) S).
by apply imap_ext.
Qed.

(** The earlier revision of the editor never makes a clip of more than
    [framesPerClip] frames (the slider stops at 64), so it has nothing to
    split. *)
Lemma limitedMarkerClip_length (framesPerClip markerIdx : nat)
  (marker : ClipMarker.t) (videoName : string) (frameInterval : Q) :
(length (ClipData.frames
           (limitedMarkerClip grabFrame createObjectURL framesPerClip markerIdx
              marker videoName frameInterval)) ≤ framesPerClip)%nat.
Proof.
unfold limitedMarkerClip. cbn [ClipData.frames].
rewrite length_imap, length_take. lia.
Qed.
End marker_sampling.

(* ================================================================== *)
(** * Further properties *)
(* ================================================================== *)

(** ** Exporter: the registry only grows *)

Section exporter_registry.
Variable localeCompare : string → string → Z.
Variable fetchBlob : string → option N.
Variable imageSize : string → option (Z * Z).
Variable functionText : string → string.

Local Abbreviation export' :=
  (handleExportAnnotatedClips localeCompare fetchBlob imageSize functionText).
Local Abbreviation clipOffset' := (clipOffset functionText).

(** A label that is not the name of something inherited from
    [Object.prototype] reads as a number as long as the registry holds a
    number for it, or nothing. *)
Lemma clipOffset_ordinary (counters : gmap string Counter.t) (label : string) :
(label ∉ inheritedMethods) → label ≠ "__proto__" →
(counters !! label = None → clipOffset' counters label = Counter.number 0)
∧ ∀ n : nat, counters !! label = Some (Counter.number n) →
    clipOffset' counters label = Counter.number n.
Proof.
intros Hm Hp. unfold clipOffset. split.
- intros ->. rewrite bool_decide_eq_false_2 by done.
  by destruct (String.eqb_spec label "__proto__").
- by intros n ->.
Qed.

(** X1. A label whose counter reads as a number keeps a counter that reads
    as a number, and an export never lowers it: the label's new folders are
    numbered from the counter plus 1 upwards without gaps, the counter
    grows by their number, and so it moves only for a label that got a
    folder in this export. *)
Theorem export_counters_never_decrease (st : State.t) (label : string) (c : nat) :
clipOffset' (State.labelClipCounters st) label = Counter.number c →
∃ c' : nat,
  clipOffset' (State.labelClipCounters (export' st).1) label = Counter.number c'
  ∧ (c ≤ c')%nat
  ∧ ∀ zip nclips nframes,
      (export' st).2 = Exported zip nclips nframes →
      let o := ordinalsOf label (Zip.clipFolders zip) in
      o = Counter.number <$> seq (S c) (length o)
      ∧ c' = (c + length o)%nat
      ∧ (labelOccurs label st → o ≠ []).
Proof.
intros Hread. destruct (export' st) as [st1 out] eqn:E. cbn [fst snd].
destruct out as [msg | zip n m].
- unfold handleExportAnnotatedClips in E.
  destruct (length (imagesToExport _ _) =? 0)%nat; [|done].
  injection E as <- _. exists c. split_and!; [done | lia | done].
- destruct (handleExport_one localeCompare fetchBlob imageSize functionText
              _ _ _ _ _ label E) as (Hocc & Ho & Hc & _).
  cbn zeta in Ho, Hc. rewrite Hread in Ho.
  exists (c + length (ordinalsOf label (Zip.clipFolders zip)))%nat.
  split_and!; [by apply Hc | lia |].
  intros zip' n' m' [= <- _ _]. cbn zeta. split_and!; [|done|done].
  rewrite Ho at 1. replace (S c) with (c + 1)%nat by lia.
  by rewrite <- fmap_add_seq, <- list_fmap_compose.
Qed.
End exporter_registry.

Lemma export_counters_never_decrease_witness :
clipOffset Scenario.functionText (State.labelClipCounters Scenario.export1.1)
  "Welding" = Counter.number 2
∧ ordinalsOf "Welding" (Zip.clipFolders (Scenario.theZip Scenario.export1.2))
  = [Counter.number 1; Counter.number 2].
Proof.
assert (H0 : clipOffset Scenario.functionText
               (State.labelClipCounters Scenario.welding) "Welding"
             = Counter.number 0) by (vm_compute; reflexivity).
assert (HE : (handleExportAnnotatedClips Scenario.localeCompare
                Scenario.fetchBlob Scenario.imageSize Scenario.functionText
                Scenario.welding).2
             = Exported (Scenario.theZip Scenario.export1.2) 2 3)
  by (vm_compute; reflexivity).
destruct (export_counters_never_decrease Scenario.localeCompare
            Scenario.fetchBlob Scenario.imageSize Scenario.functionText
            Scenario.welding "Welding" 0 H0) as (c' & Hread & _ & Hzip).
destruct (Hzip _ _ _ HE) as (Ho & Hc & _).
assert (Hlen : length (ordinalsOf "Welding"
                 (Zip.clipFolders (Scenario.theZip Scenario.export1.2))) = 2%nat)
  by (vm_compute; reflexivity).
rewrite Hlen in Ho, Hc. subst c'. split; [exact Hread | exact Ho].
Defined.

(** ** Exporter: what a clip folder holds *)

Lemma sliceLoop_Forall {A : Type} (P : list A → Prop) (frames : list A)
  (fuel i : nat) :
(∀ j, (j < length frames)%nat → P (slice j (j + MAX_FRAMES_PER_CLIP) frames)) →
Forall P (sliceLoop fuel i frames).
Proof.
intros HP. revert i. induction fuel as [|fuel IH]; intros i; simpl; [constructor|].
destruct (Nat.ltb_spec i (length frames)); [|constructor].
constructor; [by apply HP | apply IH].
Qed.

Lemma slice_length {A : Type} (frames : list A) (j : nat) :
(j < length frames)%nat →
(0 < length (slice j (j + MAX_FRAMES_PER_CLIP) frames) ≤ MAX_FRAMES_PER_CLIP)%nat.
Proof.
intros Hj. unfold slice, MAX_FRAMES_PER_CLIP.
rewrite length_take, length_drop. lia.
Qed.

Lemma slice_StronglySorted {A : Type} (R : relation A) (frames : list A) (i j : nat) :
StronglySorted R frames → StronglySorted R (slice i j frames).
Proof.
intros Hs. unfold slice.
rewrite <- (take_drop i frames) in Hs. apply StronglySorted_app_1_r in Hs.
rewrite <- (take_drop (j - i) (drop i frames)) in Hs.
by apply StronglySorted_app_1_l in Hs.
Qed.

Section sorted_insertion.
Context {A : Type} (cmp : A → A → Z) (R : relation A).
Hypothesis R_trans : Transitive R.
Hypothesis cmp_le : ∀ a b, (cmp a b <= 0)%Z → R a b.
Hypothesis cmp_gt : ∀ a b, (0 < cmp a b)%Z → R b a.

Lemma insertBy_StronglySorted (a : A) (l : list A) :
StronglySorted R l → StronglySorted R (insertBy cmp a l).
Proof.
induction 1 as [|b l Hl IH Hb]; simpl.
- by repeat constructor.
- destruct (Z.leb_spec (cmp a b) 0) as [Hle|Hgt].
  + constructor; [by constructor|].
    constructor; [by apply cmp_le|].
    eapply Forall_impl; [exact Hb|]. intros c Hc.
    by transitivity b; [apply cmp_le|].
  + constructor; [done|].
    rewrite (insertBy_Permutation cmp a l). constructor; [by apply cmp_gt | done].
Qed.

Lemma sortBy_StronglySorted (l : list A) : StronglySorted R (sortBy cmp l).
Proof.
unfold sortBy. induction l as [|a l IH]; simpl; [constructor|].
by apply insertBy_StronglySorted.
Qed.
End sorted_insertion.

Section exporter_folders.
Variable localeCompare : string → string → Z.
Variable fetchBlob : string → option N.
Variable imageSize : string → option (Z * Z).
Variable functionText : string → string.

Local Abbreviation exportChunk' := (exportChunk fetchBlob imageSize).
Local Abbreviation exportChunks' := (exportChunks fetchBlob imageSize).
Local Abbreviation exportClips' := (exportClips fetchBlob imageSize).
Local Abbreviation exportLabels' :=
  (exportLabels localeCompare fetchBlob imageSize functionText).

Lemma sortFrames_sorted (frames : list ImageData.t) :
StronglySorted byFrameNo (sortFrames localeCompare frames).
Proof.
apply sortBy_StronglySorted.
- intros a b c. unfold byFrameNo. lia.
- intros a b. unfold frameOrder, byFrameNo, frameNo.
  destruct (Z.eqb_spec (Z.of_nat (default 0%nat (ImageData.frameNumber a)))
              (Z.of_nat (default 0%nat (ImageData.frameNumber b)))); simpl; lia.
- intros a b. unfold frameOrder, byFrameNo, frameNo.
  destruct (Z.eqb_spec (Z.of_nat (default 0%nat (ImageData.frameNumber a)))
              (Z.of_nat (default 0%nat (ImageData.frameNumber b)))); simpl; lia.
Qed.

Lemma exportChunks_Forall (P : ClipFolder.t → Prop) label safeLabel clipKey
  off tot tally chunks :
(∀ n total chunk, goodChunk chunk →
   P (exportChunk' label safeLabel clipKey n total chunk).2) →
Forall goodChunk chunks →
Forall P (exportChunks' label safeLabel clipKey off tot tally chunks).2.
Proof.
intros HP Hc. revert tot tally. induction Hc as [|c cs Hc _ IH]; intros tot tally;
  cbn [exportChunks snd]; constructor; [by apply HP | apply IH].
Qed.

Lemma exportClips_Forall (P : ClipFolder.t → Prop) label safeLabel (byClip : ByClip)
  off tot tally clipKeys :
(∀ clipKey n total chunk, goodChunk chunk →
   P (exportChunk' label safeLabel clipKey n total chunk).2) →
(∀ k frames, OMap.get k byClip = Some frames → StronglySorted byFrameNo frames) →
Forall P (exportClips' label safeLabel byClip off tot tally clipKeys).2.
Proof.
intros HP Hs. revert tot tally. induction clipKeys as [|k ks IH]; intros tot tally;
  cbn [exportClips]; [constructor|].
destruct (length (default [] (OMap.get k byClip)) =? 0)%nat; [apply IH|].
cbn [snd]. apply Forall_app. split; [|apply IH].
apply exportChunks_Forall; [by apply HP|].
apply sliceLoop_Forall. intros j Hj. split; [by apply slice_length|].
apply slice_StronglySorted. destruct (OMap.get k byClip) as [fs|] eqn:E.
- by eapply Hs.
- constructor.
Qed.

Lemma exportLabels_Forall (P : ClipFolder.t → Prop) (byLabel : ByLabel)
  counters tally :
(∀ label safeLabel clipKey n total chunk, goodChunk chunk →
   P (exportChunk' label safeLabel clipKey n total chunk).2) →
Forall (λ kv, ∀ k frames, OMap.get k kv.2 = Some frames →
                StronglySorted byFrameNo frames) byLabel →
Forall P (exportLabels' byLabel counters tally).2.
Proof.
intros HP Hs. revert counters tally. induction Hs as [|[l byClip] rest Hb _ IH];
  intros counters tally; cbn [exportLabels snd]; [constructor|].
apply Forall_app. split; [|apply IH].
apply exportClips_Forall; [by intros; apply HP | exact Hb].
Qed.

Lemma sorted_grouping (grouped : ByLabel) :
Forall (λ kv, ∀ k frames, OMap.get k kv.2 = Some frames →
                StronglySorted byFrameNo frames)
  ((λ kv, (kv.1, sortByClip localeCompare kv.2)) <$> grouped).
Proof.
apply Forall_fmap, Forall_forall. intros [l byClip] _ k frames. cbn [snd].
unfold sortByClip. rewrite (omap_get_fmap (sortFrames localeCompare)).
destruct (OMap.get k byClip); [|done]. intros [= <-]. apply sortFrames_sorted.
Qed.

(** X2. Every clip folder an export writes holds between 1 and 200 frames;
    its files are called frames00001, frames00002, ... in this order
    without gaps, and they follow each other by ascending frame number. *)
Theorem export_folder_contents
  (st st1 : State.t) (zip : Zip.t) (nclips nframes : nat) (cf : ClipFolder.t) :
handleExportAnnotatedClips localeCompare fetchBlob imageSize functionText st
= (st1, Exported zip nclips nframes) →
cf ∈ Zip.clipFolders zip →
let frames := ClipFolder.frames cf in
(0 < length frames ≤ MAX_FRAMES_PER_CLIP)%nat
∧ FrameOut.baseName <$> frames = framesBaseName <$> seq 1 (length frames)
∧ StronglySorted le
    ((λ fo, default 0%nat (FrameData.frameNumber (FrameOut.json fo))) <$> frames).
Proof.
unfold handleExportAnnotatedClips.
destruct (length (imagesToExport _ _) =? 0)%nat; [done|].
intros [= _ <- _ _] Hcf. cbn [Zip.clipFolders] in Hcf.
set (grouped := foldl _ _ _) in Hcf.
revert cf Hcf. apply Forall_forall. apply exportLabels_Forall; [|apply sorted_grouping].
intros label safeLabel clipKey n total chunk [Hlen Hsorted].
destruct (exportChunk_frames fetchBlob imageSize label safeLabel clipKey n total
            chunk) as [-> _].
rewrite length_imap. split_and!.
- lia.
- lia.
- rewrite fmap_imap, <- fmap_S_seq, <- list_fmap_compose.
  rewrite <- (imap_seq_0 chunk (framesBaseName ∘ S)). by apply imap_ext.
- rewrite fmap_imap.
  rewrite (imap_ext _ (const frameNo) chunk)
    by (intros i img _; reflexivity).
  rewrite imap_const. clear Hlen.
  induction Hsorted as [|a l Hl IH Ha]; [constructor|].
  simpl. constructor; [done|]. by apply Forall_fmap.
Qed.
End exporter_folders.

(** ** Exporter: every labelled frame is written exactly once *)

Section omap_more.
Context {V X : Type}.
Implicit Types (m : list (string * V)) (k : string).

Lemma omap_upsert_bind (g : string * V → list X) k init f m (extra : list X) :
(∀ v, g (k, f v) ≡ₚ (g (k, v) ++ extra)%list) →
g (k, f init) ≡ₚ extra →
OMap.upsert k init f m ≫= g ≡ₚ ((m ≫= g) ++ extra)%list.
Proof.
intros Hf Hinit. induction m as [|[k' v] m IH]; cbn [OMap.upsert].
- rewrite bind_cons. cbn. by rewrite app_nil_r, Hinit.
- destruct (String.eqb_spec k' k) as [->|Hne].
  + rewrite !bind_cons, Hf. rewrite <- !(assoc_L app).
    apply Permutation_app_head, Permutation_app_comm.
  + by rewrite !bind_cons, IH, (assoc_L app).
Qed.

Lemma omap_upsert_Forall (P : V → Prop) k init f m :
P init → (∀ v, P v → P (f v)) →
Forall (λ kv, P kv.2) m → Forall (λ kv, P kv.2) (OMap.upsert k init f m).
Proof.
intros Hinit Hf. induction 1 as [|[k' v] m Hv Hm IH]; cbn [OMap.upsert].
- constructor; [by apply Hf | constructor].
- destruct (String.eqb k' k); constructor; try done. by apply Hf.
Qed.

Lemma omap_keys_bind (g : string * V → list X) m :
NoDup (OMap.keys m) →
OMap.keys m ≫= (λ k, from_option (λ v, g (k, v)) [] (OMap.get k m)) = m ≫= g.
Proof.
unfold OMap.keys. induction m as [|[k v] m IH]; [done|].
rewrite fmap_cons. intros [Hk Hnd]%NoDup_cons.
rewrite !bind_cons. cbn [OMap.get fst]. rewrite String.eqb_refl. cbn.
f_equal. rewrite <- IH by done. apply Forall_bind_ext, Forall_forall.
intros k' Hk'. destruct (String.eqb_spec k k') as [->|_]; [|done].
by destruct Hk.
Qed.
End omap_more.

Section exporter_conservation.
Variable localeCompare : string → string → Z.
Variable fetchBlob : string → option N.
Variable imageSize : string → option (Z * Z).
Variable functionText : string → string.

Local Abbreviation exportChunks' := (exportChunks fetchBlob imageSize).
Local Abbreviation exportClips' := (exportClips fetchBlob imageSize).
Local Abbreviation exportLabels' :=
  (exportLabels localeCompare fetchBlob imageSize functionText).

(** What a written frame says about itself, and the same read off the
    frame it was made from. *)
Local Abbreviation written := (λ fo : FrameOut.t,
  (FrameData.activityLabel (FrameOut.json fo),
   FrameData.sourceClip (FrameOut.json fo),
   FrameData.frameNumber (FrameOut.json fo),
   FrameOut.jpg fo)).
Local Abbreviation filed := (λ x : string * string * ImageData.t,
  (x.1.1, x.1.2, ImageData.frameNumber x.2, fetchBlob (ImageData.url x.2))).

Lemma pushFrame_frames label clipKey img (byClip : ByClip) :
clipFramesOf label (pushFrame clipKey img byClip)
≡ₚ (clipFramesOf label byClip ++ [(label, clipKey, img)])%list.
Proof.
unfold clipFramesOf, pushFrame. apply omap_upsert_bind.
- intros v. cbn. by rewrite fmap_app.
- done.
Qed.

Lemma groupFrame_frames onlyLabeled acc img :
groupedFrames (groupFrame onlyLabeled acc img).1
≡ₚ (groupedFrames acc.1
    ++ option_list ((λ l, (l, clipKeyOf img, img)) <$> getCustomLabel img))%list.
Proof.
unfold groupFrame. destruct (getCustomLabel img) as [label|] eqn:Hl.
- rewrite (getCustomLabel_truthy _ _ Hl). cbn.
  unfold groupedFrames. apply omap_upsert_bind.
  + intros v. cbn [fst snd]. apply pushFrame_frames.
  + cbn [fst snd]. by rewrite pushFrame_frames.
- cbn. rewrite app_nil_r. by destruct onlyLabeled.
Qed.

Lemma foldl_groupFrame_frames onlyLabeled imgs acc :
groupedFrames (foldl (groupFrame onlyLabeled) acc imgs).1
≡ₚ (groupedFrames acc.1
    ++ omap (λ img, (λ l, (l, clipKeyOf img, img)) <$> getCustomLabel img) imgs)%list.
Proof.
revert acc. induction imgs as [|img imgs IH]; intros acc; cbn [foldl].
- by rewrite app_nil_r.
- rewrite IH, groupFrame_frames, <- (assoc_L app). apply Permutation_app_head.
  cbn [omap list_omap]. by destruct (getCustomLabel img).
Qed.

Lemma foldl_groupFrame_clips_NoDup onlyLabeled imgs acc :
Forall (λ lc, NoDup (OMap.keys lc.2)) acc.1 →
Forall (λ lc, NoDup (OMap.keys lc.2)) (foldl (groupFrame onlyLabeled) acc imgs).1.
Proof.
revert acc. induction imgs as [|img imgs IH]; intros acc Hacc; cbn [foldl]; [done|].
apply IH. unfold groupFrame.
destruct (getCustomLabel img) as [label|]; [destruct (truthy label)|];
  cbn; try (by destruct onlyLabeled).
apply (omap_upsert_Forall (λ byClip : ByClip, NoDup (OMap.keys byClip))); [|by intros; apply omap_upsert_NoDup|done].
constructor.
Qed.

Lemma sortByClip_frames label (byClip : ByClip) :
clipFramesOf label (sortByClip localeCompare byClip) ≡ₚ clipFramesOf label byClip.
Proof.
unfold clipFramesOf, sortByClip. induction byClip as [|[k fs] byClip IH]; [done|].
rewrite fmap_cons, !bind_cons, IH. cbn [fst snd]. unfold sortFrames.
by rewrite sortBy_Permutation.
Qed.

Lemma sorted_groupedFrames (grouped : ByLabel) :
groupedFrames ((λ kv, (kv.1, sortByClip localeCompare kv.2)) <$> grouped)
≡ₚ groupedFrames grouped.
Proof.
unfold groupedFrames. induction grouped as [|[l byClip] grouped IH]; [done|].
rewrite fmap_cons, !bind_cons, IH. cbn [fst snd]. by rewrite sortByClip_frames.
Qed.

Lemma exportChunks_written label safeLabel clipKey off tot tally chunks :
written <$> ((exportChunks' label safeLabel clipKey off tot tally chunks).2
             ≫= ClipFolder.frames)
= (λ img, filed (label, clipKey, img)) <$> concat chunks.
Proof.
revert tot tally. induction chunks as [|c cs IH]; intros tot tally;
  cbn [exportChunks snd]; [done|].
rewrite bind_cons, fmap_app, IH. cbn [concat]. rewrite fmap_app. f_equal.
destruct (exportChunk_frames fetchBlob imageSize label safeLabel clipKey
            (Counter.plus off (S tot)) (Tally.totalExportedFrames tally) c)
  as [-> _].
rewrite fmap_imap.
rewrite <- (imap_const (λ img, filed (label, clipKey, img))). by apply imap_ext.
Qed.

Lemma exportClips_written label safeLabel (byClip : ByClip) off tot tally clipKeys :
written <$> ((exportClips' label safeLabel byClip off tot tally clipKeys).2
             ≫= ClipFolder.frames)
= filed <$> (clipKeys ≫= λ k,
    from_option (λ fs, (λ img, (label, k, img)) <$> fs) [] (OMap.get k byClip)).
Proof.
revert tot tally. induction clipKeys as [|k ks IH]; intros tot tally;
  cbn [exportClips]; [done|].
rewrite bind_cons, fmap_app.
destruct (OMap.get k byClip) as [fs|] eqn:E; cbn [default from_option id].
- destruct (Nat.eqb_spec (length fs) 0) as [Hz|_].
  + apply nil_length_inv in Hz as ->. by rewrite IH.
  + cbn [snd]. rewrite bind_app, fmap_app. rewrite IH, exportChunks_written.
    rewrite frameChunks_concat. by rewrite <- list_fmap_compose.
- cbn. by rewrite IH.
Qed.

Lemma exportLabels_written (byLabel : ByLabel) counters tally :
Forall (λ lc, NoDup (OMap.keys lc.2)) byLabel →
written <$> ((exportLabels' byLabel counters tally).2 ≫= ClipFolder.frames)
≡ₚ filed <$> groupedFrames byLabel.
Proof.
intros Hnd. revert counters tally. induction Hnd as [|[l byClip] rest Hb _ IH];
  intros counters tally; cbn [exportLabels snd]; [done|].
rewrite bind_app, fmap_app, IH, exportClips_written.
unfold groupedFrames. rewrite bind_cons, fmap_app. cbn [fst snd].
apply Permutation_app_tail, fmap_Permutation.
rewrite sortBy_Permutation. unfold clipFramesOf.
by rewrite <- (omap_keys_bind (λ kf, (λ img, (l, kf.1, img)) <$> kf.2) byClip Hb).
Qed.

(** X3. Every frame that has an export label is written exactly once: the
    (label, source clip, frame number, picture) entries of all clip
    folders together are the labelled frames of the store with their
    export label, clip key, frame number and fetched picture, each as often
    as it is in the store. *)
Theorem export_writes_each_labelled_frame_once
  (st st1 : State.t) (zip : Zip.t) (nclips nframes : nat) :
handleExportAnnotatedClips localeCompare fetchBlob imageSize functionText st
= (st1, Exported zip nclips nframes) →
(λ fo, (FrameData.activityLabel (FrameOut.json fo),
        FrameData.sourceClip (FrameOut.json fo),
        FrameData.frameNumber (FrameOut.json fo),
        FrameOut.jpg fo))
  <$> (Zip.clipFolders zip ≫= ClipFolder.frames)
≡ₚ omap (λ img, (λ l, (l, clipKeyOf img, ImageData.frameNumber img,
                        fetchBlob (ImageData.url img)))
                  <$> getCustomLabel img)
     (State.images st).
Proof.
unfold handleExportAnnotatedClips.
destruct (length (imagesToExport _ _) =? 0)%nat; [done|].
intros [= _ <- _ _]. cbn [Zip.clipFolders].
rewrite exportLabels_written.
- rewrite sorted_groupedFrames, foldl_groupFrame_frames. cbn [fst].
  assert (Hsame : ∀ imgs : list ImageData.t,
    filed <$> omap (λ img, (λ l, (l, clipKeyOf img, img)) <$> getCustomLabel img) imgs
    = omap (λ img, (λ l, (l, clipKeyOf img, ImageData.frameNumber img,
                          fetchBlob (ImageData.url img))) <$> getCustomLabel img) imgs).
  { induction imgs as [|img imgs IH]; [done|]. simpl omap.
    destruct (getCustomLabel img); cbn; [f_equal|]; exact IH. }
  change (groupedFrames []) with (@nil (string * string * ImageData.t)).
  rewrite app_nil_l, Hsame. unfold imagesToExport.
  destruct (State.exportOnlyLabeled st); [|done].
  induction (State.images st) as [|img imgs IH]; [done|].
  rewrite filter_cons. simpl omap.
  destruct (getCustomLabel img) as [l|] eqn:E.
  + rewrite decide_True by done. simpl omap. rewrite E. cbn.
    by rewrite IH.
  + rewrite decide_False by (intros H; by apply H). done.
- apply Forall_fmap.
  pose proof (foldl_groupFrame_clips_NoDup (State.exportOnlyLabeled st)
    (imagesToExport (State.exportOnlyLabeled st) (State.images st)) ([], [])
    (Forall_nil_2 _)) as Hnd.
  eapply Forall_impl; [exact Hnd|]. intros [l byClip] H. cbn [fst snd] in *.
  unfold sortByClip, compose. cbn [fst snd]. by rewrite (omap_keys_fmap (λ kv, sortFrames localeCompare kv.2)).
Qed.
End exporter_conservation.

Lemma export_folder_contents_witness :
let cf :=
  (exportChunk Scenario.fetchBlob Scenario.imageSize "Welding" "Welding" "a01"
     1%nat 0 [ Scenario.frame 1 "a01" (Some "Welding") [Scenario.person];
               Scenario.frame 2 "a01" (Some "Welding") [Scenario.person] ]).2 in
(0 < length (ClipFolder.frames cf) ≤ MAX_FRAMES_PER_CLIP)%nat
∧ FrameOut.baseName <$> ClipFolder.frames cf
  = framesBaseName <$> seq 1 (length (ClipFolder.frames cf)).
Proof.
intros cf.
assert (H1 : handleExportAnnotatedClips Scenario.localeCompare
               Scenario.fetchBlob Scenario.imageSize Scenario.functionText
               Scenario.welding
             = (Scenario.export1.1,
                Exported (Scenario.theZip Scenario.export1.2) 2 3))
  by (vm_compute; reflexivity).
assert (H2 : cf ∈ Zip.clipFolders (Scenario.theZip Scenario.export1.2)).
{ apply (list_elem_of_lookup_2 _ 0%nat). vm_compute. reflexivity. }
destruct (export_folder_contents _ _ _ _ _ _ _ _ _ cf H1 H2) as (Ha & Hb & _).
exact (conj Ha Hb).
Defined.

Lemma export_writes_each_labelled_frame_once_witness :
(λ fo, (FrameData.activityLabel (FrameOut.json fo),
        FrameData.sourceClip (FrameOut.json fo),
        FrameData.frameNumber (FrameOut.json fo),
        FrameOut.jpg fo))
  <$> (Zip.clipFolders (Scenario.theZip Scenario.export1.2) ≫= ClipFolder.frames)
≡ₚ [ ("Welding", "a01", Some 1%nat, Some 0%N);
     ("Welding", "a01", Some 2%nat, Some 0%N);
     ("Welding", "b01", Some 1%nat, Some 0%N) ].
Proof.
assert (H1 : handleExportAnnotatedClips Scenario.localeCompare
               Scenario.fetchBlob Scenario.imageSize Scenario.functionText
               Scenario.welding
             = (Scenario.export1.1,
                Exported (Scenario.theZip Scenario.export1.2) 2 3))
  by (vm_compute; reflexivity).
exact (export_writes_each_labelled_frame_once _ _ _ _ _ _ _ _ _ H1).
Defined.

(** ** Exporter: the frames without a label *)

Section exporter_unlabeled.
Variable localeCompare : string → string → Z.
Variable fetchBlob : string → option N.
Variable imageSize : string → option (Z * Z).
Variable functionText : string → string.

Local Abbreviation fetched := (λ img : ImageData.t, fetchBlob (ImageData.url img)).
Local Abbreviation exportUnlabeledClip' := (exportUnlabeledClip fetchBlob).
Local Abbreviation exportUnlabeled' := (exportUnlabeled fetchBlob).

(** The pictures of one clip under Unlabeled are those that could be
    fetched, and each of them is counted. *)
Lemma exportUnlabeledClip_pictures (counter total : nat) (frames : list ImageData.t) :
let r := exportUnlabeledClip' counter total frames in
snd <$> r.2 = omap fetched frames
∧ r.1 = (total + length r.2)%nat.
Proof.
revert counter total. induction frames as [|img rest IH]; intros counter total;
  cbn [exportUnlabeledClip omap list_omap].
- cbn. split; [done | lia].
- destruct (fetchBlob (ImageData.url img)) as [blob|].
  + destruct (IH (S counter) (S total)) as [H1 H2]. cbn [fst snd].
    rewrite fmap_cons, H1, H2. cbn [snd length]. split; [done | lia].
  + apply IH.
Qed.

(** The pictures in a list of folders under Unlabeled. *)
Lemma exportUnlabeled_pictures (byClip : ByClip) (total : nat) (clipKeys : list string) :
let r := exportUnlabeled' byClip total clipKeys in
snd <$> (r.2 ≫= snd)
= (clipKeys ≫= λ k, from_option (omap fetched) [] (OMap.get k byClip))
∧ r.1 = (total + sum_list (length ∘ snd <$> r.2))%nat.
Proof.
revert total. induction clipKeys as [|k ks IH]; intros total;
  cbn [exportUnlabeled].
- cbn. split; [done | lia].
- rewrite bind_cons.
  destruct (OMap.get k byClip) as [frames|]; cbn [default from_option id].
  + destruct (Nat.eqb_spec (length frames) 0) as [Hz|_].
    * apply nil_length_inv in Hz as ->. apply IH.
    * destruct (exportUnlabeledClip_pictures 0 total frames) as [C1 C2].
      destruct (IH (exportUnlabeledClip' 0 total frames).1) as [H1 H2].
      cbn [fst snd]. rewrite bind_cons, fmap_app. cbn [snd].
      rewrite C1, H1, H2, C2. split; [done|].
      rewrite fmap_cons. cbn. lia.
  + cbn [length Nat.eqb]. apply IH.
Qed.

Lemma groupFrame_unlabeled acc img :
(groupFrame false acc img).2 ≫= (λ kf, omap fetched kf.2)
≡ₚ ((acc.2 ≫= λ kf, omap fetched kf.2)
    ++ (if decide (getCustomLabel img = None) then option_list (fetched img) else []))%list
∧ (NoDup (OMap.keys acc.2) → NoDup (OMap.keys (groupFrame false acc img).2)).
Proof.
assert (Hpush : pushFrame (clipKeyOf img) img acc.2 ≫= (λ kf, omap fetched kf.2)
                ≡ₚ ((acc.2 ≫= λ kf, omap fetched kf.2) ++ option_list (fetched img))%list).
{ unfold pushFrame. apply omap_upsert_bind.
  - intros v. cbn [snd]. rewrite omap_app. cbn.
    by destruct (fetchBlob (ImageData.url img)).
  - cbn. by destruct (fetchBlob (ImageData.url img)). }
unfold groupFrame. destruct (getCustomLabel img) as [label|] eqn:Hl.
- rewrite (getCustomLabel_truthy _ _ Hl). cbn [snd].
  rewrite decide_False by done. by rewrite app_nil_r.
- cbn [negb snd]. rewrite decide_True by done. split; [done|].
  intros Hnd. by apply omap_upsert_NoDup.
Qed.

Lemma foldl_groupFrame_unlabeled imgs acc :
(foldl (groupFrame false) acc imgs).2 ≫= (λ kf, omap fetched kf.2)
≡ₚ ((acc.2 ≫= λ kf, omap fetched kf.2)
    ++ omap fetched (filter (λ img, getCustomLabel img = None) imgs))%list
∧ (NoDup (OMap.keys acc.2) → NoDup (OMap.keys (foldl (groupFrame false) acc imgs).2)).
Proof.
revert acc. induction imgs as [|img imgs IH]; intros acc; cbn [foldl].
- by rewrite app_nil_r.
- destruct (IH (groupFrame false acc img)) as [IH1 IH2].
  destruct (groupFrame_unlabeled acc img) as [G1 G2]. split.
  + rewrite IH1, G1, <- (assoc_L app). apply Permutation_app_head.
    rewrite filter_cons. case_decide; [|done].
    cbn [omap list_omap]. by destruct (fetchBlob (ImageData.url img)).
  + intros Hnd. by apply IH2, G2.
Qed.

Lemma sortByClip_pictures (byClip : ByClip) :
sortByClip localeCompare byClip ≫= (λ kf, omap fetched kf.2)
≡ₚ byClip ≫= λ kf, omap fetched kf.2.
Proof.
unfold sortByClip. induction byClip as [|[k frames] rest IH]; [done|].
rewrite fmap_cons, !bind_cons, IH. cbn [snd]. unfold sortFrames.
by rewrite sortBy_Permutation.
Qed.

(** X8. The frames without an export label, and the totals.  With "only
    labelled" on, nothing is written under Unlabeled.  With it off, the
    pictures written there are the pictures of the frames without export
    label that could be fetched, each once.  The number of clips the export
    reports is the number of clip folders it wrote, and the number of frames
    is the number of frames in those folders (fetched or not) plus the
    number of pictures under Unlabeled. *)
Theorem export_unlabeled_frames
  (st st1 : State.t) (zip : Zip.t) (nclips nframes : nat) :
handleExportAnnotatedClips localeCompare fetchBlob imageSize functionText st
= (st1, Exported zip nclips nframes) →
nclips = length (Zip.clipFolders zip)
∧ nframes
  = (sum_list (length ∘ ClipFolder.frames <$> Zip.clipFolders zip)
     + sum_list (length ∘ snd <$> Zip.unlabeled zip))%nat
∧ (State.exportOnlyLabeled st = true → Zip.unlabeled zip = [])
∧ (State.exportOnlyLabeled st = false →
   snd <$> (Zip.unlabeled zip ≫= snd)
   ≡ₚ omap (λ img, fetchBlob (ImageData.url img))
        (filter (λ img, getCustomLabel img = None) (State.images st))).
Proof.
unfold handleExportAnnotatedClips.
destruct (length (imagesToExport _ _) =? 0)%nat; [done|].
destruct (State.exportOnlyLabeled st) eqn:Hon; cbn [negb andb];
  set (grouped := foldl _ _ _);
  (destruct (exportLabels_spec localeCompare fetchBlob imageSize functionText ""
               ((λ kv, (kv.1, sortByClip localeCompare kv.2)) <$> grouped.1)
               (State.labelClipCounters st) (Tally.mk 0 0))
     as (_ & _ & T1 & T2);
   [ rewrite (omap_keys_fmap (λ kv, sortByClip localeCompare kv.2));
     apply foldl_groupFrame_NoDup; constructor |]);
  cbn [Tally.totalExportedClips Tally.totalExportedFrames Nat.add] in T1, T2.
- intros [= _ <- <- <-]. cbn [Zip.clipFolders Zip.unlabeled fst snd].
  split_and!; [exact T1 | rewrite T2; cbn; unfold framesIn; lia | done | done].
- set (byClip := sortByClip localeCompare grouped.2).
  destruct (exportUnlabeled_pictures byClip
              (Tally.totalExportedFrames
                 (exportLabels localeCompare fetchBlob imageSize functionText
                    ((λ kv, (kv.1, sortByClip localeCompare kv.2)) <$> grouped.1)
                    (State.labelClipCounters st) (Tally.mk 0 0)).1.1)
              (sortBy localeCompare (OMap.keys byClip))) as [U1 U2].
  destruct (foldl_groupFrame_unlabeled (State.images st) ([], [])) as [H1 H2].
  assert (Hpics : byClip ≫= (λ kf, omap fetched kf.2)
                  ≡ₚ omap fetched
                       (filter (λ img, getCustomLabel img = None) (State.images st))).
  { unfold byClip. rewrite sortByClip_pictures. exact H1. }
  assert (Hnd : NoDup (OMap.keys byClip)).
  { unfold byClip, sortByClip.
    rewrite (omap_keys_fmap (λ kv, sortFrames localeCompare kv.2)).
    apply H2. constructor. }
  destruct (Nat.ltb_spec 0 (length byClip)) as [_|Hempty];
    intros [= _ <- <- <-]; cbn [Zip.clipFolders Zip.unlabeled fst snd].
  + split_and!; [exact T1 | by rewrite U2, T2 | done |].
    intros _. rewrite U1, <- Hpics, sortBy_Permutation.
    by rewrite <- (omap_keys_bind (λ kf, omap fetched kf.2) byClip Hnd).
  + split_and!; [exact T1 | rewrite T2; cbn; unfold framesIn; lia | done |].
    intros _. rewrite <- Hpics. destruct byClip; [done | cbn in Hempty; lia].
Qed.
End exporter_unlabeled.

Lemma export_unlabeled_frames_witness :
snd <$> (Zip.unlabeled (Scenario.theZip Scenario.exportEverything.2) ≫= snd)
≡ₚ [7%N]
∧ Zip.unlabeled (Scenario.theZip Scenario.exportEverything.2)
  = [("a01", [("00001.jpg", 7%N)])].
Proof.
assert (H1 : handleExportAnnotatedClips Scenario.localeCompare
               Scenario.fetchSome Scenario.imageSize Scenario.functionText
               Scenario.everything
             = (Scenario.exportEverything.1,
                Exported (Scenario.theZip Scenario.exportEverything.2) 1 2))
  by (vm_compute; reflexivity).
destruct (export_unlabeled_frames _ _ _ _ _ _ _ _ _ H1) as (_ & _ & _ & H).
split; [apply H; reflexivity | vm_compute; reflexivity].
Defined.


(** ** Path segments *)

Lemma chars_app (a b : string) : chars (a +:+ b) = (chars a ++ chars b)%list.
Proof. induction a as [|c a IH]; simpl; [done|]. by rewrite IH. Qed.

Lemma replaceChar_kills (c : ascii) (r s : string) :
c ∉ chars r → c ∉ chars (replaceChar c r s).
Proof.
intros Hr. induction s as [|a s IH]; simpl; [apply not_elem_of_nil|].
destruct (Ascii.eqb_spec a c) as [->|Hne].
- rewrite chars_app, elem_of_app. tauto.
- simpl. rewrite elem_of_cons. intros [?|?]; [congruence | tauto].
Qed.

Lemma replaceChar_keeps (d c : ascii) (r s : string) :
d ∉ chars r → d ∉ chars s → d ∉ chars (replaceChar c r s).
Proof.
intros Hr. induction s as [|a s IH]; simpl; [done|].
rewrite not_elem_of_cons. intros [Hda Hs].
destruct (Ascii.eqb a c).
- rewrite chars_app, elem_of_app. tauto.
- simpl. rewrite elem_of_cons. tauto.
Qed.

Lemma stripSuffixCI_keeps (d : ascii) (ext s : string) :
d ∉ chars s → d ∉ chars (stripSuffixCI ext s).
Proof.
induction s as [|a s IH]; cbn [stripSuffixCI chars].
- by destruct (String.eqb _ ext).
- rewrite not_elem_of_cons. intros [Hda Hs].
  destruct (String.eqb _ ext); cbn [chars]; [apply not_elem_of_nil|].
  rewrite elem_of_cons. tauto.
Qed.

(** X4. Whatever the name, the path segment made from it contains none of
    the nine characters it is there to remove: backslash, slash, colon,
    star, question mark, double quote, less-than, greater-than and bar. *)
Theorem toSafePathSegment_safe (name : string) :
Forall (λ c, c ∉ chars (toSafePathSegment name)) unsafePathChars.
Proof.
assert (Hr : ∀ d r, bool_decide (d ∉ chars r) = true → d ∉ chars r)
  by (intros d r H; by apply bool_decide_eq_true in H).
unfold toSafePathSegment, unsafePathChars.
repeat constructor; repeat apply stripSuffixCI_keeps;
  repeat first
    [ apply replaceChar_kills; apply Hr; vm_compute; reflexivity
    | apply replaceChar_keeps; [apply Hr; vm_compute; reflexivity|] ].
Qed.

(** ** Walking through the frames *)

(** X5. Walking with Next and Previous never leaves the frame list, changes
    neither the frames nor the marked set, and one undoes the other wherever
    the first one moved. *)
Theorem navigation_stays_in_range (st : State.t) :
(State.currentIndex st < length (State.images st))%nat →
(State.currentIndex (handleNext st) < length (State.images (handleNext st)))%nat
∧ (State.currentIndex (handlePrevious st)
   < length (State.images (handlePrevious st)))%nat
∧ State.images (handleNext st) = State.images st
∧ State.images (handlePrevious st) = State.images st
∧ State.selectedImages (handleNext st) = State.selectedImages st
∧ State.selectedImages (handlePrevious st) = State.selectedImages st
∧ (State.currentIndex (handleNext st) ≠ State.currentIndex st →
   State.currentIndex (handlePrevious (handleNext st)) = State.currentIndex st)
∧ (State.currentIndex (handlePrevious st) ≠ State.currentIndex st →
   State.currentIndex (handleNext (handlePrevious st)) = State.currentIndex st).
Proof.
intros Hin.
assert (Hn : ∀ s, State.images (handleNext s) = State.images s
                  ∧ State.selectedImages (handleNext s) = State.selectedImages s
                  ∧ State.currentIndex (handleNext s)
                    = if (S (State.currentIndex s) <? length (State.images s))%nat
                      then (State.currentIndex s + 1)%nat else State.currentIndex s).
{ intros s. unfold handleNext.
  by destruct (S (State.currentIndex s) <? length (State.images s))%nat. }
assert (Hp : ∀ s, State.images (handlePrevious s) = State.images s
                  ∧ State.selectedImages (handlePrevious s) = State.selectedImages s
                  ∧ State.currentIndex (handlePrevious s)
                    = if (0 <? State.currentIndex s)%nat
                      then (State.currentIndex s - 1)%nat else State.currentIndex s).
{ intros s. unfold handlePrevious. by destruct (0 <? State.currentIndex s)%nat. }
destruct (Hn st) as (Hn1 & Hn2 & Hn3), (Hp st) as (Hp1 & Hp2 & Hp3).
destruct (Hn (handlePrevious st)) as (_ & _ & Hnp).
destruct (Hp (handleNext st)) as (_ & _ & Hpn).
rewrite Hp1, Hp3 in Hnp. rewrite Hn3 in Hpn.
rewrite Hn1, Hn2, Hn3, Hp1, Hp2, Hp3, Hnp, Hpn.
repeat match goal with
       | |- context [(?a <? ?b)%nat] => destruct (Nat.ltb_spec a b)
       end; split_and!; try done; lia.
Qed.

Lemma navigation_stays_in_range_witness :
State.currentIndex (handleNext (handlePrevious Scenario.marked))
= State.currentIndex Scenario.marked.
Proof.
assert (H : (State.currentIndex Scenario.marked
             < length (State.images Scenario.marked))%nat)
  by (vm_compute; lia).
destruct (navigation_stays_in_range Scenario.marked H)
  as (_ & _ & _ & _ & _ & _ & _ & H2).
apply H2. vm_compute. lia.
Defined.

(** ** The marked set *)

Lemma unmarkedFrames_elem_of (sel : gset nat) (images : list ImageData.t)
  (img : ImageData.t) :
img ∈ unmarkedFrames sel images ↔ ∃ i, (i ∉ sel) ∧ images !! i = Some img.
Proof.
unfold unmarkedFrames. rewrite list_elem_of_fmap. split.
- intros ([i x] & -> & [Hi Hx]%list_elem_of_filter).
  apply elem_of_lookup_imap in Hx as (j & y & [= -> ->] & Hj). by exists j.
- intros (i & Hi & Hl). exists (i, img). split; [done|].
  apply list_elem_of_filter. split; [done|].
  apply elem_of_lookup_imap. by exists i, img.
Qed.

Lemma unmarkedFrames_sublist (sel : gset nat) (images : list ImageData.t) :
unmarkedFrames sel images `sublist_of` images.
Proof.
unfold unmarkedFrames.
assert (H : snd <$> imap pair images = images).
{ rewrite fmap_imap. rewrite (imap_ext _ (const id) images) by done.
  by rewrite imap_const, list_fmap_id. }
rewrite <- H at 2. apply fmap_sublist, sublist_filter.
Qed.

Lemma deleteMarked_spec (st : State.t) :
State.selectedImages st ≠ ∅ →
State.images (deleteMarked st)
= unmarkedFrames (State.selectedImages st) (State.images st)
∧ State.selectedImages (deleteMarked st) = ∅
∧ State.selectedDetection (deleteMarked st) = None
∧ (State.images (deleteMarked st) ≠ [] →
   (State.currentIndex (deleteMarked st) < length (State.images (deleteMarked st)))%nat).
Proof.
intros Hne. unfold deleteMarked.
destruct (Nat.eqb_spec (size (State.selectedImages st)) 0) as [Hz|_].
{ by apply size_empty_inv, leibniz_equiv in Hz. }
set (newImages := unmarkedFrames _ _).
assert (Himg : ∀ s, State.images
  (State.setSelectedImages ∅ (State.setSelectedDetection None
     (if (length newImages <=? State.currentIndex st)%nat
      then State.setCurrentIndex s (State.setImages newImages st)
      else State.setImages newImages st))) = newImages)
  by (intros s; by destruct (_ <=? _)%nat).
cbn zeta. rewrite Himg. split_and!; try done.
intros Hnn. assert (0 < length newImages)%nat
  by (destruct newImages; [done | simpl; lia]).
destruct (Nat.leb_spec (length newImages) (State.currentIndex st)); cbn; lia.
Qed.

(** X6. Deleting the marked frames keeps exactly the frames whose index is
    not marked, in their order; afterwards nothing is marked, no box is
    selected, and if a frame is left the current index points at one. *)
Theorem deleteMarked_keeps_unmarked (st : State.t) :
State.selectedImages st ≠ ∅ →
let st' := deleteMarked st in
(∀ img, img ∈ State.images st'
        ↔ ∃ i, (i ∉ State.selectedImages st) ∧ State.images st !! i = Some img)
∧ State.images st' `sublist_of` State.images st
∧ State.selectedImages st' = ∅
∧ State.selectedDetection st' = None
∧ (State.images st' ≠ [] →
   (State.currentIndex st' < length (State.images st'))%nat).
Proof.
intros Hne. cbn zeta.
destruct (deleteMarked_spec st Hne) as (Hi & Hs & Hd & Hc).
split_and!; try done.
- intros img. rewrite Hi. apply unmarkedFrames_elem_of.
- rewrite Hi. apply unmarkedFrames_sublist.
Qed.

Lemma deleteMarked_keeps_unmarked_witness :
State.images (deleteMarked Scenario.marked) = []
∧ State.selectedImages (deleteMarked Scenario.marked) = ∅.
Proof.
assert (H : State.selectedImages Scenario.marked ≠ ∅).
{ intros H.
  assert (H0 : bool_decide (0%nat ∈ State.selectedImages Scenario.marked) = true)
    by (vm_compute; reflexivity).
  apply bool_decide_eq_true in H0. rewrite H in H0.
  by apply not_elem_of_empty in H0. }
destruct (deleteMarked_keeps_unmarked Scenario.marked H) as (_ & _ & H3 & _).
split; [vm_compute; reflexivity | exact H3].
Defined.

Lemma markRange_spec (f t : Z) (st : State.t) :
State.images (markRange (Some f) (Some t) st) = State.images st
∧ ((1 <= f <= t)%Z ∧ (t <= Z.of_nat (length (State.images st)))%Z →
   ∀ i : nat, i ∈ State.selectedImages (markRange (Some f) (Some t) st)
              ↔ i ∈ State.selectedImages st ∨ (f <= Z.of_nat i + 1 <= t)%Z)
∧ (¬ ((1 <= f <= t)%Z ∧ (t <= Z.of_nat (length (State.images st)))%Z) →
   markRange (Some f) (Some t) st = st).
Proof.
assert (Hfold : ∀ (l : list nat) (X : gset nat) i,
  i ∈ foldl (λ newSelection i, newSelection ∪ {[i]}) X l ↔ i ∈ X ∨ i ∈ l).
{ induction l as [|a l IH]; intros X i; cbn [foldl].
  - rewrite elem_of_nil. tauto.
  - rewrite IH, elem_of_union, elem_of_singleton, elem_of_cons. tauto. }
unfold markRange, parseRange.
destruct (Z.ltb_spec (f - 1) 0); cbn [orb].
{ split_and!; [done | intros ?; exfalso; lia | done]. }
destruct (Z.leb_spec (Z.of_nat (length (State.images st))) (t - 1)); cbn [orb].
{ split_and!; [done | intros ?; exfalso; lia | done]. }
destruct (Z.ltb_spec (t - 1) (f - 1)); cbn [orb].
{ split_and!; [done | intros ?; exfalso; lia | done]. }
split_and!; [done | | intros ?; exfalso; lia].
intros _ i. cbn [State.selectedImages State.setSelectedImages].
rewrite Hfold, elem_of_seq.
assert ((Z.to_nat (f - 1) ≤ i
         < Z.to_nat (f - 1) + (S (Z.to_nat (t - 1)) - Z.to_nat (f - 1)))%nat
        ↔ (f <= Z.of_nat i + 1 <= t)%Z) by lia.
tauto.
Qed.


Lemma markRange_index (f t : Z) (st : State.t) :
State.currentIndex (markRange (Some f) (Some t) st) = State.currentIndex st.
Proof. unfold markRange. by destruct (parseRange _ _ _) as [[??]|]. Qed.

Lemma toggleMarked_spec (st : State.t) :
(∀ j, j ∈ State.selectedImages (toggleMarked st)
      ↔ if decide (j = State.currentIndex st)
        then j ∉ State.selectedImages st else j ∈ State.selectedImages st)
∧ State.selectedImages (toggleMarked (toggleMarked st)) = State.selectedImages st
∧ State.images (toggleMarked st) = State.images st
∧ State.currentIndex (toggleMarked st) = State.currentIndex st.
Proof.
assert (H1 : ∀ s, State.currentIndex (toggleMarked s) = State.currentIndex s
                  ∧ State.images (toggleMarked s) = State.images s
                  ∧ ∀ j, j ∈ State.selectedImages (toggleMarked s)
                         ↔ if decide (j = State.currentIndex s)
                           then j ∉ State.selectedImages s
                           else j ∈ State.selectedImages s).
{ intros s. unfold toggleMarked. case_bool_decide as Hin; cbn; split_and!;
    try done; intros j; destruct (decide (j = State.currentIndex s)) as [->|Hj].
  - rewrite elem_of_difference, elem_of_singleton. tauto.
  - rewrite elem_of_difference, elem_of_singleton. tauto.
  - rewrite elem_of_union, elem_of_singleton. tauto.
  - rewrite elem_of_union, elem_of_singleton. tauto. }
destruct (H1 st) as (Hc & Hi & Hs), (H1 (toggleMarked st)) as (_ & _ & Hs2).
split_and!; try done.
apply set_eq. intros j. rewrite Hs2, Hc.
destruct (decide (j = State.currentIndex st)) as [->|Hj].
- rewrite Hs. rewrite decide_True by done.
  destruct (decide (State.currentIndex st ∈ State.selectedImages st)); tauto.
- rewrite Hs. by rewrite decide_False.
Qed.
(** X7. The marking buttons.  Toggling the mark of the current frame
    changes the membership of the current index and of no other, and
    toggling twice gives the marked set back.  Marking a range typed as
    [from] and [to] (counted from 1) adds exactly the frames from..to to the
    marked set when 1 <= from <= to <= number of frames, and changes nothing
    otherwise.  Neither touches the frames or the current index. *)
Theorem marking_buttons (f t : Z) (st : State.t) :
let ranged := markRange (Some f) (Some t) st in
(∀ j, j ∈ State.selectedImages (toggleMarked st)
      ↔ if decide (j = State.currentIndex st)
        then j ∉ State.selectedImages st else j ∈ State.selectedImages st)
∧ State.selectedImages (toggleMarked (toggleMarked st)) = State.selectedImages st
∧ State.images (toggleMarked st) = State.images st
∧ State.currentIndex (toggleMarked st) = State.currentIndex st
∧ State.images ranged = State.images st
∧ State.currentIndex ranged = State.currentIndex st
∧ ((1 <= f <= t)%Z ∧ (t <= Z.of_nat (length (State.images st)))%Z →
   ∀ i : nat, i ∈ State.selectedImages ranged
              ↔ i ∈ State.selectedImages st ∨ (f <= Z.of_nat i + 1 <= t)%Z)
∧ (¬ ((1 <= f <= t)%Z ∧ (t <= Z.of_nat (length (State.images st)))%Z) →
   ranged = st).
Proof.
cbn zeta. destruct (toggleMarked_spec st) as (T1 & T2 & T3 & T4).
destruct (markRange_spec f t st) as (R1 & R2 & R3).
split_and!; try done. apply markRange_index.
Qed.

(** ** The review screen keeps its indices valid *)

Section review_invariant.
Variable decodeImage : File.t → option (Z * Z).

Lemma indexed_same (st st' : State.t) :
length (State.images st') = length (State.images st) →
State.currentIndex st' = State.currentIndex st →
State.selectedImages st' ⊆ State.selectedImages st →
indexed st → indexed st'.
Proof.
intros Hl Hc Hs [Hi Hm]. split.
- intros Hne. rewrite Hl, Hc. apply Hi. intros Hnil. apply Hne.
  apply nil_length_inv. by rewrite Hl, Hnil.
- intros j Hj. rewrite Hl. by apply Hm, Hs.
Qed.

Lemma indexed_toggleMarked (st : State.t) :
State.images st ≠ [] → indexed st → indexed (toggleMarked st).
Proof.
intros Hne [Hi Hm]. specialize (Hi Hne). unfold toggleMarked.
case_bool_decide; (split; [done|]); intros j;
  cbn [State.selectedImages State.setSelectedImages State.images].
- intros [Hj _]%elem_of_difference. by apply Hm.
- intros [Hj | ->%elem_of_singleton]%elem_of_union; [by apply Hm | done].
Qed.

Lemma indexed_onPanel (handler : State.t → State.t) (st : State.t) :
(State.images st ≠ [] → indexed st → indexed (handler st)) →
indexed st → indexed (onPanel handler st).
Proof.
intros H Hst. unfold onPanel, panelShown.
destruct (Nat.ltb_spec 0 (length (State.images st))); [|done].
apply H; [|done]. intros Hnil. rewrite Hnil in *. simpl in *. lia.
Qed.

(** X9. Whatever the user does on the review screen (walking, marking,
    deleting marked frames, labelling, deleting a box, detecting again),
    the current index keeps pointing at a frame while there are frames,
    and every marked index stays the index of a frame. *)
Theorem review_keeps_indexed (ev : ReviewEvent) (st : State.t) :
indexed st → indexed (review decodeImage ev st).
Proof.
intros Hst. destruct ev; cbn [review].
- unfold handleNext.
  destruct (Nat.ltb_spec (S (State.currentIndex st)) (length (State.images st)));
    [|done].
  destruct Hst as [Hi Hm]. split; [|done]. intros _. cbn. lia.
- unfold handlePrevious. destruct (Nat.ltb_spec 0 (State.currentIndex st)); [|done].
  destruct Hst as [Hi Hm]. split; [|done]. intros Hne. specialize (Hi Hne).
  cbn in *. lia.
- unfold spaceKey. destruct (Nat.ltb_spec 0 (length (State.images st))); [|done].
  apply indexed_toggleMarked; [|done]. intros Hnil. rewrite Hnil in *. simpl in *. lia.
- done.
- unfold applyQuickLabel.
  destruct (State.images st !! State.currentIndex st) as [img|] eqn:E; [|done].
  case_bool_decide; (eapply indexed_same; [| | |exact Hst]); cbn;
    rewrite ?length_insert; try done.
  apply subseteq_difference_l. done.
- unfold handleDeleteDetection.
  destruct (State.images st !! State.currentIndex st) as [img|] eqn:E; [|done].
  eapply indexed_same; [| | |exact Hst]; cbn; rewrite ?length_insert; done.
- unfold handleRedetect. destruct (State.model st); [|done].
  destruct (length (State.images st) =? 0)%nat; [done|].
  eapply indexed_same; [| | |exact Hst]; cbn; rewrite ?length_fmap; done.
- apply indexed_onPanel; [|done]. apply indexed_toggleMarked.
- apply indexed_onPanel; [|done]. intros _ [Hi Hm]. split; [done|].
  intros j. unfold markAll. cbn. rewrite elem_of_list_to_set, elem_of_seq. lia.
- apply indexed_onPanel; [|done]. intros _ [Hi Hm]. split; [done|].
  intros j Hj. by apply elem_of_empty in Hj.
- apply indexed_onPanel; [|done]. intros _ [Hi Hm].
  destruct fromInput as [f|], toInput as [t|]; try done.
  destruct (markRange_spec f t st) as (Himg & Hin & Hout).
  destruct (decide ((1 <= f <= t)%Z ∧ (t <= Z.of_nat (length (State.images st)))%Z))
    as [Hok|Hbad].
  + split.
    * rewrite Himg. by rewrite (markRange_index f t st).
    * intros j Hj. rewrite Himg. apply (Hin Hok) in Hj as [Hj|Hj]; [by apply Hm | lia].
  + by rewrite (Hout Hbad).
- apply indexed_onPanel; [|done]. intros _ Hst'.
  destruct (decide (State.selectedImages st = ∅)) as [He|Hne].
  + unfold deleteMarked. rewrite He, size_empty. done.
  + destruct (deleteMarked_spec st Hne) as (_ & Hs & _ & Hc). split; [done|].
    intros j. rewrite Hs. intros Hj. by apply elem_of_empty in Hj.
- apply indexed_onPanel; [|done]. intros _ Hst'. unfold batchLabel.
  destruct fromInput, toInput; try done. destruct (negb (truthy label)); [done|].
  destruct (parseRange _ _ _) as [[from to]|]; [|done].
  eapply indexed_same; [| | |exact Hst]; cbn; rewrite ?length_imap; done.
- apply indexed_onPanel; [|done]. intros _ Hst'. unfold labelDetection.
  destruct (State.images st !! State.currentIndex st) as [img|] eqn:E; [|done].
  eapply indexed_same; [| | |exact Hst]; cbn; rewrite ?length_insert; done.
Qed.
End review_invariant.

Lemma review_keeps_indexed_witness :
indexed (review Scenario.decodeImage DeleteMarked Scenario.marked).
Proof.
apply review_keeps_indexed. split.
- intros _. vm_compute. lia.
- intros j Hj.
  assert (Hsel : State.selectedImages Scenario.marked = {[ 0%nat; 1%nat ]}) by reflexivity.
  rewrite Hsel in Hj. apply elem_of_union in Hj as [Hj|Hj];
    apply elem_of_singleton in Hj; subst j; vm_compute; lia.
Defined.

(** ** Labelling frames *)

Lemma firstCustomDetectionLabel_all (label : string) (dets : list Detection.t) :
Forall (λ d, Detection.label d = label) dets →
firstCustomDetectionLabel dets
= if isCustomLabel (trim label) then (λ _, trim label) <$> head dets else None.
Proof.
induction 1 as [|d ds Hd _ IH]; cbn [firstCustomDetectionLabel head].
- by destruct (isCustomLabel (trim label)).
- rewrite Hd, IH. by destruct (isCustomLabel (trim label)).
Qed.

(** The export label of a frame whose activity label and box labels are
    all [label]. *)
Lemma getCustomLabel_labelled (label : string) (img : ImageData.t) :
ImageData.activityLabel img = Some label →
Forall (λ d, Detection.label d = label) (ImageData.detections img) →
getCustomLabel img = if truthy (trim label) then Some (trim label) else None.
Proof.
intros Ha Hd. unfold getCustomLabel. rewrite Ha. cbn [default from_option id].
destruct (truthy (trim label)) eqn:E; [done|].
rewrite (firstCustomDetectionLabel_all label) by done.
unfold isCustomLabel. by rewrite E.
Qed.

Lemma with_label_all (label : string) (dets : list Detection.t) :
Forall (λ d, Detection.label d = label) (Detection.with_label label <$> dets).
Proof. apply Forall_fmap, Forall_forall. by intros d _. Qed.



Section batch_labelling.
Variable decodeImage : File.t → option (Z * Z).

Lemma batchLabelFrame_spec (st : State.t) (label : string) (img : ImageData.t) :
let img' := batchLabelFrame decodeImage st label img in
ImageData.file img' = ImageData.file img
∧ ImageData.url img' = ImageData.url img
∧ ImageData.frameNumber img' = ImageData.frameNumber img
∧ ImageData.sourceVideo img' = ImageData.sourceVideo img
∧ ImageData.activityLabel img' = Some label
∧ Forall (λ d, Detection.label d = label) (ImageData.detections img')
∧ ImageData.detections img'
  = Detection.with_label label
      <$> (if decide (ImageData.detections img = [] ∧ is_Some (State.model st))
           then filter (λ d, isPerson d = true)
                  (detectObjects decodeImage (State.model st)
                     (State.boundingBoxPadding st) (ImageData.file img)
                     (State.confidenceThreshold st))
           else ImageData.detections img).
Proof.
cbn zeta. unfold batchLabelFrame.
cbn [ImageData.file ImageData.url ImageData.frameNumber ImageData.sourceVideo
     ImageData.activityLabel ImageData.detections].
split_and!; try done.
- destruct (_ && _); apply with_label_all.
- destruct (ImageData.detections img) as [|d ds] eqn:Ed; cbn [length Nat.eqb andb].
  + case_bool_decide as Hm.
    * by rewrite decide_True.
    * rewrite decide_False; [done|]. by intros [_ ?].
  + rewrite decide_False; [done|]. by intros [? _].
Qed.

(** X11. Labelling a range typed as [from] and [to] (counted from 1).
    When both fields hold a number, 1 <= from <= to <= number of frames and
    the label is not empty, every frame of the range gets that label as its
    activity label and is exported under the trimmed label; a frame that had
    boxes keeps them, renamed to the label; a frame without boxes gets the
    person boxes of a new detection on its picture, renamed to the label,
    when a model is loaded, and stays without boxes otherwise.  Frames
    outside the range, the marked set and the current index stay as they
    are.  With any other input (a field that is not a number, an empty
    label, a range outside the frames) nothing changes at all. *)
Theorem batchLabel_labels_range (fromInput toInput : option Z) (label : string)
  (st : State.t) :
let st' := batchLabel decodeImage fromInput toInput label st in
let valid := λ f t : Z,
  fromInput = Some f ∧ toInput = Some t
  ∧ (1 <= f <= t)%Z ∧ (t <= Z.of_nat (length (State.images st)))%Z
  ∧ label ≠ "" in
length (State.images st') = length (State.images st)
∧ State.selectedImages st' = State.selectedImages st
∧ State.currentIndex st' = State.currentIndex st
∧ (∀ f t, valid f t →
   ∀ (i : nat) img, State.images st !! i = Some img →
     ∃ img', State.images st' !! i = Some img'
       ∧ if decide (f <= Z.of_nat i + 1 <= t)%Z
         then ImageData.file img' = ImageData.file img
              ∧ ImageData.url img' = ImageData.url img
              ∧ ImageData.frameNumber img' = ImageData.frameNumber img
              ∧ ImageData.sourceVideo img' = ImageData.sourceVideo img
              ∧ ImageData.activityLabel img' = Some label
              ∧ getCustomLabel img'
                = (if truthy (trim label) then Some (trim label) else None)
              ∧ ImageData.detections img'
                = Detection.with_label label
                    <$> (if decide (ImageData.detections img = []
                                    ∧ is_Some (State.model st))
                         then filter (λ d, isPerson d = true)
                                (detectObjects decodeImage (State.model st)
                                   (State.boundingBoxPadding st)
                                   (ImageData.file img)
                                   (State.confidenceThreshold st))
                         else ImageData.detections img)
         else img' = img)
∧ ((¬ ∃ f t, valid f t) → st' = st).
Proof.
cbn zeta. unfold batchLabel, parseRange.
destruct fromInput as [f|], toInput as [t|];
  try (split_and!; [done | done | done | by intros ? ? (? & ? & _) | done]).
destruct (truthy label) eqn:El; cbn [negb].
2:{ apply truthy_false in El. split_and!; try done.
    by intros ? ? (_ & _ & _ & _ & ?). }
apply truthy_true in El.
destruct (Z.ltb_spec (f - 1) 0); cbn [orb].
{ split_and!; try done. intros ? ? ([= <-] & [= <-] & ? & _). exfalso. lia. }
destruct (Z.leb_spec (Z.of_nat (length (State.images st))) (t - 1)); cbn [orb].
{ split_and!; try done. intros ? ? ([= <-] & [= <-] & ? & ? & _). exfalso. lia. }
destruct (Z.ltb_spec (t - 1) (f - 1)); cbn [orb].
{ split_and!; try done. intros ? ? ([= <-] & [= <-] & ? & _). exfalso. lia. }
cbn [State.images State.setImages State.selectedImages State.currentIndex].
split_and!; try done.
- by rewrite length_imap.
- intros ? ? ([= <-] & [= <-] & _) i img Hi. rewrite list_lookup_imap, Hi. cbn.
  destruct (decide (f <= Z.of_nat i + 1 <= t)%Z) as [Hin|Hout].
  + assert (((Z.to_nat (f - 1) <=? i)%nat && (i <=? Z.to_nat (t - 1))%nat) = true)
      as -> by (apply andb_true_iff; split; apply Nat.leb_le; lia).
    eexists. split; [done|].
    destruct (batchLabelFrame_spec st label img)
      as (Hb1 & Hb2 & Hb3 & Hb4 & Hb5 & Hb6 & Hb7).
    split_and!; try done. by apply getCustomLabel_labelled.
  + assert (((Z.to_nat (f - 1) <=? i)%nat && (i <=? Z.to_nat (t - 1))%nat) = false)
      as ->.
    { apply andb_false_iff.
      destruct (Nat.leb_spec (Z.to_nat (f - 1)) i); [right|by left].
      apply Nat.leb_gt. lia. }
    by eexists.
- intros Hv. exfalso. apply Hv. exists f, t. split_and!; try done; lia.
Qed.
End batch_labelling.

(** X12. Labelling one box (a quick-label button on the selected box, or
    the label editor) makes the label the activity label of the current
    frame and the label of that box, and of no other box; the frame is then
    exported under the trimmed label when that is not blank.  When the box
    does not exist the frame still takes the activity label. *)
Theorem labelDetection_labels_frame (idx : nat) (label : string) (st : State.t)
  (img : ImageData.t) :
State.images st !! State.currentIndex st = Some img →
∃ img',
  State.images (labelDetection idx label st)
  = <[State.currentIndex st := img']> (State.images st)
  ∧ ImageData.activityLabel img' = Some label
  ∧ ImageData.file img' = ImageData.file img
  ∧ length (ImageData.detections img') = length (ImageData.detections img)
  ∧ (∀ j d, ImageData.detections img !! j = Some d →
       ImageData.detections img' !! j
       = Some (if decide (j = idx) then Detection.with_label label d else d))
  ∧ (trim label ≠ "" → getCustomLabel img' = Some (trim label)).
Proof.
intros Himg. unfold labelDetection. rewrite Himg. eexists. split; [done|].
cbn [ImageData.activityLabel ImageData.file ImageData.detections].
split_and!; try done.
- destruct (ImageData.detections img !! idx); [|done]. by rewrite length_insert.
- intros j d Hj. destruct (decide (j = idx)) as [->|Hne].
  + rewrite Hj. rewrite list_lookup_insert_eq; [done|]. by eapply lookup_lt_Some.
  + destruct (ImageData.detections img !! idx); [|done].
    by rewrite list_lookup_insert_ne.
- intros Hl. unfold getCustomLabel. cbn [ImageData.activityLabel default from_option id].
  by apply truthy_true in Hl as ->.
Qed.

Lemma labelDetection_labels_frame_witness :
∃ img', State.images (labelDetection 5 "Welding" Scenario.marked)
        = <[1%nat := img']> (State.images Scenario.marked)
        ∧ getCustomLabel img' = Some "Welding".
Proof.
assert (H : State.images Scenario.marked !! State.currentIndex Scenario.marked
            = Some (Scenario.frame 2 "a01" None [Scenario.person; Scenario.person]))
  by reflexivity.
destruct (labelDetection_labels_frame 5 "Welding" Scenario.marked _ H)
  as (img' & H1 & _ & _ & _ & _ & H6).
exists img'. split; [exact H1|]. apply H6. vm_compute. discriminate.
Defined.

(** ** Boxes under the pointer *)

Lemma boxUnder_none (x y : Q) (detections : list Detection.t) (i : nat) :
Forall (λ d, insideBox x y d = false) detections →
boxUnder x y detections i = None.
Proof.
intros Hall. induction i as [|i IH]; cbn [boxUnder]; [done|].
destruct (detections !! i) as [d|] eqn:E; [|done].
by rewrite (proj1 (Forall_lookup _ _) Hall i d E).
Qed.

Lemma drawnBox_not_custom (b : Box.t) (dets : list Detection.t) :
firstCustomDetectionLabel (dets ++ [drawnBox b]) = firstCustomDetectionLabel dets.
Proof.
induction dets as [|d ds IH]; cbn [app firstCustomDetectionLabel].
- reflexivity.
- by rewrite IH.
Qed.

Lemma getCustomLabel_drawnBox (b : Box.t) (img : ImageData.t) :
getCustomLabel
  (ImageData.with_detections (ImageData.detections img ++ [drawnBox b]) img)
= getCustomLabel img.
Proof.
unfold getCustomLabel. cbn [ImageData.with_detections ImageData.activityLabel
  ImageData.detections]. by rewrite drawnBox_not_custom.
Qed.

(** X13. Drawing a box: a press where no box is (none selected), a move and
    a release.  If the rectangle spanned is at least 30 wide and 30 high,
    the current frame gets one more box, the last one, with the spanned
    rectangle, the class person and confidence 1, and that box is selected;
    otherwise no frame changes.  Either way the pointer is idle again, the
    marked set and the current index are as before, and no frame has got
    another export label. *)
Theorem drawing_a_box (x0 y0 x1 y1 : Q) (st : State.t) (img : ImageData.t) :
State.images st !! State.currentIndex st = Some img →
State.selectedDetection st = None →
Forall (λ d, insideBox x0 y0 d = false) (ImageData.detections img) →
let box := Detection.mk (Qmin x0 x1) (Qmin y0 y1) (Qabs (x1 - x0))
             (Qabs (y1 - y0)) "person" 1 in
let big := Qle_bool 30 (Qabs (x1 - x0)) && Qle_bool 30 (Qabs (y1 - y0)) in
∃ st',
  handleCanvasMouseUp
    (handleCanvasMouseMove x1 y1 (handleCanvasMouseDown x0 y0 (st, Pointer.idle)))
  = Some (st', Pointer.idle)
  ∧ State.images st'
    = (if big
       then <[State.currentIndex st :=
                ImageData.with_detections (ImageData.detections img ++ [box]) img]>
              (State.images st)
       else State.images st)
  ∧ State.selectedDetection st'
    = (if big then Some (length (ImageData.detections img)) else None)
  ∧ State.selectedImages st' = State.selectedImages st
  ∧ State.currentIndex st' = State.currentIndex st
  ∧ getCustomLabel <$> State.images st' = getCustomLabel <$> State.images st.
Proof.
intros Himg Hsel Hmiss. cbn zeta.
unfold handleCanvasMouseDown. cbn [fst snd]. rewrite Himg, Hsel.
rewrite boxUnder_none by done.
unfold handleCanvasMouseMove. cbn [fst snd Pointer.isDrawingBox Pointer.drawingStart].
unfold handleCanvasMouseUp.
cbn [fst snd Pointer.isDrawingBox Pointer.drawingPreview State.currentIndex
     State.images State.setSelectedDetection Pointer.resizing
     Pointer.previewDetection Pointer.idle Box.width Box.height].
rewrite Himg.
destruct (Qle_bool 30 (Qabs (x1 - x0)) && Qle_bool 30 (Qabs (y1 - y0))).
- eexists. split; [reflexivity|].
  cbn [State.images State.setImages State.setSelectedDetection
       State.selectedDetection State.selectedImages State.currentIndex].
  split_and!; try done.
  + rewrite length_app. cbn. f_equal. lia.
  + rewrite list_fmap_insert.
    change (Detection.mk (Qmin x0 x1) (Qmin y0 y1) (Qabs (x1 - x0))
              (Qabs (y1 - y0)) "person" 1)
      with (drawnBox (Box.mk (Qmin x0 x1) (Qmin y0 y1) (Qabs (x1 - x0))
                        (Qabs (y1 - y0)))).
    rewrite getCustomLabel_drawnBox. apply list_insert_id.
    by rewrite list_lookup_fmap, Himg.
- eexists. split; [reflexivity|]. done.
Qed.

Lemma drawing_a_box_witness :
∃ st',
  handleCanvasMouseUp
    (handleCanvasMouseMove 400 300
       (handleCanvasMouseDown 300 250 (Scenario.marked, Pointer.idle)))
  = Some (st', Pointer.idle)
  ∧ State.selectedDetection st' = Some 2%nat.
Proof.
assert (H1 : State.images Scenario.marked !! State.currentIndex Scenario.marked
             = Some (Scenario.frame 2 "a01" None [Scenario.person; Scenario.person]))
  by reflexivity.
assert (H2 : Forall (λ d, insideBox 300 250 d = false)
               [Scenario.person; Scenario.person])
  by (repeat constructor).
destruct (drawing_a_box 300 250 400 300 Scenario.marked _ H1 eq_refl H2)
  as (st' & Hup & _ & Hs & _).
exists st'. split; [exact Hup | exact Hs].
Defined.

Lemma resized_bounds (handle : ResizeHandle.t) (dx dy : Q) (orig : Detection.t) :
let d := resized handle dx dy orig in
(20 <= Detection.width d)%Q ∧ (20 <= Detection.height d)%Q
∧ Detection.label d = Detection.label orig
∧ Detection.confidence d = Detection.confidence orig
∧ ((0 <= Detection.x orig)%Q → (0 <= Detection.x d)%Q)
∧ ((0 <= Detection.y orig)%Q → (0 <= Detection.y d)%Q).
Proof.
assert (Hmin : ∀ v : Q, (20 <= (if Qlt_bool v 20 then 20 else v))%Q).
{ intros v. unfold Qlt_bool. destruct (Qle_bool 20 v) eqn:E; cbn [negb].
  - by apply Qle_bool_iff.
  - apply Qle_refl. }
cbn zeta. unfold resized.
destruct handle; cbn [Detection.x Detection.y Detection.width Detection.height
                      Detection.label Detection.confidence];
  split_and!; try done; try apply Hmin; intros; try done; apply Q.le_max_l.
Qed.

(** X14. Dragging a selected box by a corner or by its inside: press on the
    handle, move, release.  The box is replaced by the resized one and stays
    selected; whatever the movement, the new box is at least 20 wide and 20
    high, keeps its label and confidence, and does not get a negative
    origin if it had none.  No box is added or removed, the pointer is
    released, and the handle taken is a corner or the inside. *)
Theorem dragging_a_box (x0 y0 x1 y1 : Q) (st : State.t) (ptr : Pointer.t)
  (img : ImageData.t) (sel : nat) (d : Detection.t) (handle : ResizeHandle.t) :
State.images st !! State.currentIndex st = Some img →
State.selectedDetection st = Some sel →
ImageData.detections img !! sel = Some d →
getHandleAtPosition x0 y0 d = Some handle →
Pointer.isDrawingBox ptr = false →
let d' := resized handle (x1 - x0) (y1 - y0) d in
∃ st' ptr',
  handleCanvasMouseUp
    (handleCanvasMouseMove x1 y1 (handleCanvasMouseDown x0 y0 (st, ptr)))
  = Some (st', ptr')
  ∧ State.images st'
    = <[State.currentIndex st :=
          ImageData.with_detections (<[sel := d']> (ImageData.detections img)) img]>
        (State.images st)
  ∧ State.selectedDetection st' = Some sel
  ∧ Pointer.resizing ptr' = None ∧ Pointer.previewDetection ptr' = None
  ∧ (20 <= Detection.width d')%Q ∧ (20 <= Detection.height d')%Q
  ∧ Detection.label d' = Detection.label d
  ∧ Detection.confidence d' = Detection.confidence d
  ∧ ((0 <= Detection.x d)%Q → (0 <= Detection.x d')%Q)
  ∧ ((0 <= Detection.y d)%Q → (0 <= Detection.y d')%Q)
  ∧ handle ∈ [ ResizeHandle.nw; ResizeHandle.ne; ResizeHandle.se;
               ResizeHandle.sw; ResizeHandle.move ].
Proof.
intros Himg Hsel Hd Hh Hdraw. cbn zeta.
unfold handleCanvasMouseDown. cbn [fst snd]. rewrite Himg, Hsel, Hd, Hh.
unfold handleCanvasMouseMove.
cbn [fst snd Pointer.isDrawingBox Pointer.drawingStart Pointer.resizing].
rewrite Hdraw, Himg, Hsel.
cbn [Resizing.startX Resizing.startY Resizing.handle Resizing.originalDetection].
unfold handleCanvasMouseUp.
cbn [fst snd Pointer.isDrawingBox Pointer.drawingPreview Pointer.resizing
     Pointer.previewDetection].
rewrite ?Hdraw, ?Hsel, ?Himg. unfold setDetection.
assert (Hlt : (sel <? length (ImageData.detections img))%nat = true)
  by (apply Nat.ltb_lt; by eapply lookup_lt_Some).
rewrite Hlt. cbn [mbind option_bind].
destruct (resized_bounds handle (x1 - x0) (y1 - y0) d) as (B1 & B2 & B3 & B4 & B5 & B6).
eexists _, _. split; [reflexivity|].
cbn [State.images State.setImages State.selectedDetection Pointer.resizing
     Pointer.previewDetection].
split_and!; try done.
unfold getHandleAtPosition in Hh.
repeat match type of Hh with
       | (if ?b then _ else _) = _ => destruct b
       end; inversion Hh; subst; set_solver.
Qed.

Lemma dragging_a_box_witness :
∃ st' ptr',
  handleCanvasMouseUp
    (handleCanvasMouseMove 0 0
       (handleCanvasMouseDown 110 220
          (State.setSelectedDetection (Some 0%nat) Scenario.marked, Pointer.idle)))
  = Some (st', ptr')
  ∧ Pointer.resizing ptr' = None.
Proof.
assert (H1 : State.images (State.setSelectedDetection (Some 0%nat) Scenario.marked)
               !! State.currentIndex (State.setSelectedDetection (Some 0%nat) Scenario.marked)
             = Some (Scenario.frame 2 "a01" None [Scenario.person; Scenario.person]))
  by reflexivity.
assert (H2 : getHandleAtPosition 110 220 Scenario.person = Some ResizeHandle.se)
  by (vm_compute; reflexivity).
destruct (dragging_a_box 110 220 0 0 _ Pointer.idle _ 0%nat Scenario.person
            ResizeHandle.se H1 eq_refl eq_refl H2 eq_refl)
  as (st' & ptr' & Hup & _ & _ & Hr & _).
exists st', ptr'. split; [exact Hup | exact Hr].
Defined.

(** X15. Deleting a box removes that box of the current frame and no
    other, clears the selection and leaves the other frames alone; an index
    beyond the boxes deletes nothing, and deleting the box that was appended
    last gives the frame back as it was. *)
Theorem handleDeleteDetection_removes_one (idx : nat) (st : State.t)
  (img : ImageData.t) :
State.images st !! State.currentIndex st = Some img →
let st' := handleDeleteDetection idx st in
State.images st'
= <[State.currentIndex st :=
      ImageData.with_detections (delete idx (ImageData.detections img)) img]>
    (State.images st)
∧ State.selectedDetection st' = None
∧ State.selectedImages st' = State.selectedImages st
∧ ((length (ImageData.detections img) ≤ idx)%nat →
   State.images st' = State.images st)
∧ ∀ b : Detection.t,
    State.images
      (handleDeleteDetection (length (ImageData.detections img))
         (State.setImages
            (<[State.currentIndex st :=
                 ImageData.with_detections (ImageData.detections img ++ [b]) img]>
               (State.images st)) st))
    = State.images st.
Proof.
intros Himg. cbn zeta. unfold handleDeleteDetection. rewrite Himg.
cbn [State.images State.setImages State.setSelectedDetection
     State.selectedDetection State.selectedImages State.currentIndex].
assert (Hid : ImageData.with_detections (ImageData.detections img) img = img)
  by (by destruct img).
split_and!; try done.
- intros Hge. rewrite delete_take_drop, take_ge, drop_ge, app_nil_r by lia.
  rewrite Hid. by apply list_insert_id.
- intros b. rewrite list_lookup_insert_eq by (by eapply lookup_lt_Some).
  rewrite list_insert_insert_eq. apply list_insert_id. rewrite Himg. f_equal.
  destruct img as [f u ds fn sv al].
  cbn [ImageData.with_detections ImageData.detections ImageData.file ImageData.url
       ImageData.frameNumber ImageData.sourceVideo ImageData.activityLabel].
  by rewrite delete_middle, app_nil_r.
Qed.

Lemma handleDeleteDetection_removes_one_witness :
State.selectedDetection (handleDeleteDetection 0 Scenario.marked) = None.
Proof.
assert (H1 : State.images Scenario.marked !! State.currentIndex Scenario.marked
             = Some (Scenario.frame 2 "a01" None [Scenario.person; Scenario.person]))
  by reflexivity.
destruct (handleDeleteDetection_removes_one 0 Scenario.marked _ H1) as (_ & H & _).
exact H.
Defined.

(** ** The list of activity labels *)

Lemma trimEnd_idemp (s : string) : trimEnd (trimEnd s) = trimEnd s.
Proof.
induction s as [|c s IH]; [done|]. cbn [trimEnd].
destruct (trimEnd s) as [|c' r] eqn:E.
- destruct (is_white c) eqn:Ec; [done|]. cbn [trimEnd]. by rewrite Ec.
- cbn [trimEnd] in *. by rewrite IH.
Qed.

Lemma trimStart_head (s : string) :
match trimStart s with
| EmptyString => True
| String c _ => is_white c = false
end.
Proof.
induction s as [|c s IH]; [done|]. cbn [trimStart].
destruct (is_white c) eqn:Ec; [exact IH | exact Ec].
Qed.

Lemma trim_idemp (s : string) : trim (trim s) = trim s.
Proof.
unfold trim. pose proof (trimStart_head s) as Hh.
destruct (trimStart s) as [|c t]; [done|].
assert (Hs : trimStart (trimEnd (String c t)) = trimEnd (String c t)).
{ cbn [trimEnd]. destruct (trimEnd t); rewrite ?Hh; cbn [trimStart]; by rewrite Hh. }
rewrite Hs. apply trimEnd_idemp.
Qed.

(** X16. Adding a custom label keeps the list of activity labels free of
    repetitions and the custom labels free of blank entries: a label that is
    blank after trimming, or that is already there, is not added; any other
    is added trimmed at the end, and the field is cleared.  Removing a custom
    label keeps both properties as well.  (A custom label is never blank
    and is its own trimmed form.) *)
Theorem custom_labels_stay_distinct (newCustomLabel : string)
  (customActivityLabels : list string) (idx : nat) :
NoDup (activityLabels customActivityLabels) →
Forall (λ l, l ≠ "" ∧ trim l = l) customActivityLabels →
let added := (addCustomLabel newCustomLabel customActivityLabels).1 in
NoDup (activityLabels added)
∧ Forall (λ l, l ≠ "" ∧ trim l = l) added
∧ customActivityLabels `prefix_of` added
∧ (trim newCustomLabel ≠ "" →
   trim newCustomLabel ∈ activityLabels added
   ∧ (addCustomLabel newCustomLabel customActivityLabels).2 = "")
∧ NoDup (activityLabels (removeCustomLabel idx customActivityLabels))
∧ Forall (λ l, l ≠ "" ∧ trim l = l) (removeCustomLabel idx customActivityLabels).
Proof.
intros Hnd Hne. cbn zeta. unfold addCustomLabel, removeCustomLabel.
assert (Hdel : delete idx customActivityLabels `sublist_of` customActivityLabels)
  by apply sublist_delete.
assert (Hrm : NoDup (activityLabels (delete idx customActivityLabels))
              ∧ Forall (λ l, l ≠ "" ∧ trim l = l) (delete idx customActivityLabels)).
{ split.
  - unfold activityLabels in *. eapply sublist_NoDup; [exact Hnd|].
    by apply sublist_app.
  - by apply Forall_delete. }
destruct Hrm as [Hrm1 Hrm2].
destruct (truthy (trim newCustomLabel)) eqn:Et; cbn [fst snd].
- apply truthy_true in Et. case_bool_decide as Hin.
  + split_and!; try done.
  + split_and!; try done.
    * unfold activityLabels in *. rewrite (assoc_L app).
      apply NoDup_app. split_and!; [done | | apply NoDup_singleton].
      intros l Hl ->%list_elem_of_singleton. done.
    * apply Forall_app. split; [done|]. repeat constructor; [done|].
      apply trim_idemp.
    * by apply prefix_app_r.
    * intros _. split; [|done]. unfold activityLabels.
      rewrite !elem_of_app, list_elem_of_singleton. tauto.
- apply truthy_false in Et. split_and!; try done.
Qed.

Lemma custom_labels_stay_distinct_witness :
NoDup (activityLabels (addCustomLabel " Entgraten " []).1).
Proof.
assert (H : NoDup (activityLabels [])).
{ assert (Hb : bool_decide (NoDup (activityLabels [])) = true)
    by (vm_compute; reflexivity).
  by apply bool_decide_eq_true in Hb. }
destruct (custom_labels_stay_distinct " Entgraten " [] 0 H (Forall_nil_2 _))
  as (H1 & _).
exact H1.
Defined.

(** ** The clip editor: grid, markers, window *)

Lemma mathRound_near (q : Q) :
(inject_Z (mathRound q) - q <= 1 # 2)%Q ∧ (q - inject_Z (mathRound q) < 1 # 2)%Q.
Proof.
unfold mathRound. pose proof (Qfloor_le (q + (1 # 2))) as Hle.
pose proof (Qlt_floor (q + (1 # 2))) as Hlt.
rewrite inject_Z_plus in Hlt. change (inject_Z 1) with 1%Q in Hlt.
split; lra.
Qed.

Lemma mathRound_inject_Z (k : Z) (q : Q) : (q == inject_Z k)%Q → mathRound q = k.
Proof.
intros Hq. unfold mathRound.
assert (H : (q + (1 # 2) == inject_Z k + (1 # 2))%Q) by (by rewrite Hq).
rewrite (Qfloor_comp _ _ H).
pose proof (Qfloor_le (inject_Z k + (1 # 2))) as Hle.
pose proof (Qlt_floor (inject_Z k + (1 # 2))) as Hlt.
rewrite inject_Z_plus in Hlt. change (inject_Z 1) with 1%Q in Hlt.
set (z := Qfloor (inject_Z k + (1 # 2))) in *.
assert (H1 : (inject_Z z < inject_Z (k + 1))%Q)
  by (rewrite inject_Z_plus; change (inject_Z 1) with 1%Q; lra).
assert (H2 : (inject_Z k < inject_Z (z + 1))%Q)
  by (rewrite inject_Z_plus; change (inject_Z 1) with 1%Q; lra).
rewrite <- Zlt_Qlt in H1, H2. lia.
Qed.


(** X17. Snapping puts a time on the half-second grid, moves it by at most
    a quarter of a second (up when it is exactly between two grid points),
    keeps the order of times, keeps a time that is not negative from
    becoming negative, and leaves a time on the grid where it is. *)
Theorem snapToGrid_on_grid (time : Q) :
(∃ k : Z, snapToGrid time = (inject_Z k * (1 # 2))%Q)
∧ (snapToGrid time - time <= 1 # 4)%Q
∧ (time - snapToGrid time < 1 # 4)%Q
∧ ((0 <= time)%Q → (0 <= snapToGrid time)%Q)
∧ (∀ later : Q, (time <= later)%Q → (snapToGrid time <= snapToGrid later)%Q)
∧ snapToGrid (snapToGrid time) = snapToGrid time.
Proof.
unfold snapToGrid. cbn zeta.
destruct (mathRound_near (time / (1 # 2))) as [H1 H2].
assert (Hd : (time / (1 # 2) == time * 2)%Q) by (field).
set (x := (time / (1 # 2))%Q) in *. clearbody x.
split_and!.
- by eexists.
- lra.
- lra.
- intros H0.
  assert (Hk : (0 <= mathRound x)%Z).
  { unfold mathRound. change 0%Z with (Qfloor 0). apply Qfloor_resp_le.
    lra. }
  rewrite Zle_Qle in Hk. change (inject_Z 0) with 0%Q in Hk. lra.
- intros later Hl.
  assert (Hd' : (later / (1 # 2) == later * 2)%Q) by field.
  set (x' := (later / (1 # 2))%Q) in *. clearbody x'.
  assert (Hk : (mathRound x <= mathRound x')%Z).
  { unfold mathRound. apply Qfloor_resp_le. lra. }
  rewrite Zle_Qle in Hk. lra.
- f_equal. f_equal. apply mathRound_inject_Z. field.
Qed.

Lemma clampTo_bounds (hi v : Q) :
(0 <= hi)%Q → (0 <= clampTo hi v)%Q ∧ (clampTo hi v <= hi)%Q.
Proof.
intros Hhi. unfold clampTo. split; [apply Q.le_max_l|].
apply Q.max_lub; [done | apply Q.le_min_r].
Qed.









Lemma updatedMarker_inside (duration : Q) (id : string) (field : MarkerField.t)
  (value : Q) (m : ClipMarker.t) :
(0 <= duration)%Q → markerInside duration m →
markerInside duration (updatedMarker duration id field value m).
Proof.
intros Hd (H0 & H1 & H2). unfold updatedMarker.
destruct (String.eqb (ClipMarker.id m) id); [|done].
destruct (clampTo_bounds duration value Hd) as [Hc0 Hc1].
set (v := clampTo duration value) in *. clearbody v.
unfold markerInside.
destruct field.
- destruct (Qle_bool (ClipMarker.endTime m) v) eqn:E;
    cbn [ClipMarker.startTime ClipMarker.endTime].
  + split_and!; [done | | apply Q.le_min_r].
    apply Q.min_glb; lra.
  + assert (¬ (ClipMarker.endTime m <= v)%Q)
      by (rewrite <- Qle_bool_iff; by rewrite E).
    split_and!; [done | lra | done].
- destruct (Qle_bool v (ClipMarker.startTime m)) eqn:E;
    cbn [ClipMarker.startTime ClipMarker.endTime].
  + split_and!; [apply Q.le_max_r | | done].
    apply Q.max_lub; lra.
  + assert (¬ (v <= ClipMarker.startTime m)%Q)
      by (rewrite <- Qle_bool_iff; by rewrite E).
    split_and!; [done | lra | done].
Qed.

(** X20. Editing a time of a marker keeps every marker inside the video
    with its start not after its end; the markers keep their number, order
    and ids, and a marker with another id is not touched. *)
Theorem updateMarker_keeps_markers_inside (id : string) (field : MarkerField.t)
  (value : Q) (ed : Editor.t) :
(0 <= Editor.duration ed)%Q →
Forall (markerInside (Editor.duration ed)) (Editor.markers ed) →
let ed' := updateMarker id field value ed in
Forall (markerInside (Editor.duration ed')) (Editor.markers ed')
∧ ClipMarker.id <$> Editor.markers ed' = ClipMarker.id <$> Editor.markers ed
∧ ∀ i m, Editor.markers ed !! i = Some m → ClipMarker.id m ≠ id →
         Editor.markers ed' !! i = Some m.
Proof.
intros Hd Hall. cbn zeta. unfold updateMarker.
cbn [Editor.markers Editor.duration Editor.setMarkers]. split_and!.
- apply Forall_fmap. eapply Forall_impl; [exact Hall|].
  intros m Hm. by apply updatedMarker_inside.
- rewrite <- list_fmap_compose. apply list_fmap_ext. intros i m _. cbn.
  unfold updatedMarker. destruct (String.eqb _ _); [|done]. by destruct field, (Qle_bool _ _).
- intros i m Hi Hne. rewrite list_lookup_fmap, Hi. cbn. f_equal.
  unfold updatedMarker. by apply String.eqb_neq in Hne as ->.
Qed.

Lemma updateMarker_keeps_markers_inside_witness :
Forall (markerInside 10)
  (Editor.markers
     (updateMarker "m1" MarkerField.startTime 12
        (Editor.mk None 10 0 [ClipMarker.mk "m1" 2 5 None] 1 0 None))).
Proof.
assert (H1 : (0 <= Editor.duration
                     (Editor.mk None 10 0 [ClipMarker.mk "m1" 2 5 None] 1 0 None))%Q)
  by discriminate.
assert (H2 : Forall (markerInside 10) [ClipMarker.mk "m1" 2 5 None]).
{ repeat constructor; cbn; discriminate. }
exact (proj1 (updateMarker_keeps_markers_inside "m1" MarkerField.startTime 12
                (Editor.mk None 10 0 [ClipMarker.mk "m1" 2 5 None] 1 0 None)
                H1 H2)).
Defined.




(** ** Loading videos and clips: witnesses and what is kept *)

Lemma handleVideoUpload_marks_witness :
let st' := handleVideoUpload Scenario.enhanceFrame Scenario.toBlob
             Scenario.decodeSmall Scenario.createObjectURL Scenario.sampling
             [Video.mk "v.mp4" 2 Scenario.videoFrame] in
(∀ j, j ∈ State.selectedImages st' → is_Some (State.images st' !! j))
∧ ∀ j frame,
    State.images st' !! j = Some frame →
    videoMarkRule Scenario.toBlob Scenario.sampling
      [Video.mk "v.mp4" 2 Scenario.videoFrame] frame
      (j ∈ State.selectedImages st').
Proof.
apply (handleVideoUpload_marks Scenario.enhanceFrame Scenario.toBlob
         Scenario.decodeSmall Scenario.createObjectURL Scenario.sampling
         [Video.mk "v.mp4" 2 Scenario.videoFrame] Scenario.wholeFrame).
- reflexivity.
- discriminate.
Defined.

Lemma handleLoadClipsToAnnotator_marks_witness :
ImageData.url <$> State.images Scenario.loaded
= ["blob:sharp"; "blob:flat"; "blob:gone"; "blob:sharp"; "blob:flat"]
∧ State.selectedImages Scenario.loaded = {[ 1%nat; 4%nat ]}
∧ (∃ frame canvas,
     State.images Scenario.loaded !! 1%nat = Some frame
     ∧ ImageData.detections frame ≠ []
     ∧ Scenario.loadCanvas (ImageData.url frame) = Some canvas
     ∧ Forall (λ d, (detectMotionBlur canvas d < 100)%Q)
         (ImageData.detections frame))
∧ (∃ frame canvas,
     State.images Scenario.loaded !! 0%nat = Some frame
     ∧ ImageData.detections frame ≠ []
     ∧ Scenario.loadCanvas (ImageData.url frame) = Some canvas
     ∧ ¬ Forall (λ d, (detectMotionBlur canvas d < 100)%Q)
           (ImageData.detections frame)).
Proof.
assert (Hm : State.model Scenario.loading = Some Scenario.personUnlessEmpty)
  by reflexivity.
assert (Hc : [Scenario.manualClip; Scenario.automaticClip] ≠ []) by discriminate.
destruct (handleLoadClipsToAnnotator_marks Scenario.decodeSmall
            Scenario.loadCanvas Scenario.loading
            [Scenario.manualClip; Scenario.automaticClip]
            Scenario.personUnlessEmpty Hm Hc) as [_ Hrule].
fold Scenario.loaded in Hrule.
assert (Hsel : State.selectedImages Scenario.loaded = {[ 1%nat; 4%nat ]})
  by (vm_compute; reflexivity).
split; [vm_compute; reflexivity|]. split; [exact Hsel|]. split.
- destruct (State.images Scenario.loaded !! 1%nat) as [frame|] eqn:E;
    [|vm_compute in E; discriminate E].
  destruct (proj1 (Hrule 1%nat frame E)) as (_ & Hne & canvas & Hl & Hall).
  { rewrite Hsel. apply elem_of_union_l, elem_of_singleton. reflexivity. }
  exists frame, canvas. split; [reflexivity|]. split; [exact Hne|].
  split; [exact Hl | exact Hall].
- destruct (State.images Scenario.loaded !! 0%nat) as [frame|] eqn:E;
    [|vm_compute in E; discriminate E].
  assert (Hne : ImageData.detections frame ≠ []).
  { pose proof E as E'. vm_compute in E'. injection E' as <-. discriminate. }
  assert (Hl : Scenario.loadCanvas (ImageData.url frame)
               = Some (Scenario.videoFrame 0)).
  { pose proof E as E'. vm_compute in E'. injection E' as <-. reflexivity. }
  exists frame, (Scenario.videoFrame 0).
  split; [reflexivity|]. split; [exact Hne|]. split; [exact Hl|].
  intros Hall.
  assert (Hin : 0%nat ∈ State.selectedImages Scenario.loaded).
  { apply (proj2 (Hrule 0%nat frame E)). split; [reflexivity|].
    split; [exact Hne|]. exists (Scenario.videoFrame 0).
    split; [exact Hl | exact Hall]. }
  rewrite Hsel in Hin. clear - Hin.
  apply elem_of_union in Hin as [Hin | Hin];
    apply elem_of_singleton in Hin; discriminate Hin.
Defined.

Section loading_frames.
Variable decodeImage : File.t → option (Z * Z).
Variable loadCanvas : string → option Canvas.t.

Local Abbreviation loadClipFrame' := (loadClipFrame decodeImage loadCanvas).

(** What [loadClipFrame] keeps of a clip frame, if it keeps it. *)
Local Abbreviation kept := (λ (st : State.t) (clip : ClipData.t) (frame : ClipFrame.t),
  let persons :=
    filter (λ d, isPerson d = true)
      (detectObjects decodeImage (State.model st) (State.boundingBoxPadding st)
         (ClipFrame.file frame) (State.confidenceThreshold st)) in
  if ClipData.isManual clip || (0 <? length persons)%nat
  then Some (ImageData.mk (ClipFrame.file frame) (ClipFrame.url frame) persons
               (Some (ClipFrame.frameNumber frame)) (Some (ClipData.name clip)) None)
  else None).



End loading_frames.


(** ** Automatic clips in general *)

Section automatic_clips.
Variable grabFrame : Q → N.
Variable createObjectURL : N → string.

Local Abbreviation clipFramesLoop' := (clipFramesLoop grabFrame createObjectURL).
Local Abbreviation clipFrameAt' := (clipFrameAt grabFrame createObjectURL).

(** The time at which frame [frameInClip] of clip [clipIdx] is grabbed. *)
Local Abbreviation timeOf := (λ (clipIdx framesPerClip : nat) (iv : Q) (frameInClip : nat),
  (inject_Z (Z.of_nat (clipIdx * framesPerClip + frameInClip)) * iv)%Q).

Lemma clipFramesLoop_prefix (clipIdx framesPerClip : nat) (iv duration : Q)
  (frameInClips : list nat) :
∃ n, (n ≤ length frameInClips)%nat
  ∧ clipFramesLoop' clipIdx framesPerClip iv duration frameInClips
    = (λ k, clipFrameAt' k (timeOf clipIdx framesPerClip iv k))
        <$> take n frameInClips
  ∧ Forall (λ k, (timeOf clipIdx framesPerClip iv k <= duration)%Q)
      (take n frameInClips).
Proof.
induction frameInClips as [|k ks (n & Hn & Heq & Hle)]; cbn [clipFramesLoop].
- exists 0%nat. by split_and!.
- unfold Qlt_bool. destruct (Qle_bool _ duration) eqn:E; cbn [negb].
  + exists (S n). cbn [length take fmap list_fmap]. split_and!; [lia | |].
    * by rewrite Heq.
    * constructor; [by apply Qle_bool_iff | done].
  + exists 0%nat. cbn. split_and!; [lia | done | constructor].
Qed.

(** X25. Whatever the video, the interval and the clip size, every
    automatic clip has at least one frame and at most [framesPerClip]; its
    frames are numbered 1, 2, ... without gaps; frame k (from 0) of the clip
    with index c is the picture grabbed at (c * framesPerClip + k) times the
    interval, a time not after the end of the video; and the clip is named
    after the video and its index and is not a manual clip. *)
Theorem createClipsFromVideo_clip_shape (videoName : string)
  (duration clipFrameInterval : Q) (framesPerClip : nat) (clip : ClipData.t) :
clip ∈ createClipsFromVideo grabFrame createObjectURL videoName duration
         clipFrameInterval framesPerClip →
(0 < length (ClipData.frames clip) ≤ framesPerClip)%nat
∧ ClipFrame.frameNumber <$> ClipData.frames clip
  = seq 1 (length (ClipData.frames clip))
∧ ClipData.sourceVideo clip = videoName
∧ ClipData.isManual clip = false
∧ ∃ clipIdx,
    (clipIdx < numClips duration clipFrameInterval framesPerClip)%nat
    ∧ ClipData.name clip = stripExtension videoName +:+ pad2 (S clipIdx)
    ∧ ∀ k frame,
        ClipData.frames clip !! k = Some frame →
        let time :=
          (inject_Z (Z.of_nat (clipIdx * framesPerClip + k)) * clipFrameInterval)%Q in
        File.blob (ClipFrame.file frame) = grabFrame time
        ∧ ClipFrame.url frame = createObjectURL (grabFrame time)
        ∧ (time <= duration)%Q.
Proof.
unfold createClipsFromVideo. destruct (Qle_bool duration 0).
{ by intros ?%elem_of_nil. }
intros (clipIdx & Hin & Hk)%list_elem_of_omap. cbn zeta in Hk.
apply elem_of_seq in Hin as [_ Hlt]. cbn in Hlt.
destruct (clipFramesLoop_prefix clipIdx framesPerClip clipFrameInterval duration
            (seq 0 framesPerClip)) as (n & Hn & Heq & Hle).
rewrite length_seq in Hn. rewrite take_seq in Heq, Hle.
rewrite (Nat.min_l n framesPerClip) in Heq, Hle by lia.
rewrite Heq in Hk. rewrite length_fmap, length_seq in Hk.
destruct (Nat.eqb_spec n 0) as [Hz|Hn0]; [done|]. injection Hk as <-.
cbn [ClipData.frames ClipData.sourceVideo ClipData.isManual ClipData.name].
rewrite length_fmap, length_seq. split_and!; try done; try lia.
- rewrite <- list_fmap_compose. cbn. by rewrite fmap_S_seq.
- exists clipIdx. split_and!; try done.
  intros k frame Hf. rewrite list_lookup_fmap in Hf.
  destruct (seq 0 n !! k) as [k'|] eqn:Ek; [|done].
  apply lookup_seq in Ek as [-> Hkn]. cbn in Hf. injection Hf as <-.
  cbn. split_and!; try done.
  rewrite Forall_forall in Hle. apply (Hle k). apply elem_of_seq. lia.
Qed.
End automatic_clips.

Lemma createClipsFromVideo_clip_shape_witness :
ClipData.isManual
  (ClipData.mk "work01"
     (clipFramesLoop Scenario.grabFrame Scenario.createObjectURL 0 2 1 1 (seq 0 2))
     "work.mp4" false)
= false.
Proof.
assert (H : ClipData.mk "work01"
              (clipFramesLoop Scenario.grabFrame Scenario.createObjectURL 0 2 1 1
                 (seq 0 2)) "work.mp4" false
            ∈ createClipsFromVideo Scenario.grabFrame Scenario.createObjectURL
                "work.mp4" 1 1 2).
{ apply (list_elem_of_lookup_2 _ 0%nat). vm_compute. reflexivity. }
destruct (createClipsFromVideo_clip_shape Scenario.grabFrame
            Scenario.createObjectURL "work.mp4" 1 1 2 _ H) as (_ & _ & _ & H4 & _).
exact H4.
Defined.

(** ** Manual clips: sampling a marker and cutting the clips *)

Section marker_clips.
Variable grabFrame : Q → N.
Variable createObjectURL : N → string.

Local Abbreviation markerFrames' := (markerFrames grabFrame createObjectURL).

Lemma frameTimesLoop_times (fuel : nat) (t endTime iv : Q) (i : nat) (x : Q) :
frameTimesLoop fuel t endTime iv !! i = Some x →
x = Nat.iter i (λ y, Double.add y iv) t ∧ (x < endTime)%Q.
Proof.
revert t i. induction fuel as [|fuel IH]; intros t i; cbn [frameTimesLoop];
  [done|].
unfold Qlt_bool. destruct (Qle_bool endTime t) eqn:E; cbn [negb]; [done|].
assert (Hlt : (t < endTime)%Q).
{ apply Qnot_le_lt. rewrite <- Qle_bool_iff. by rewrite E. }
destruct i as [|i]; cbn [lookup list_lookup].
- by intros [= <-].
- intros Hx. destruct (IH _ _ Hx) as [Heq Hend]. split; [|done].
  rewrite Heq. exact (Nat.iter_swap i Q (λ y, Double.add y iv) t).
Qed.

Lemma frameTimesLoop_length (fuel : nat) (t endTime iv : Q) :
(length (frameTimesLoop fuel t endTime iv) ≤ fuel)%nat.
Proof.
revert t. induction fuel as [|fuel IH]; intros t; cbn [frameTimesLoop]; [done|].
destruct (Qlt_bool t endTime); cbn [length]; [|lia].
specialize (IH (Double.add t iv)). lia.
Qed.

Lemma frameTimesLoop_stops (fuel : nat) (t endTime iv : Q) :
(length (frameTimesLoop fuel t endTime iv) < fuel)%nat →
(endTime
 <= Nat.iter (length (frameTimesLoop fuel t endTime iv))
      (λ y, Double.add y iv) t)%Q.
Proof.
revert t. induction fuel as [|fuel IH]; intros t; cbn [frameTimesLoop]; [lia|].
unfold Qlt_bool. destruct (Qle_bool endTime t) eqn:E; cbn [negb length].
- intros _. by apply Qle_bool_iff in E.
- intros Hlen. specialize (IH (Double.add t iv) ltac:(lia)).
  eapply Qle_trans; [exact IH|]. apply Qle_lteq. right.
  by rewrite (Nat.iter_swap _ Q (λ y, Double.add y iv) t).
Qed.

(** X26. Sampling a marker.  The sampling time is a running sum: it starts
    at the start of the marker and every round adds the interval and rounds
    the sum as binary64 does.  For a marker that does not start before 0,
    a positive interval and times below [2^52] intervals: frame i (from 0)
    is numbered i + 1 and is the picture at the time after i rounds, a time
    before the end of the marker; the sampling goes on until the time is
    not before the end any more; and a marker that ends after it starts
    gives at least one frame. *)
Theorem markerFrames_sampling (marker : ClipMarker.t) (frameInterval : Q) :
(0 <= ClipMarker.startTime marker)%Q →
(0 < frameInterval)%Q →
(ClipMarker.endTime marker + frameInterval
 <= 4503599627370496 * frameInterval)%Q →
let frames := markerFrames' marker frameInterval in
let time := λ i : nat,
  Nat.iter i (λ t, Double.add t frameInterval) (ClipMarker.startTime marker) in
(∀ i frame,
   frames !! i = Some frame →
   ClipFrame.frameNumber frame = S i
   ∧ (time i < ClipMarker.endTime marker)%Q
   ∧ File.blob (ClipFrame.file frame) = grabFrame (time i)
   ∧ ClipFrame.url frame = createObjectURL (grabFrame (time i)))
∧ (ClipMarker.endTime marker <= time (length frames))%Q
∧ ((ClipMarker.startTime marker < ClipMarker.endTime marker)%Q →
   (0 < length frames)%nat).
Proof.
intros Hs Hiv Hbig. cbn zeta. unfold markerFrames.
assert (Hstop : (ClipMarker.endTime marker
   <= Nat.iter (length (frameTimes marker frameInterval))
        (λ t, Double.add t frameInterval) (ClipMarker.startTime marker))%Q).
{ rewrite <- (frameTimes_fuel marker frameInterval 1 Hs Hiv Hbig).
  apply frameTimesLoop_stops.
  rewrite (frameTimes_fuel marker frameInterval 1 Hs Hiv Hbig).
  unfold frameTimes at 1.
  pose proof (frameTimesLoop_length
    (Z.to_nat (Qceiling (2 * (ClipMarker.endTime marker
                              - ClipMarker.startTime marker) / frameInterval)))
    (ClipMarker.startTime marker) (ClipMarker.endTime marker) frameInterval).
  lia. }
split_and!.
- intros i frame Hf. rewrite list_lookup_imap in Hf.
  destruct (frameTimes marker frameInterval !! i) as [x|] eqn:Et; [|done].
  cbn in Hf. injection Hf as <-. split; [done|].
  destruct (frameTimesLoop_times _ _ _ frameInterval _ _ Et) as [-> Hend].
  by split_and!.
- by rewrite length_imap.
- intros Hse. rewrite length_imap.
  destruct (frameTimes marker frameInterval); [|simpl; lia].
  exfalso. change (ClipMarker.endTime marker <= ClipMarker.startTime marker)%Q
    in Hstop. lra.
Qed.

Lemma clipsOfFrames_shape (base videoName : string) (allFrames : list ClipFrame.t) :
ClipFrame.frameNumber <$> allFrames = seq 1 (length allFrames) →
Forall (λ clip,
    (length (ClipData.frames clip) ≤ MAX_FRAMES_PER_CLIP)%nat
    ∧ ClipFrame.frameNumber <$> ClipData.frames clip
      = seq 1 (length (ClipData.frames clip))
    ∧ ClipData.sourceVideo clip = videoName
    ∧ ClipData.isManual clip = false)
  (clipsOfFrames base videoName allFrames)
∧ ClipFrame.picture <$> mjoin (ClipData.frames <$> clipsOfFrames base videoName allFrames)
  = ClipFrame.picture <$> allFrames.
Proof.
intros Hnum. unfold clipsOfFrames.
destruct (Nat.leb_spec (length allFrames) MAX_FRAMES_PER_CLIP) as [Hle|Hgt].
- split.
  + constructor; [|constructor]. cbn. by split_and!.
  + cbn. by rewrite app_nil_r.
- destruct (split_sizes (length allFrames) Hgt) as (Hk & Hc & Hcover & _ & _).
  split.
  + apply Forall_fmap, Forall_forall. intros j _. unfold compose. split_and!.
    * rewrite clipPart_length. lia.
    * by rewrite clipPart_frames, renumber_frameNumber, length_imap.
    * done.
    * done.
  + rewrite join_parts. by rewrite take_ge by lia.
Qed.

(** X27. The clips made from the markers of the editor: every clip has at
    most 200 frames, numbered 1, 2, ... without gaps, names the video as its
    source and is not yet flagged as manual; and the pictures of all clips,
    put end to end, are the pictures sampled for the markers, marker by
    marker, in order. *)
Theorem extractClipsFromMarkers_clips (video : File.t)
  (markers : list ClipMarker.t) (frameInterval : Q) (clips : list ClipData.t) :
extractClipsFromMarkers grabFrame createObjectURL (Some video) markers frameInterval
= Some clips →
Forall (λ clip,
    (length (ClipData.frames clip) ≤ MAX_FRAMES_PER_CLIP)%nat
    ∧ ClipFrame.frameNumber <$> ClipData.frames clip
      = seq 1 (length (ClipData.frames clip))
    ∧ ClipData.sourceVideo clip = File.name video
    ∧ ClipData.isManual clip = false)
  clips
∧ ClipFrame.picture <$> (clips ≫= ClipData.frames)
  = ClipFrame.picture <$> (markers ≫= λ marker, markerFrames' marker frameInterval).
Proof.
unfold extractClipsFromMarkers. destruct (length markers =? 0)%nat; [done|].
intros [= <-].
assert (Hgen : ∀ k,
  Forall (λ clip,
      (length (ClipData.frames clip) ≤ MAX_FRAMES_PER_CLIP)%nat
      ∧ ClipFrame.frameNumber <$> ClipData.frames clip
        = seq 1 (length (ClipData.frames clip))
      ∧ ClipData.sourceVideo clip = File.name video
      ∧ ClipData.isManual clip = false)
    (mjoin (imap (λ markerIdx marker,
              clipsOfFrames (clipBaseName (k + markerIdx) marker) (File.name video)
                (markerFrames' marker frameInterval)) markers))
  ∧ ClipFrame.picture
      <$> (mjoin (imap (λ markerIdx marker,
              clipsOfFrames (clipBaseName (k + markerIdx) marker) (File.name video)
                (markerFrames' marker frameInterval)) markers) ≫= ClipData.frames)
    = ClipFrame.picture <$> (markers ≫= λ marker, markerFrames' marker frameInterval)).
{ induction markers as [|marker rest IH]; intros k.
  - split; [constructor | done].
  - cbn [imap].
    match goal with
    | |- context [mjoin (?a :: ?b)] =>
        change (mjoin (a :: b)) with (a ++ mjoin b)%list
    end.
    destruct (clipsOfFrames_shape (clipBaseName (k + 0) marker) (File.name video)
                (markerFrames' marker frameInterval)
                (markerFrames_numbered grabFrame createObjectURL marker frameInterval))
      as [Hshape Hpics].
    specialize (IH (S k)).
    rewrite (imap_ext _ (λ markerIdx marker0,
               clipsOfFrames (clipBaseName (S k + markerIdx) marker0) (File.name video)
                 (markerFrames' marker0 frameInterval)) rest) 
      by (intros i m _; cbn; do 2 f_equal; lia).
    destruct IH as [IH1 IH2]. split.
    + by apply Forall_app.
    + rewrite bind_app, bind_cons, !fmap_app, IH2. f_equal.
      rewrite <- Hpics. f_equal. clear.
      induction (clipsOfFrames _ _ _) as [|c cs IHc]; [done|].
      cbn. by rewrite IHc. }
apply (Hgen 0%nat).
Qed.
End marker_clips.

Lemma markerFrames_sampling_witness :
(0 < length (markerFrames Scenario.grabFrame Scenario.createObjectURL
               Scenario.offGrid (1 # 2)))%nat
∧ length (markerFrames Scenario.grabFrame Scenario.createObjectURL
            Scenario.offGrid (1 # 2)) = 9%nat.
Proof.
assert (H0 : (0 <= ClipMarker.startTime Scenario.offGrid)%Q)
  by (vm_compute; discriminate).
assert (H1 : (0 < 1 # 2)%Q) by reflexivity.
assert (H2 : (ClipMarker.endTime Scenario.offGrid + (1 # 2)
              <= 4503599627370496 * (1 # 2))%Q) by (vm_compute; discriminate).
destruct (markerFrames_sampling Scenario.grabFrame Scenario.createObjectURL
            Scenario.offGrid (1 # 2) H0 H1 H2) as (_ & _ & H3).
split; [apply H3; vm_compute; reflexivity | vm_compute; reflexivity].
Defined.

Lemma extractClipsFromMarkers_clips_witness :
Forall (λ clip,
    (length (ClipData.frames clip) ≤ MAX_FRAMES_PER_CLIP)%nat
    ∧ ClipFrame.frameNumber <$> ClipData.frames clip
      = seq 1 (length (ClipData.frames clip))
    ∧ ClipData.sourceVideo clip = "v.mp4"
    ∧ ClipData.isManual clip = false)
  (clipsOfFrames (clipBaseName 0 (ClipMarker.mk "m1" 0 2 None)) "v.mp4"
     (markerFrames Scenario.grabFrame Scenario.createObjectURL
        (ClipMarker.mk "m1" 0 2 None) 1)).
Proof.
assert (H : extractClipsFromMarkers Scenario.grabFrame Scenario.createObjectURL
              (Some (File.mk "v.mp4" 0)) [ClipMarker.mk "m1" 0 2 None] 1
            = Some (clipsOfFrames (clipBaseName 0 (ClipMarker.mk "m1" 0 2 None))
                      "v.mp4"
                      (markerFrames Scenario.grabFrame Scenario.createObjectURL
                         (ClipMarker.mk "m1" 0 2 None) 1)))
  by (vm_compute; reflexivity).
exact (proj1 (extractClipsFromMarkers_clips Scenario.grabFrame
                Scenario.createObjectURL _ _ _ _ H)).
Defined.

(** ** Detecting again and the export *)

(** X29. Detecting again keeps the frames in place (their number, files,
    URLs, frame numbers and clips), the marked set and the current index,
    and a frame with an activity label that is not blank is exported under
    the same label as before, whatever the detector finds. *)
Theorem handleRedetect_keeps_export_labels
  (decodeImage : File.t → option (Z * Z)) (st : State.t) :
let st' := handleRedetect decodeImage st in
length (State.images st') = length (State.images st)
∧ State.selectedImages st' = State.selectedImages st
∧ State.currentIndex st' = State.currentIndex st
∧ ∀ i img,
    State.images st !! i = Some img →
    ∃ img',
      State.images st' !! i = Some img'
      ∧ ImageData.file img' = ImageData.file img
      ∧ ImageData.url img' = ImageData.url img
      ∧ ImageData.frameNumber img' = ImageData.frameNumber img
      ∧ ImageData.sourceVideo img' = ImageData.sourceVideo img
      ∧ (trim (default "" (ImageData.activityLabel img)) ≠ "" →
         getCustomLabel img' = getCustomLabel img).
Proof.
cbn zeta. unfold handleRedetect. destruct (State.model st) as [m|] eqn:Hm.
2:{ split_and!; try done. intros i img Hi. by exists img. }
destruct (length (State.images st) =? 0)%nat.
{ split_and!; try done. intros i img Hi. by exists img. }
cbn [State.images State.setImages State.setSelectedDetection
     State.selectedImages State.currentIndex].
split_and!; try done.
- by rewrite length_fmap.
- intros i img Hi. rewrite list_lookup_fmap, Hi. eexists. split; [done|].
  unfold redetectFrame.
  cbn [ImageData.with_detections ImageData.file ImageData.url
       ImageData.frameNumber ImageData.sourceVideo].
  split_and!; try done.
  intros Hl. apply truthy_true in Hl. unfold getCustomLabel.
  cbn [ImageData.activityLabel ImageData.with_detections]. by rewrite Hl.
Qed.

(** ** Sharpening *)

Lemma writes_lookup (F : nat → Z) (js : list nat) (out : list Z) (i : nat) :
foldl (λ o j, <[j := F j]> o) out js !! i
= if decide (i ∈ js) then (λ _, F i) <$> out !! i else out !! i.
Proof.
revert out. induction js as [|j js IH]; intros out; cbn [foldl].
- rewrite decide_False; [done | apply not_elem_of_nil].
- rewrite IH. destruct (decide (j = i)) as [->|Hne].
  + rewrite (decide_True (P := i ∈ i :: js)) by (by left).
    destruct (decide (i < length out)%nat) as [Hlt|Hge].
    * rewrite list_lookup_insert_eq by done.
      destruct (lookup_lt_is_Some_2 out i Hlt) as [v ->]. by case_decide.
    * rewrite (lookup_ge_None_2 out i) by lia.
      rewrite (lookup_ge_None_2 (<[i:=F i]> out) i) by (rewrite length_insert; lia).
      by case_decide.
  + rewrite list_lookup_insert_ne by done.
    destruct (decide (i ∈ js)) as [Hin|Hnin].
    * rewrite decide_True; [done | by right].
    * rewrite decide_False; [done|]. by intros [?|?]%elem_of_cons.
Qed.

Lemma writes_length (F : nat → Z) (js : list nat) (out : list Z) :
length (foldl (λ o j, <[j := F j]> o) out js) = length out.
Proof.
revert out. induction js as [|j js IH]; intros out; cbn [foldl]; [done|].
by rewrite IH, length_insert.
Qed.

Lemma foldl_bind {A B C : Type} (g : A → C → A) (h : B → list C) (a : A)
  (ks : list B) :
foldl (λ o k, foldl g o (h k)) a ks = foldl g a (ks ≫= h).
Proof.
revert a. induction ks as [|k ks IH]; intros a; cbn [foldl]; [done|].
by rewrite bind_cons, foldl_app, IH.
Qed.

Lemma foldl_ext_in {A B : Type} (f g : A → B → A) (a : A) (l : list B) :
(∀ o k, k ∈ l → f o k = g o k) → foldl f a l = foldl g a l.
Proof.
revert a. induction l as [|k l IH]; intros a H; cbn [foldl]; [done|].
rewrite (H a k) by (by left). apply IH. intros o k' Hk'. apply H. by right.
Qed.

Lemma decode_channel (width x y c : nat) :
(x < width)%nat → (c < 4)%nat →
(channelIndex width x y c `div` 4 = y * width + x)%nat
∧ (channelIndex width x y c `mod` 4 = c)%nat
∧ ((y * width + x) `div` width = y)%nat
∧ ((y * width + x) `mod` width = x)%nat.
Proof.
intros Hx Hc. unfold channelIndex. split_and!.
- symmetry. apply (Nat.div_unique _ 4 _ c); lia.
- symmetry. apply (Nat.mod_unique _ 4 (y * width + x) c); lia.
- symmetry. apply (Nat.div_unique _ width _ x); lia.
- symmetry. apply (Nat.mod_unique _ width y x); lia.
Qed.

Lemma channelIndex_inj (width x y c x' y' c' : nat) :
(x < width)%nat → (c < 4)%nat → (x' < width)%nat → (c' < 4)%nat →
channelIndex width x y c = channelIndex width x' y' c' →
x = x' ∧ y = y' ∧ c = c'.
Proof.
intros Hx Hc Hx' Hc' Heq.
destruct (decode_channel width x y c Hx Hc) as (D1 & D2 & D3 & D4).
destruct (decode_channel width x' y' c' Hx' Hc') as (E1 & E2 & E3 & E4).
rewrite Heq in D1, D2. rewrite E1 in D1. rewrite E2 in D2.
rewrite D1 in E3, E4. rewrite D3 in E3. rewrite D4 in E4. by split_and!.
Qed.

Lemma channelIndex_decompose (width height i : nat) :
(i < 4 * width * height)%nat →
∃ x y c, (x < width)%nat ∧ (y < height)%nat ∧ (c < 4)%nat
         ∧ i = channelIndex width x y c.
Proof.
intros Hi. assert (Hw : (0 < width)%nat) by nia.
exists ((i `div` 4) `mod` width)%nat, ((i `div` 4) `div` width)%nat, (i `mod` 4)%nat.
pose proof (Nat.div_mod_eq i 4) as H4.
pose proof (Nat.mod_upper_bound i 4 ltac:(lia)) as Hc.
pose proof (Nat.div_mod_eq (i `div` 4) width) as Hp.
pose proof (Nat.mod_upper_bound (i `div` 4) width ltac:(lia)) as Hx.
unfold channelIndex. split_and!; [done | | done | ].
- apply Nat.Div0.div_lt_upper_bound. apply Nat.Div0.div_lt_upper_bound. lia.
- set (p := (i `div` 4)%nat) in *. set (q := (p `div` width)%nat) in *.
  set (r := (p `mod` width)%nat) in *. lia.
Qed.

Section sharpening.
Variable width height : nat.
Variable data : list Z.

Local Abbreviation inner := (sharpenedByte data width).
Local Abbreviation innerIndices :=
  ((y ← seq 1 (height - 2); x ← seq 1 (width - 2); [(y, x)])
   ≫= λ yx : nat * nat,
        [ channelIndex width yx.2 yx.1 0; channelIndex width yx.2 yx.1 1;
          channelIndex width yx.2 yx.1 2; channelIndex width yx.2 yx.1 3 ]).
Local Abbreviation pair4 := (λ a b : nat,
  [ (a + 0)%nat; (b + 0)%nat; (a + 1)%nat; (b + 1)%nat; (a + 2)%nat;
    (b + 2)%nat; (a + 3)%nat; (b + 3)%nat ]).
Local Abbreviation rowIndices :=
  (seq 0 width ≫= λ x, pair4 (x * 4)%nat (((height - 1) * width + x) * 4)%nat).
Local Abbreviation columnIndices :=
  (seq 0 height
   ≫= λ y, pair4 (y * width * 4)%nat ((y * width + width - 1) * 4)%nat).

Lemma sharpen_as_writes :
sharpen width height data
= foldl (λ o j, <[j := byteAt data j]> o)
    (foldl (λ o j, <[j := byteAt data j]> o)
       (foldl (λ o j, <[j := inner j]> o) (replicate (length data) 0%Z)
          innerIndices)
       rowIndices)
    columnIndices.
Proof.
unfold sharpen. cbn zeta.
rewrite <- !(foldl_bind (λ o j, <[j := byteAt data j]> o)).
rewrite <- (foldl_bind (λ o j, <[j := inner j]> o)).
f_equal. f_equal. apply foldl_ext_in.
intros o [y x] Hyx.
apply list_elem_of_bind in Hyx as (y' & Hyx & Hy).
apply list_elem_of_bind in Hyx as (x' & Hyx & Hx).
apply list_elem_of_singleton in Hyx as [= -> ->].
apply elem_of_seq in Hx as [Hx1 Hx2].
unfold sharpenPixel. cbn [fst snd foldl].
assert (Hw : (x' < width)%nat) by lia.
assert (Hv : ∀ c, (c < 4)%nat →
  inner (channelIndex width x' y' c)
  = if (c <? 3)%nat
    then Z.min 255 (Z.max 0 (convolve data width x' y' c))
    else byteAt data (channelIndex width x' y' c)).
{ intros c Hc. destruct (decode_channel width x' y' c Hw Hc) as (D1 & D2 & D3 & D4).
  unfold sharpenedByte. by rewrite D1, D2, D3, D4. }
rewrite (Hv 0%nat), (Hv 1%nat), (Hv 2%nat), (Hv 3%nat) by lia.
reflexivity.
Qed.

Lemma innerIndices_elem (j : nat) :
j ∈ innerIndices
↔ ∃ x y c, (1 ≤ x ∧ x + 1 < width)%nat ∧ (1 ≤ y ∧ y + 1 < height)%nat
           ∧ (c < 4)%nat ∧ j = channelIndex width x y c.
Proof.
rewrite list_elem_of_bind. split.
- intros ([y x] & Hj & Hyx).
  apply list_elem_of_bind in Hyx as (y' & Hyx & Hy).
  apply list_elem_of_bind in Hyx as (x' & Hyx & Hx).
  apply list_elem_of_singleton in Hyx as [= -> ->].
  apply elem_of_seq in Hx, Hy. exists x', y'. cbn [fst snd] in Hj.
  repeat (apply elem_of_cons in Hj as [->|Hj]);
    [exists 0%nat | exists 1%nat | exists 2%nat | exists 3%nat
     | by apply elem_of_nil in Hj]; split_and!; try done; lia.
- intros (x & y & c & Hx & Hy & Hc & ->). exists (y, x). split.
  + cbn [fst snd]. destruct c as [|[|[|[|c]]]]; [| | | |lia];
      repeat first [by left | right].
  + apply list_elem_of_bind. exists y. split; [|apply elem_of_seq; lia].
    apply list_elem_of_bind. exists x. split; [by left | apply elem_of_seq; lia].
Qed.

Lemma pair4_elem (a b j : nat) :
j ∈ pair4 a b ↔ ∃ c, (c < 4)%nat ∧ (j = (a + c)%nat ∨ j = (b + c)%nat).
Proof.
split.
- intros Hj.
  repeat (apply elem_of_cons in Hj as [->|Hj]);
    [exists 0%nat | exists 0%nat | exists 1%nat | exists 1%nat | exists 2%nat
     | exists 2%nat | exists 3%nat | exists 3%nat | by apply elem_of_nil in Hj];
    (split; [lia | tauto]).
- intros (c & Hc & Hj). destruct c as [|[|[|[|c]]]]; [| | | |lia];
    destruct Hj as [-> | ->]; repeat first [by left | right].
Qed.

Lemma edgeIndices_elem (x y c : nat) :
(x < width)%nat → (y < height)%nat → (c < 4)%nat →
channelIndex width x y c ∈ rowIndices ∨ channelIndex width x y c ∈ columnIndices
↔ (x = 0 ∨ y = 0 ∨ x = width - 1 ∨ y = height - 1)%nat.
Proof.
intros Hx Hy Hc. rewrite !list_elem_of_bind. split.
- intros [(x' & Hj & Hx') | (y' & Hj & Hy')].
  + apply elem_of_seq in Hx' as [_ Hx']. cbn in Hx'.
    apply pair4_elem in Hj as (c' & Hc' & [Hj|Hj]).
    * assert (Hj' : channelIndex width x y c = channelIndex width x' 0 c')
        by (rewrite Hj; unfold channelIndex; lia).
      apply channelIndex_inj in Hj' as (_ & Hy0 & _); [tauto | done..].
    * assert (Hj' : channelIndex width x y c
                    = channelIndex width x' (height - 1) c')
        by (rewrite Hj; unfold channelIndex; lia).
      apply channelIndex_inj in Hj' as (_ & Hy0 & _); [tauto | done..].
  + apply elem_of_seq in Hy' as [_ Hy']. cbn in Hy'.
    apply pair4_elem in Hj as (c' & Hc' & [Hj|Hj]).
    * assert (Hj' : channelIndex width x y c = channelIndex width 0 y' c')
        by (rewrite Hj; unfold channelIndex; lia).
      apply channelIndex_inj in Hj' as (Hx0 & _ & _); [tauto | done | done | lia | done].
    * assert (Hj' : channelIndex width x y c
                    = channelIndex width (width - 1) y' c')
        by (rewrite Hj; unfold channelIndex; lia).
      apply channelIndex_inj in Hj' as (Hx0 & _ & _); [tauto | done | done | lia | done].
- intros [-> | [-> | [-> | ->]]].
  + right. exists y. split; [|apply elem_of_seq; lia].
    apply pair4_elem. exists c. split; [done|]. left. unfold channelIndex. lia.
  + left. exists x. split; [|apply elem_of_seq; lia].
    apply pair4_elem. exists c. split; [done|]. left. unfold channelIndex. lia.
  + right. exists y. split; [|apply elem_of_seq; lia].
    apply pair4_elem. exists c. split; [done|]. right. unfold channelIndex. lia.
  + left. exists x. split; [|apply elem_of_seq; lia].
    apply pair4_elem. exists c. split; [done|]. right. unfold channelIndex. lia.
Qed.

(** What the buffer holds after the pass, channel by channel. *)
Lemma sharpen_lookup (x y c : nat) :
length data = (4 * width * height)%nat →
(x < width)%nat → (y < height)%nat → (c < 4)%nat →
sharpen width height data !! channelIndex width x y c
= Some (if decide ((1 ≤ x ∧ x + 1 < width)%nat ∧ (1 ≤ y ∧ y + 1 < height)%nat
                   ∧ (c < 3)%nat)
        then Z.min 255 (Z.max 0 (convolve data width x y c))
        else byteAt data (channelIndex width x y c)).
Proof.
intros Hlen Hx Hy Hc. set (j := channelIndex width x y c).
assert (Hj : (j < length data)%nat) by (unfold j, channelIndex; nia).
rewrite sharpen_as_writes, !writes_lookup.
rewrite (lookup_replicate_2 _ _ _ Hj).
pose proof (edgeIndices_elem x y c Hx Hy Hc) as Hedge. fold j in Hedge.
pose proof (innerIndices_elem j) as Hinner.
destruct (decode_channel width x y c Hx Hc) as (D1 & D2 & D3 & D4). fold j in D1, D2.
destruct (decide ((1 ≤ x ∧ x + 1 < width)%nat ∧ (1 ≤ y ∧ y + 1 < height)%nat
                  ∧ (c < 3)%nat)) as [(Hxi & Hyi & Hc3)|Hno].
- assert (Hne : ¬ (x = 0 ∨ y = 0 ∨ x = width - 1 ∨ y = height - 1)%nat) by lia.
  rewrite <- Hedge in Hne.
  rewrite (decide_False (P := j ∈ columnIndices)) by tauto.
  rewrite (decide_False (P := j ∈ rowIndices)) by tauto.
  rewrite (decide_True (P := j ∈ innerIndices)).
  2:{ apply Hinner. exists x, y, c. split_and!; try done; lia. }
  cbn [fmap option_fmap option_map]. f_equal. unfold sharpenedByte.
  rewrite D1, D2, D3, D4. by apply Nat.ltb_lt in Hc3 as ->.
- destruct (decide (x = 0 ∨ y = 0 ∨ x = width - 1 ∨ y = height - 1)%nat) as [He|Hin].
  + apply Hedge in He.
    destruct (decide (j ∈ columnIndices)), (decide (j ∈ rowIndices)),
      (decide (j ∈ innerIndices)); cbn; try done; tauto.
  + assert (c = 3)%nat as -> by lia.
    assert (Hxi : (1 ≤ x ∧ x + 1 < width)%nat) by lia.
    assert (Hyi : (1 ≤ y ∧ y + 1 < height)%nat) by lia.
    rewrite <- Hedge in Hin.
    rewrite (decide_False (P := j ∈ columnIndices)) by tauto.
    rewrite (decide_False (P := j ∈ rowIndices)) by tauto.
    rewrite (decide_True (P := j ∈ innerIndices)).
    2:{ apply Hinner. exists x, y, 3%nat. split_and!; try done; lia. }
    cbn [fmap option_fmap option_map]. f_equal. unfold sharpenedByte. by rewrite D2.
Qed.
End sharpening.
Lemma convolve_value (data : list Z) (width x y c : nat) :
(1 ≤ x)%nat → (1 ≤ y)%nat →
convolve data width x y c
= (5 * byteAt data (channelIndex width x y c)
   - byteAt data (channelIndex width (x - 1) y c)
   - byteAt data (channelIndex width (x + 1) y c)
   - byteAt data (channelIndex width x (y - 1) c)
   - byteAt data (channelIndex width x (y + 1) c))%Z.
Proof.
intros Hx Hy. unfold convolve, neighbours, kernel.
cbn [mbind list_bind fmap list_fmap app mret list_ret zip zip_with foldl fst snd
     concat].
assert (Hi : ∀ (ky kx : Z) (x' y' : nat),
  Z.of_nat y' = (Z.of_nat y + ky)%Z → Z.of_nat x' = (Z.of_nat x + kx)%Z →
  Z.to_nat (((Z.of_nat y + ky) * Z.of_nat width + (Z.of_nat x + kx)) * 4 + Z.of_nat c)
  = channelIndex width x' y' c).
{ intros ky kx x' y' <- <-. unfold channelIndex. lia. }
rewrite (Hi (-1)%Z 0%Z x (y - 1)%nat), (Hi 0%Z (-1)%Z (x - 1)%nat y),
  (Hi 0%Z 0%Z x y), (Hi 0%Z 1%Z (x + 1)%nat y), (Hi 1%Z 0%Z x (y + 1)%nat) by lia.
ring.
Qed.

(** X30. The sharpening pass on the image data of the upscaled frame (a
    buffer of 4 bytes for each of width x height pixels): the buffer keeps
    its size and every entry stays a byte; the alpha byte of every pixel and
    all channels of the pixels on the four edges are copied unchanged; a
    colour channel of an inner pixel becomes five times its value minus the
    values of its four neighbours, cut to 0..255; and a picture of one flat
    colour comes out as it went in. *)
Theorem sharpen_keeps_frame (width height : nat) (data : list Z) :
length data = (4 * width * height)%nat →
Forall (λ v, (0 <= v <= 255)%Z) data →
let output := sharpen width height data in
length output = length data
∧ Forall (λ v, (0 <= v <= 255)%Z) output
∧ (∀ x y c, (x < width)%nat → (y < height)%nat → (c < 4)%nat →
     (x = 0 ∨ y = 0 ∨ x = width - 1 ∨ y = height - 1 ∨ c = 3)%nat →
     output !! channelIndex width x y c = data !! channelIndex width x y c)
∧ (∀ x y c, (1 ≤ x ∧ x + 1 < width)%nat → (1 ≤ y ∧ y + 1 < height)%nat →
     (c < 3)%nat →
     output !! channelIndex width x y c
     = Some (Z.min 255 (Z.max 0
         (5 * byteAt data (channelIndex width x y c)
          - byteAt data (channelIndex width (x - 1) y c)
          - byteAt data (channelIndex width (x + 1) y c)
          - byteAt data (channelIndex width x (y - 1) c)
          - byteAt data (channelIndex width x (y + 1) c)))))
∧ ((∀ x y x' y' c, (x < width)%nat → (y < height)%nat → (x' < width)%nat →
      (y' < height)%nat → (c < 4)%nat →
      byteAt data (channelIndex width x y c)
      = byteAt data (channelIndex width x' y' c)) →
   output = data).
Proof.
intros Hlen Hbytes. cbn zeta.
assert (Hlength : length (sharpen width height data) = length data).
{ by rewrite sharpen_as_writes, !writes_length, length_replicate. }
assert (Hbyte : ∀ j, (j < length data)%nat →
  data !! j = Some (byteAt data j) ∧ (0 <= byteAt data j <= 255)%Z).
{ intros j Hj. destruct (lookup_lt_is_Some_2 data j Hj) as [v Hv].
  unfold byteAt. rewrite Hv. split; [done|].
  by apply (proj1 (Forall_lookup _ _) Hbytes j v). }
assert (Hin : ∀ x y c, (x < width)%nat → (y < height)%nat → (c < 4)%nat →
  (channelIndex width x y c < length data)%nat)
  by (intros x y c Hx Hy Hc; unfold channelIndex; nia).
split_and!.
- exact Hlength.
- apply Forall_lookup. intros i v Hi.
  assert (Hlt : (i < 4 * width * height)%nat).
  { apply lookup_lt_Some in Hi. lia. }
  destruct (channelIndex_decompose width height i Hlt) as (x & y & c & Hx & Hy & Hc & ->).
  rewrite (sharpen_lookup width height data x y c Hlen Hx Hy Hc) in Hi.
  injection Hi as <-. case_decide; [lia|].
  apply Hbyte. by apply Hin.
- intros x y c Hx Hy Hc Hedge.
  rewrite (sharpen_lookup width height data x y c Hlen Hx Hy Hc).
  rewrite decide_False by lia. symmetry. apply Hbyte. by apply Hin.
- intros x y c Hx Hy Hc.
  rewrite (sharpen_lookup width height data x y c Hlen) by lia.
  rewrite decide_True by lia. by rewrite convolve_value by lia.
- intros Hflat. apply list_eq. intros i.
  destruct (decide (i < length data)%nat) as [Hlt|Hge].
  2:{ rewrite !lookup_ge_None_2; [done | lia | lia]. }
  destruct (channelIndex_decompose width height i ltac:(lia))
    as (x & y & c & Hx & Hy & Hc & ->).
  rewrite (sharpen_lookup width height data x y c Hlen Hx Hy Hc).
  destruct (Hbyte _ Hlt) as [Hd Hr]. rewrite Hd. f_equal.
  case_decide as Hinner; [|done].
  rewrite convolve_value by lia.
  rewrite (Hflat (x - 1)%nat y x y c), (Hflat (x + 1)%nat y x y c),
    (Hflat x (y - 1)%nat x y c), (Hflat x (y + 1)%nat x y c) by lia.
  lia.
Qed.

Lemma sharpen_keeps_frame_witness :
let data :=
  [ 10; 20; 30; 255;   40; 50; 60; 255;   70; 80; 90; 255;
    15; 25; 35; 255;  100; 60; 200; 255;  75; 85; 95; 255;
    11; 21; 31; 255;   45; 55; 65; 255;   12; 22; 32; 255 ]%Z in
let output := sharpen 3 3 data in
length output = 36%nat
∧ output !! channelIndex 3 1 1 0 = Some 255%Z
∧ output !! channelIndex 3 1 1 1 = Some 85%Z
∧ output !! channelIndex 3 1 1 3 = data !! channelIndex 3 1 1 3
∧ output !! channelIndex 3 2 1 2 = data !! channelIndex 3 2 1 2.
Proof.
intros data output.
assert (H1 : length data = (4 * 3 * 3)%nat) by reflexivity.
assert (H2 : Forall (λ v, (0 <= v <= 255)%Z) data)
  by (repeat constructor; lia).
destruct (sharpen_keeps_frame 3 3 data H1 H2) as (Hlen & _ & Hedge & Hinner & _).
fold output in Hlen, Hedge, Hinner.
split_and!.
- by rewrite Hlen.
- rewrite (Hinner 1 1 0)%nat by lia. reflexivity.
- rewrite (Hinner 1 1 1)%nat by lia. reflexivity.
- apply Hedge; lia.
- apply Hedge; lia.
Defined.
